(** * ZenReader: document ingestion and chapter segmentation

    A shallow embedding of [src/utils/fileParser.ts] (encoding sniffing,
    the two-pass plain-text chapter parser, the format dispatcher) and of
    the lazy chapter view [activeChapterData] of [src/App.tsx], with the
    properties of the chapter sequence proved over it; then of what uses
    them: the library store of [src/utils/db.ts], the summary service of
    [src/services/geminiService.ts], the tag stripping and the bookmark
    snippet of [src/components/Reader.tsx], and the handlers of
    [src/App.tsx] that import, open, delete and read books.

    JavaScript strings are sequences of UTF-16 code units: a string is a
    [list Z] of units in [0, 65535].  JavaScript numbers that hold
    offsets and counters are integers of [Z]; positions inside the regular
    expression engine are [nat]. *)

From Stdlib Require Import ZArith List Bool Lia Ascii String DecimalString.
From Stdlib Require Import DecimalZ DecimalPos FinFun Permutation Sorted.
Import ListNotations.

Local Open Scope Z_scope.

(** ** Strings of code units *)

Module JS.

Definition jsstring := list Z.

Definition len (s : jsstring) : Z := Z.of_nat (List.length s).

(** Literals: the bytes of a Rocq string, read as UTF-8, give the code
    units of the same text (one unit per character of the Basic
    Multilingual Plane, which is all the source's literals use). *)
Fixpoint utf8 (bs : list Z) : jsstring :=
  match bs with
  | [] => []
  | b :: r =>
      if b <? 128 then b :: utf8 r
      else if b <? 224 then
        match r with
        | b2 :: r' => ((b - 192) * 64 + (b2 - 128)) :: utf8 r'
        | [] => []
        end
      else
        match r with
        | b2 :: b3 :: r' =>
            ((b - 224) * 4096 + (b2 - 128) * 64 + (b3 - 128)) :: utf8 r'
        | _ => []
        end
  end.

Definition js (s : string) : jsstring :=
  utf8 (List.map (fun a => Z.of_N (N_of_ascii a)) (list_ascii_of_string s)).

(** Number to string conversion of an integer, as in a template literal. *)
Definition numberToString (n : Z) : jsstring :=
  js (NilZero.string_of_int (Z.to_int n)).

(** [String.prototype.substring(start, end)]: both arguments are clamped
    to [0, length] and swapped when out of order. *)
Definition clamp (s : jsstring) (i : Z) : Z := Z.min (Z.max i 0) (len s).

Definition substring (s : jsstring) (start end_ : Z) : jsstring :=
  let a := clamp s start in
  let b := clamp s end_ in
  let from := Z.min a b in
  let to := Z.max a b in
  firstn (Z.to_nat (to - from)) (skipn (Z.to_nat from) s).

(** [substring(start)] with the end omitted. *)
Definition substringFrom (s : jsstring) (start : Z) : jsstring :=
  substring s start (len s).

Fixpoint startsWith (s needle : jsstring) {struct needle} : bool :=
  match needle, s with
  | [], _ => true
  | _ :: _, [] => false
  | n :: needle', c :: s' => (c =? n) && startsWith s' needle'
  end.

(** [String.prototype.indexOf]: the least position at which [needle]
    occurs, [-1] when there is none. *)
Fixpoint indexOfFrom (s needle : jsstring) (i : Z) : Z :=
  if startsWith s needle then i
  else match s with
       | [] => -1
       | _ :: s' => indexOfFrom s' needle (i + 1)
       end.

Definition indexOf (s needle : jsstring) : Z := indexOfFrom s needle 0.

Definition includes (s needle : jsstring) : bool :=
  negb (indexOf s needle =? -1).

(** WhiteSpace and LineTerminator code units: what [trim] strips and what
    [\s] matches. *)
Definition isLineTerminator (c : Z) : bool :=
  (c =? 10) || (c =? 13) || (c =? 8232) || (c =? 8233).

Definition isWhiteSpace (c : Z) : bool :=
  (c =? 9) || (c =? 11) || (c =? 12) || (c =? 32) || (c =? 160)
  || (c =? 5760) || ((8192 <=? c) && (c <=? 8202)) || (c =? 8239)
  || (c =? 8287) || (c =? 12288) || (c =? 65279)
  || isLineTerminator c.

Fixpoint trimStart (s : jsstring) : jsstring :=
  match s with
  | [] => []
  | c :: s' => if isWhiteSpace c then trimStart s' else s
  end.

Definition trimEnd (s : jsstring) : jsstring := rev (trimStart (rev s)).

Definition trim (s : jsstring) : jsstring := trimEnd (trimStart s).

(** [String.prototype.split] on a one-unit separator: the pieces between
    the separators, empty pieces kept; the empty string gives one empty
    piece. *)
Fixpoint split (sep : Z) (s : jsstring) : list jsstring :=
  match s with
  | [] => [[]]
  | c :: s' =>
      if c =? sep then [] :: split sep s'
      else match split sep s' with
           | piece :: pieces => (c :: piece) :: pieces
           | [] => [[c]]
           end
  end.

(** [Array.prototype.join('')]. *)
Definition join (pieces : list jsstring) : jsstring := List.concat pieces.

(** [String.prototype.toLowerCase], on the units that matter where the
    source uses it: the result is only compared with the ASCII words
    [txt], [docx] and [epub], and no unit outside [A-Z] lower-cases to a
    letter of those words. *)
Definition toLowerCase (s : jsstring) : jsstring :=
  List.map (fun c => if (65 <=? c) && (c <=? 90) then c + 32 else c) s.

(** [String.prototype.replace] with a string pattern: the first
    occurrence only. *)
Definition replace (s pat repl : jsstring) : jsstring :=
  let i := indexOf s pat in
  if i =? -1 then s
  else substring s 0 i ++ repl ++ substringFrom s (i + len pat).

Definition eqb (a b : jsstring) : bool :=
  if list_eq_dec Z.eq_dec a b then true else false.

(** Truthiness of a string: the empty string is falsy. *)
Definition truthy (s : jsstring) : bool :=
  match s with [] => false | _ :: _ => true end.

End JS.

Import JS.

(** ** The regular expression engine

    The backtracking matcher of ECMAScript, for the constructs that
    [chapterRegex] uses: character sets, sequence, alternation, greedy
    quantifiers over a one-character atom, the assertions [^] and [$]
    under the [m] flag, and one capturing group.  A matcher takes a state
    and a continuation and returns the first successful end state, trying
    alternatives left to right and longer repetitions first. *)

Module RegExp.

Inductive regex : Type :=
| Empty
| Char (cs : Z -> bool)
| Seq (r1 r2 : regex)
| Alt (r1 r2 : regex)
| Quant (cs : Z -> bool) (min : nat) (max : option nat)
| BOL
| EOL
| Group (r : regex).

(** A match state: the end index reached, the input from there on, and
    the span of capturing group 1 when the group has been closed. *)
Record MatchState := mkState {
  endIndex : nat;
  rest : jsstring;
  capture : option (nat * nat)
}.

Definition Continuation := MatchState -> option MatchState.

Definition advance (x : MatchState) (tl : jsstring) : MatchState :=
  mkState (S (endIndex x)) tl (capture x).

(** [^] under the [m] flag: at index 0 or just after a line terminator. *)
Definition atLineStart (input : jsstring) (e : nat) : bool :=
  match e with
  | O => true
  | S e' => match nth_error input e' with
            | Some c => isLineTerminator c
            | None => false
            end
  end.

(** [$] under the [m] flag: at the end of the input or just before a line
    terminator. *)
Definition atLineEnd (rest : jsstring) : bool :=
  match rest with
  | [] => true
  | c :: _ => isLineTerminator c
  end.

(** Greedy repetition of a one-character atom, between [min] and [max]
    times: one more character is tried first, and the continuation is
    called on the shorter repetition only when that fails. *)
Fixpoint repeatMatcher (cs : Z -> bool) (min : nat) (max : option nat)
    (s : jsstring) (e : nat) (cap : option (nat * nat))
    (c : Continuation) : option MatchState :=
  match max with
  | Some O => c (mkState e s cap)
  | _ =>
      match s with
      | ch :: tl =>
          if cs ch then
            let z := repeatMatcher cs (Nat.pred min) (option_map Nat.pred max)
                       tl (S e) cap c in
            match min with
            | S _ => z
            | O => match z with
                   | Some r => Some r
                   | None => c (mkState e s cap)
                   end
            end
          else match min with
               | O => c (mkState e s cap)
               | S _ => None
               end
      | [] => match min with
              | O => c (mkState e s cap)
              | S _ => None
              end
      end
  end.

Fixpoint matcher (input : jsstring) (r : regex) (x : MatchState)
    (c : Continuation) : option MatchState :=
  match r with
  | Empty => c x
  | Char cs =>
      match rest x with
      | ch :: tl => if cs ch then c (advance x tl) else None
      | [] => None
      end
  | Seq r1 r2 => matcher input r1 x (fun y => matcher input r2 y c)
  | Alt r1 r2 =>
      match matcher input r1 x c with
      | Some z => Some z
      | None => matcher input r2 x c
      end
  | Quant cs min max =>
      repeatMatcher cs min max (rest x) (endIndex x) (capture x) c
  | BOL => if atLineStart input (endIndex x) then c x else None
  | EOL => if atLineEnd (rest x) then c x else None
  | Group r1 =>
      matcher input r1 x
        (fun y => c (mkState (endIndex y) (rest y)
                             (Some (endIndex x, endIndex y))))
  end.

(** The result of [exec]: the match array (its [index], element 0 and
    element 1) and the value [exec] leaves in the expression's
    [lastIndex]. *)
Record MatchResult := mkMatch {
  index : Z;
  m0 : jsstring;
  m1 : option jsstring;
  lastIndex : nat
}.

Definition slice (input : jsstring) (from to : nat) : jsstring :=
  firstn (to - from) (skipn from input).

(** The search of [exec] under the [g] flag: the match is tried at
    [i], [i+1], ... up to and including the length of the input. *)
Fixpoint searchFrom (r : regex) (input : jsstring) (i : nat) (s : jsstring)
    : option MatchResult :=
  match matcher input r (mkState i s None) Some with
  | Some y =>
      Some (mkMatch (Z.of_nat i)
                    (slice input i (endIndex y))
                    (option_map (fun ab => slice input (fst ab) (snd ab))
                                (capture y))
                    (endIndex y))
  | None =>
      match s with
      | [] => None
      | _ :: s' => searchFrom r input (S i) s'
      end
  end.

Definition exec (r : regex) (input : jsstring) (lastIndex : nat)
    : option MatchResult :=
  if (lastIndex <=? List.length input)%nat
  then searchFrom r input lastIndex (skipn lastIndex input)
  else None.

(** [test] of an expression that is one character set, without [g]: some
    unit of the string is in the set. *)
Definition test (cs : Z -> bool) (s : jsstring) : bool := existsb cs s.

End RegExp.

Import RegExp.

(** ** The chapter record ([Chapter] of the type declarations) *)

Record Chapter := mkChapter {
  id : jsstring;
  title : jsstring;
  content : option jsstring;
  chapterIndex : Z;                 (* the field [index] *)
  startStringIndex : option Z;
  endStringIndex : option Z
}.

(** ** The plain-text parser ([parseTxtContentOptimized]) *)

Module Txt.

(** Character sets under the [i] flag.  Two units match when their
    canonical forms agree; for the units of this pattern (ASCII letters
    and digits, the full stop, CJK ideographs, white space) only an ASCII
    letter has another unit with the same canonical form, its other
    case. *)
Definition canonicalize (c : Z) : Z :=
  if (97 <=? c) && (c <=? 122) then c - 32 else c.

Definition unit (a : Z) : Z -> bool :=
  fun c => canonicalize c =? canonicalize a.

Definition oneOf (set : jsstring) : Z -> bool :=
  fun c => existsb (fun a => canonicalize c =? canonicalize a) set.

Definition digit : Z -> bool := fun c => (48 <=? c) && (c <=? 57).

Definition notNewline : Z -> bool := fun c => negb (c =? 10).

Definition union (p q : Z -> bool) : Z -> bool := fun c => p c || q c.

(** A literal word: its units in sequence. *)
Definition lit (s : jsstring) : regex :=
  fold_right (fun a r => Seq (Char (unit a)) r) Empty s.

Definition star (cs : Z -> bool) : regex := Quant cs 0 None.
Definition plus (cs : Z -> bool) : regex := Quant cs 1 None.

Fixpoint seqs (rs : list regex) : regex :=
  match rs with
  | [] => Empty
  | [r] => r
  | r :: rs' => Seq r (seqs rs')
  end.

Fixpoint alts (rs : list regex) : regex :=
  match rs with
  | [] => Empty
  | [r] => r
  | r :: rs' => Alt r (alts rs')
  end.

(** The heading markers, in the order of the alternation. *)
Definition marker : regex :=
  alts [ seqs [ lit (js "第"); star isWhiteSpace;
                plus (union digit (oneOf (js "零一二三四五六七八九十百千两")));
                star isWhiteSpace;
                Char (oneOf (js "章回节卷集部篇")) ];
         seqs [ lit (js "Chapter"); star isWhiteSpace;
                plus (union digit (oneOf (js "IVX"))) ];
         seqs [ lit (js "Section"); star isWhiteSpace; plus digit ];
         seqs [ lit (js "Part"); star isWhiteSpace; plus digit ];
         lit (js "序章"); lit (js "前言"); lit (js "引子"); lit (js "尾声");
         lit (js "后记"); lit (js "正文"); lit (js "楔子");
         seqs [ plus digit; star isWhiteSpace; Char (unit 46);
                star isWhiteSpace ] ].

(** [chapterRegex], flags [gim]: group 1 is the marker followed by up to
    50 units other than a line feed. *)
Definition chapterRegex : regex :=
  seqs [ Alt BOL (Char (unit 10));
         star isWhiteSpace;
         Group (Seq marker (Quant notNewline 0 (Some 50%nat)));
         Alt (Char (unit 10)) EOL ].

(** [invalidTitleChars]: a character set of twelve units, the comma,
    exclamation mark and question mark in their ASCII and full-width
    forms, the ideographic full stop, the curly double quotation marks,
    the ASCII double and single quotation marks and the semicolon.  The
    ASCII full stop (46) is not in the set. *)
Definition invalidTitleChars : Z -> bool :=
  fun c => existsb (Z.eqb c)
    [44; 65292; 12290; 65311; 65281; 8220; 8221; 33; 63; 34; 39; 59].

Record ChapterPoint := mkPoint {
  pointTitle : jsstring;            (* the field [title] *)
  startIndex : Z
}.

(** PASS 1, the [while] loop over [chapterRegex.exec(text)].  The state
    of the loop is the expression's [lastIndex] and the [points] array.
    The loop runs while [exec] finds a match; [fuel] bounds the number of
    iterations and [None] stands for a loop that does not finish within
    it, or for [match[1]] being undefined when it is trimmed.  The pause
    after every hundredth point only reschedules the loop. *)
Fixpoint scanLoop (fuel : nat) (text : jsstring) (lastIdx : nat)
    (points : list ChapterPoint) : option (list ChapterPoint) :=
  match fuel with
  | O => None
  | S fuel' =>
      match exec chapterRegex text lastIdx with
      | None => Some points
      | Some m =>
          let rawMatch := m0 m in
          match m1 m with
          | None => None
          | Some group1 =>
              let titleLine := trim group1 in
              if test invalidTitleChars titleLine
              then scanLoop fuel' text (lastIndex m) points
              else if (len titleLine >? 50) || (len titleLine =? 0)
              then scanLoop fuel' text (lastIndex m) points
              else
                let offsetInMatch := indexOf rawMatch group1 in
                let startIndex := index m + offsetInMatch in
                scanLoop fuel' text (lastIndex m)
                         (points ++ [mkPoint titleLine startIndex])
          end
      end
  end.

Definition scanPoints (text : jsstring) : option (list ChapterPoint) :=
  scanLoop (S (List.length text)) text 0 [].

(** PASS 2, the [for] loop over the points: each chapter starts at its
    title and ends where the next title starts, or at the end of the
    text. *)
Fixpoint processPoints (text : jsstring) (points : list ChapterPoint)
    (chapterCounter : Z) : list Chapter :=
  match points with
  | [] => []
  | currentPoint :: points' =>
      let endStringIndex :=
        match points' with
        | nextPoint :: _ => startIndex nextPoint
        | [] => len text
        end in
      mkChapter (js "chap-" ++ numberToString chapterCounter)
                (pointTitle currentPoint)
                None
                chapterCounter
                (Some (startIndex currentPoint))
                (Some endStringIndex)
      :: processPoints text points' (chapterCounter + 1)
  end.

Definition prologue (firstStart : Z) : Chapter :=
  mkChapter (js "chap-pre") (js "开始") None 0 (Some 0) (Some firstStart).

Definition wholeText (text : jsstring) : Chapter :=
  mkChapter (js "chap-0") (js "全文") None 0 (Some 0) (Some (len text)).

Definition buildChapters (text : jsstring) (points : list ChapterPoint)
    : list Chapter :=
  match points with
  | first :: _ =>
      if startIndex first >? 50
      then prologue (startIndex first) :: processPoints text points 1
      else processPoints text points 0
  | [] => [wholeText text]
  end.

Definition parseTxtContentOptimized (text : jsstring)
    : option (list Chapter) :=
  option_map (buildChapters text) (scanPoints text).

End Txt.

Import Txt.

(** ** Encoding sniffing and the format dispatcher ([detectEncoding],
    [parseFile])

    The collaborators of the browser are taken as they come: a [Host]
    gives the outcome of each [FileReader] read, the classifier
    [window.jschardet], the [TextDecoder] constructor and the converters
    [window.mammoth] and [window.ePub], each absent ([None]) or present. *)

Module Ingest.

Inductive Error : Type :=
| ErrorMessage (message : jsstring)      (* [new Error(message)] *)
| HostError.                             (* an error value of a collaborator *)

(** The state a promise ends in; [Pending] is a promise that is never
    settled. *)
Inductive Promise (A : Type) : Type :=
| Resolved (a : A)
| Rejected (e : Error)
| Pending.

Arguments Resolved {A} a.
Arguments Rejected {A} e.
Arguments Pending {A}.

Definition await {A B : Type} (p : Promise A) (k : A -> Promise B)
    : Promise B :=
  match p with
  | Resolved a => k a
  | Rejected e => Rejected e
  | Pending => Pending
  end.

(** The event a [FileReader] fires: [load] with [e.target.result] (an
    [ArrayBuffer], or null), or [error]. *)
Inductive ReadEvent : Type :=
| OnLoad (result : option (list Z))
| OnError.

(** What loading one spine item of an e-book gives. *)
Inductive Doc : Type :=
| DocWithBody (innerHTML : jsstring)
| DocString (s : jsstring)
| DocOther.

Record SpineItem := mkItem {
  href : jsstring;
  load : option Doc                      (* [None]: [item.load] throws *)
}.

Record TocItem := mkToc {
  tocHref : jsstring;
  label : jsstring
}.

Record EpubBook := mkBook {
  spineItems : list SpineItem;
  toc : list TocItem;
  metadataTitle : option jsstring
}.

Record Host := mkHost {
  readAsArrayBuffer : list Z -> ReadEvent;
  jschardet : option (jsstring -> option jsstring);
  TextDecoder : jsstring -> option (list Z -> jsstring);
  mammoth : option (option (list Z) -> option jsstring);
  ePub : option (option (list Z) -> option EpubBook)
}.

Record File := mkFile {
  name : jsstring;
  bytes : list Z
}.

Record ParseResult := mkResult {
  resultTitle : jsstring;                (* the field [title] *)
  chapters : list Chapter;
  fullText : option jsstring
}.

Definition utf_8 : jsstring := js "utf-8".

Definition fromCharCode (byte : Z) : Z := byte mod 65536.

(** [detectEncoding]: the first 4096 bytes are read and classified;
    [resolve] is called on every path. *)
Definition detectEncoding (host : Host) (file : File) : Promise jsstring :=
  let chunk := firstn 4096 (bytes file) in
  match readAsArrayBuffer host chunk with
  | OnLoad result =>
      match result, jschardet host with
      | Some buffer, Some detect =>
          let binaryString := List.map fromCharCode buffer in
          match detect binaryString with
          | Some encoding =>
              Resolved (if truthy encoding then encoding else utf_8)
          | None => Resolved utf_8
          end
      | _, _ => Resolved utf_8
      end
  | OnError => Resolved utf_8
  end.

(** The loop over the spine of an e-book.  An item whose load throws is
    reported with [console.warn] and skipped; [index] counts the chapters
    pushed.  The result is the chapters and the items warned about. *)
Fixpoint loadSpine (toc : list TocItem) (items : list SpineItem) (index : Z)
    : list Chapter * list SpineItem :=
  match items with
  | [] => ([], [])
  | item :: items' =>
      match load item with
      | None =>
          let (chapters, warned) := loadSpine toc items' index in
          (chapters, item :: warned)
      | Some doc =>
          let content :=
            match doc with
            | DocWithBody innerHTML => innerHTML
            | DocString s => s
            | DocOther => []
            end in
          let tocItem :=
            find (fun t => includes (tocHref t) (href item)) toc in
          let title :=
            match tocItem with
            | Some t => label t
            | None => js "第 " ++ numberToString (index + 1) ++ js " 章"
            end in
          let (chapters, warned) := loadSpine toc items' (index + 1) in
          (mkChapter (js "chap-" ++ numberToString index) title
                     (Some content) index None None :: chapters,
           warned)
      end
  end.

Definition extension (file : File) : jsstring :=
  toLowerCase (last (split 46 (name file)) []).

Definition parseFile (host : Host) (file : File) : Promise ParseResult :=
  if JS.eqb (extension file) (js "txt") then
    await (detectEncoding host file) (fun encoding =>
      match readAsArrayBuffer host (bytes file) with
      | OnLoad (Some buffer) =>
          match TextDecoder host encoding with
          | Some decode =>
              let text := decode buffer in
              match parseTxtContentOptimized text with
              | Some chapters =>
                  Resolved (mkResult (replace (name file) (js ".txt") [])
                                     chapters (Some text))
              | None => Pending
              end
          | None => Rejected HostError
          end
      | OnLoad None => Rejected HostError
      | OnError => Rejected HostError
      end)
  else if JS.eqb (extension file) (js "docx") then
    match mammoth host with
    | None => Rejected (ErrorMessage (js "Mammoth library not loaded."))
    | Some convertToHtml =>
        match readAsArrayBuffer host (bytes file) with
        | OnLoad arrayBuffer =>
            match convertToHtml arrayBuffer with
            | Some html =>
                Resolved
                  (mkResult (replace (name file) (js ".docx") [])
                            [mkChapter (js "chap-0") (name file) (Some html)
                                       0 None None]
                            None)
            | None => Rejected HostError
            end
        | OnError => Pending
        end
    end
  else if JS.eqb (extension file) (js "epub") then
    match ePub host with
    | None => Rejected (ErrorMessage (js "EPUB library not loaded."))
    | Some open =>
        match readAsArrayBuffer host (bytes file) with
        | OnLoad arrayBuffer =>
            match open arrayBuffer with
            | Some book =>
                let chapters := fst (loadSpine (toc book) (spineItems book) 0) in
                let title :=
                  match metadataTitle book with
                  | Some t => if truthy t then t else name file
                  | None => name file
                  end in
                Resolved (mkResult title chapters None)
            | None => Rejected HostError
            end
        | OnError => Pending
        end
    end
  else
    Rejected (ErrorMessage
                (js "不支持的文件格式。请使用 .txt, .docx, 或 .epub")).

End Ingest.

Import Ingest.

(** ** The lazy chapter view ([activeChapterData] of [App.tsx]) *)

Module App.

Definition paragraph (line : jsstring) : jsstring :=
  js "<p>" ++ line ++ js "</p>".

Definition loadingContent : jsstring := js "<p>正在加载内容...</p>".

Definition withContent (chapter : Chapter) (c : jsstring) : Chapter :=
  mkChapter (id chapter) (title chapter) (Some c) (chapterIndex chapter)
            (startStringIndex chapter) (endStringIndex chapter).

(** The text of a chapter of a plain-text book: the slice of the full
    text, without its first line when that line repeats the title. *)
Definition rawContent (chapter : Chapter) (fullText : jsstring) (start : Z)
    : jsstring :=
  let end_ :=
    match endStringIndex chapter with
    | Some e => e
    | None => len fullText
    end in
  let rawContent := substring fullText start end_ in
  let firstNewline := indexOf rawContent [10] in
  if negb (firstNewline =? -1) then
    let firstLine := trim (substring rawContent 0 firstNewline) in
    if includes firstLine (trim (title chapter))
       || includes (trim (title chapter)) firstLine
    then substringFrom rawContent (firstNewline + 1)
    else rawContent
  else rawContent.

(** The body of the memo for the chapter that is shown. *)
Definition materialize (chapter : Chapter) (fullText : option jsstring)
    : Chapter :=
  match content chapter with
  | Some (_ :: _) => chapter
  | _ =>
      match fullText, startStringIndex chapter with
      | Some (u :: text), Some start =>
          withContent chapter
            (join (List.map paragraph
                     (split 10 (rawContent chapter (u :: text) start))))
      | _, _ => withContent chapter loadingContent
      end
  end.

(** What the memo gives: null without a book, the view of the current
    chapter, or the TypeError of reading [content] of undefined when the
    index is outside the chapter array. *)
Inductive View : Type :=
| Null
| Shown (chapter : Chapter)
| TypeError.

Definition activeChapterData (book : option (list Chapter))
    (currentChapterIndex : Z) (fullText : option jsstring) : View :=
  match book with
  | None => Null
  | Some bookChapters =>
      if currentChapterIndex <? 0 then TypeError
      else match nth_error bookChapters (Z.to_nat currentChapterIndex) with
           | Some chapter => Shown (materialize chapter fullText)
           | None => TypeError
           end
  end.

End App.

Import App.

(** ** The reader component ([Reader.tsx]) *)

Module Reader.

Definition isLt : Z -> bool := fun c => c =? 60.
Definition isGt : Z -> bool := fun c => c =? 62.

(** The expression [/<[^>]*>?/gm] of the summary button: a [<], then
    units other than [>], as many as there are, then a [>] if there is
    one.  It has no letter and no assertion, so the flags [i] and [m]
    would change nothing. *)
Definition tagRegex : regex :=
  Seq (Char isLt)
      (Seq (Quant (fun c => negb (isGt c)) 0 None)
           (Quant isGt 0 (Some 1%nat))).

(** [String.prototype.replace] with an expression under the [g] flag and
    a replacement string without [$]: the matches are found one after the
    other from [lastIndex] on (an empty match moves [lastIndex] by one),
    and the result is the text between the matches with the replacement in
    the place of each match.  [fuel] bounds the number of searches. *)
Fixpoint replaceLoop (fuel : nat) (r : regex) (s replacement : jsstring)
    (lastIdx nextSourcePosition : nat) (accumulatedResult : jsstring)
    : option jsstring :=
  match fuel with
  | O => None
  | S fuel' =>
      match exec r s lastIdx with
      | None => Some (accumulatedResult ++ skipn nextSourcePosition s)
      | Some m =>
          let position := Z.to_nat (index m) in
          let matchLength := List.length (m0 m) in
          let lastIdx' :=
            if (matchLength =? 0)%nat then S (lastIndex m) else lastIndex m in
          if (nextSourcePosition <=? position)%nat
          then replaceLoop fuel' r s replacement lastIdx'
                 (position + matchLength)
                 (accumulatedResult
                    ++ slice s nextSourcePosition position ++ replacement)
          else replaceLoop fuel' r s replacement lastIdx'
                 nextSourcePosition accumulatedResult
      end
  end.

Definition replaceRegex (r : regex) (s replacement : jsstring)
    : option jsstring :=
  replaceLoop (S (S (List.length s))) r s replacement 0 0 [].

(** The text handed to the summary: [chapter.content.replace(..., '')]. *)
Definition stripTags (content : jsstring) : option jsstring :=
  replaceRegex tagRegex content [].

(** The snippet of a bookmark ([handleBookmarkClick]): the first 50
    units of the selection, with three dots after them when the selection
    is longer. *)
Definition textSnippet (selection : jsstring) : jsstring :=
  substring selection 0 50
  ++ (if len selection >? 50 then js "..." else []).

End Reader.

Import Reader.

(** ** The library store ([db.ts])

    The object store [books] of the database has the key path [id]: it
    holds at most one record per key, in the order of the keys.  Whether
    the database opens and which requests end in an error is given with
    the database, as the host's collaborators are. *)

Module DB.

Record BookMetadata := mkMetadata {
  bookId : jsstring;                     (* the field [id] *)
  bookTitle : jsstring;                  (* the field [title] *)
  fileName : jsstring;
  fileType : jsstring;
  lastReadTimestamp : option Z;
  totalChapters : Z
}.

Record LibraryBook := mkLibraryBook {
  key : jsstring;                        (* the field [id], the key path *)
  blob : list Z;                         (* the field [file]: its bytes *)
  metadata : BookMetadata;
  addedAt : Z
}.

Inductive Request : Type :=
| Put (book : LibraryBook)
| Get (id : jsstring)
| GetAll
| Delete (id : jsstring).

Record Database := mkDatabase {
  opens : bool;                          (* [indexedDB.open] succeeds *)
  fails : Request -> bool;               (* the requests that fire [error] *)
  records : list LibraryBook             (* the object store *)
}.

Definition withRecords (db : Database) (rs : list LibraryBook) : Database :=
  mkDatabase (opens db) (fails db) rs.

(** The order of string keys: by code unit, a proper prefix first. *)
Fixpoint keyLt (a b : jsstring) : bool :=
  match a, b with
  | _, [] => false
  | [], _ :: _ => true
  | x :: a', y :: b' =>
      if x <? y then true else if y <? x then false else keyLt a' b'
  end.

(** [store.put]: the record takes the place of the record with its key,
    or its place in the order of the keys. *)
Fixpoint put (book : LibraryBook) (rs : list LibraryBook)
    : list LibraryBook :=
  match rs with
  | [] => [book]
  | r :: rs' =>
      if JS.eqb (key r) (key book) then book :: rs'
      else if keyLt (key book) (key r) then book :: r :: rs'
      else r :: put book rs'
  end.

(** [store.get]. *)
Definition get (id : jsstring) (rs : list LibraryBook) : option LibraryBook :=
  find (fun r => JS.eqb (key r) id) rs.

(** [store.delete]. *)
Definition delete (id : jsstring) (rs : list LibraryBook)
    : list LibraryBook :=
  filter (fun r => negb (JS.eqb (key r) id)) rs.

(** The result of a promise that carries no value. *)
Definition void : Type := Datatypes.unit.

Definition initDB (db : Database) : Promise void :=
  if opens db then Resolved tt else Rejected HostError.

Definition saveBookToDB (book : LibraryBook) (db : Database)
    : Promise void * Database :=
  match initDB db with
  | Resolved _ =>
      if fails db (Put book) then (Rejected HostError, db)
      else (Resolved tt, withRecords db (put book (records db)))
  | Rejected e => (Rejected e, db)
  | Pending => (Pending, db)
  end.

Definition withLastRead (data : LibraryBook) (timestamp : Z) : LibraryBook :=
  mkLibraryBook (key data) (blob data)
    (mkMetadata (bookId (metadata data)) (bookTitle (metadata data))
                (fileName (metadata data)) (fileType (metadata data))
                (Some timestamp) (totalChapters (metadata data)))
    (addedAt data).

Definition updateBookLastRead (id : jsstring) (timestamp : Z) (db : Database)
    : Promise void * Database :=
  match initDB db with
  | Resolved _ =>
      if fails db (Get id) then (Rejected HostError, db)
      else
        match get id (records db) with
        | Some data =>
            let data' := withLastRead data timestamp in
            if fails db (Put data') then (Rejected HostError, db)
            else (Resolved tt, withRecords db (put data' (records db)))
        | None => (Resolved tt, db)
        end
  | Rejected e => (Rejected e, db)
  | Pending => (Pending, db)
  end.

Definition getBookFromDB (id : jsstring) (db : Database)
    : Promise (option LibraryBook) * Database :=
  match initDB db with
  | Resolved _ =>
      if fails db (Get id) then (Rejected HostError, db)
      else (Resolved (get id (records db)), db)
  | Rejected e => (Rejected e, db)
  | Pending => (Pending, db)
  end.

Definition getAllBooksMetadata (db : Database)
    : Promise (list LibraryBook) * Database :=
  match initDB db with
  | Resolved _ =>
      if fails db GetAll then (Rejected HostError, db)
      else (Resolved (records db), db)
  | Rejected e => (Rejected e, db)
  | Pending => (Pending, db)
  end.

Definition deleteBookFromDB (id : jsstring) (db : Database)
    : Promise void * Database :=
  match initDB db with
  | Resolved _ =>
      if fails db (Delete id) then (Rejected HostError, db)
      else (Resolved tt, withRecords db (delete id (records db)))
  | Rejected e => (Rejected e, db)
  | Pending => (Pending, db)
  end.

End DB.

Import DB.

(** ** The summary service ([geminiService.ts])

    The client library is a collaborator: [generateContent] answers a
    request with a response, whose [text] may be missing, or throws, or
    never answers.  The requests that are sent are part of what a call
    gives, beside the promise. *)

Module Gemini.

Record GenerateContentRequest := mkRequest {
  model : jsstring;
  contents : jsstring;
  systemInstruction : option jsstring;
  thinkingBudget : option Z
}.

Inductive GenerateContentOutcome : Type :=
| Responds (text : option jsstring)
| Throws
| Unanswered.

Record Client := mkClient {
  apiKey : jsstring;                     (* [process.env.API_KEY || ''] *)
  generateContent : GenerateContentRequest -> GenerateContentOutcome
}.

Definition gemini_3_flash_preview : jsstring := js "gemini-3-flash-preview".

Definition summaryPrompt : jsstring :=
  js "请用简体中文对以下书籍章节内容提供简明扼要的总结（最多3段）。重点关注关键情节和角色发展。"
  ++ [10; 10] ++ js "文本内容：" ++ [10].

Definition summarizeChapter (ai : Client) (text : jsstring)
    : Promise jsstring * list GenerateContentRequest :=
  if negb (truthy (apiKey ai)) then
    (Resolved (js "API Key 缺失，AI 功能不可用。"), [])
  else
    let request :=
      mkRequest gemini_3_flash_preview
                (summaryPrompt ++ substring text 0 15000 ++ js "...")
                (Some (js "你是一个乐于助人的文学助手。"))
                (Some 0) in
    (match generateContent ai request with
     | Responds (Some t) =>
         Resolved (if truthy t then t else js "无法生成总结。")
     | Responds None => Resolved (js "无法生成总结。")
     | Throws => Resolved (js "与 AI 服务通信时发生错误。")
     | Unanswered => Pending
     end,
     [request]).

Definition explainPrompt (selection context : jsstring) : jsstring :=
  js "请结合故事情境，用简体中文解释以下选中的文本。"
  ++ [10; 10] ++ js "选文： " ++ [34] ++ selection ++ [34]
  ++ [10; 10] ++ js "选文上下文： " ++ [34] ++ substring context 0 1000
  ++ js "..." ++ [34].

Definition explainText (ai : Client) (selection context : jsstring)
    : Promise jsstring * list GenerateContentRequest :=
  if negb (truthy (apiKey ai)) then
    (Resolved (js "API Key 缺失。"), [])
  else
    let request :=
      mkRequest gemini_3_flash_preview (explainPrompt selection context)
                None None in
    (match generateContent ai request with
     | Responds (Some t) =>
         Resolved (if truthy t then t else js "无法解释文本。")
     | Responds None => Resolved (js "无法解释文本。")
     | Throws => Resolved (js "发生错误。")
     | Unanswered => Pending
     end,
     [request]).

End Gemini.

Import Gemini.

(** ** The handlers of the application ([App.tsx])

    A handler runs from the state of the application and of its
    surroundings (the library store, the clock, the alerts shown) to the
    state it leaves, with the way it ends: it returns, it throws, or it
    waits for a promise that is never settled. *)

Module Handlers.

(** An object used as a map from strings: its own entries, in the order
    in which the keys were added.  The keys are ids of books; what a plain
    object inherits is not part of the map. *)
Definition Dict (V : Type) : Type := list (jsstring * V).

Fixpoint lookup {V : Type} (k : jsstring) (d : Dict V) : option V :=
  match d with
  | [] => None
  | (k', v) :: d' => if JS.eqb k' k then Some v else lookup k d'
  end.

(** The spread of [d] followed by the computed key [k]. *)
Fixpoint assign {V : Type} (k : jsstring) (v : V) (d : Dict V) : Dict V :=
  match d with
  | [] => [(k, v)]
  | (k', v') :: d' =>
      if JS.eqb k' k then (k, v) :: d' else (k', v') :: assign k v d'
  end.

(** The [delete] operator on a copy of [d]. *)
Definition remove {V : Type} (k : jsstring) (d : Dict V) : Dict V :=
  filter (fun e => negb (JS.eqb (fst e) k)) d.

(** A number that is only stored and handed on (a scroll percentage),
    as the 64 bits of its binary form. *)
Definition float64 : Type := Z.

Record Book := mkOpenBook {
  bookMetadata : BookMetadata;           (* the field [metadata] *)
  bookChapters : list Chapter            (* the field [chapters] *)
}.

Record ReadingProgress := mkProgress {
  progressBookId : jsstring;             (* the field [bookId] *)
  currentChapterId : jsstring;
  chapterTitle : jsstring;
  progressChapterIndex : Z;              (* the field [currentChapterIndex] *)
  progressTotalChapters : Z;             (* the field [totalChapters] *)
  scrollPercentage : float64
}.

Record Bookmark := mkBookmark {
  bookmarkId : jsstring;                 (* the field [id] *)
  chapterId : jsstring;
  snippet : jsstring;                    (* the field [textSnippet] *)
  bookmarkScroll : float64;              (* the field [scrollPercentage] *)
  timestamp : Z
}.

(** The state of the component that the handlers below read or set. *)
Record AppState := mkApp {
  book : option Book;
  loadedText : option jsstring;          (* the state [fullText] *)
  currentChapterIndex : Z;
  progress : Dict ReadingProgress;
  bookmarks : Dict (list Bookmark);
  library : list LibraryBook;
  loading : bool;
  sidebarOpen : bool;
  aiSummary : option jsstring;
  aiLoading : bool
}.

Definition setBook (b : option Book) (st : AppState) : AppState :=
  mkApp b (loadedText st) (currentChapterIndex st) (progress st)
          (bookmarks st) (library st) (loading st) (sidebarOpen st)
          (aiSummary st) (aiLoading st).

Definition setFullText (t : option jsstring) (st : AppState) : AppState :=
  mkApp (book st) t (currentChapterIndex st) (progress st)
          (bookmarks st) (library st) (loading st) (sidebarOpen st)
          (aiSummary st) (aiLoading st).

Definition setCurrentChapterIndex (i : Z) (st : AppState) : AppState :=
  mkApp (book st) (loadedText st) i (progress st)
          (bookmarks st) (library st) (loading st) (sidebarOpen st)
          (aiSummary st) (aiLoading st).

Definition setProgress (f : Dict ReadingProgress -> Dict ReadingProgress)
    (st : AppState) : AppState :=
  mkApp (book st) (loadedText st) (currentChapterIndex st)
          (f (progress st)) (bookmarks st) (library st) (loading st)
          (sidebarOpen st) (aiSummary st) (aiLoading st).

Definition setBookmarks
    (f : Dict (list Bookmark) -> Dict (list Bookmark))
    (st : AppState) : AppState :=
  mkApp (book st) (loadedText st) (currentChapterIndex st)
          (progress st) (f (bookmarks st)) (library st) (loading st)
          (sidebarOpen st) (aiSummary st) (aiLoading st).

Definition setLibrary (l : list LibraryBook) (st : AppState) : AppState :=
  mkApp (book st) (loadedText st) (currentChapterIndex st)
          (progress st) (bookmarks st) l (loading st) (sidebarOpen st)
          (aiSummary st) (aiLoading st).

Definition setLoading (b : bool) (st : AppState) : AppState :=
  mkApp (book st) (loadedText st) (currentChapterIndex st)
          (progress st) (bookmarks st) (library st) b (sidebarOpen st)
          (aiSummary st) (aiLoading st).

Definition setSidebarOpen (b : bool) (st : AppState) : AppState :=
  mkApp (book st) (loadedText st) (currentChapterIndex st)
          (progress st) (bookmarks st) (library st) (loading st) b
          (aiSummary st) (aiLoading st).

Definition setAiSummary (a : option jsstring) (st : AppState) : AppState :=
  mkApp (book st) (loadedText st) (currentChapterIndex st)
          (progress st) (bookmarks st) (library st) (loading st)
          (sidebarOpen st) a (aiLoading st).

Definition setAiLoading (b : bool) (st : AppState) : AppState :=
  mkApp (book st) (loadedText st) (currentChapterIndex st)
          (progress st) (bookmarks st) (library st) (loading st)
          (sidebarOpen st) (aiSummary st) b.

(** What a handler runs in: the state of the component, the library
    store, the number of readings of the clock so far, the alerts shown
    and the requests sent to the summary service, latest last. *)
Record Sys := mkSys {
  state : AppState;
  database : Database;
  ticks : nat;
  alerts : list jsstring;
  sent : list GenerateContentRequest
}.

Definition Task (A : Type) : Type := Sys -> Promise A * Sys.

Definition ret {A : Type} (a : A) : Task A := fun s => (Resolved a, s).

Definition bind {A B : Type} (m : Task A) (k : A -> Task B) : Task B :=
  fun s =>
    match m s with
    | (Resolved a, s') => k a s'
    | (Rejected e, s') => (Rejected e, s')
    | (Pending, s') => (Pending, s')
    end.

Local Notation "x <- m ;; k" := (bind m (fun x => k))
  (at level 61, m at next level, right associativity).
Local Notation "m ;;; k" := (bind m (fun _ => k))
  (at level 61, right associativity).

(** [try { m } catch (e) { handler e }]. *)
Definition tryCatch {A : Type} (m : Task A) (handler : Error -> Task A)
    : Task A :=
  fun s =>
    match m s with
    | (Rejected e, s') => handler e s'
    | r => r
    end.

(** [try { m } finally { f }], for an [f] that only sets state. *)
Definition finally {A : Type} (m : Task A) (f : AppState -> AppState)
    : Task A :=
  fun s =>
    match m s with
    | (Pending, s') => (Pending, s')
    | (r, s') =>
        (r, mkSys (f (state s')) (database s') (ticks s') (alerts s')
                  (sent s'))
    end.

Definition set (f : AppState -> AppState) : Task void :=
  fun s =>
    (Resolved tt,
     mkSys (f (state s)) (database s) (ticks s) (alerts s) (sent s)).

Definition read : Task AppState := fun s => (Resolved (state s), s).

Definition alert (message : jsstring) : Task void :=
  fun s =>
    (Resolved tt,
     mkSys (state s) (database s) (ticks s) (alerts s ++ [message]) (sent s)).

Definition onDatabase {A : Type} (f : Database -> Promise A * Database)
    : Task A :=
  fun s =>
    let (r, db) := f (database s) in
    (r, mkSys (state s) db (ticks s) (alerts s) (sent s)).

Definition awaitPromise {A : Type} (p : Promise A) : Task A :=
  fun s => (p, s).

(** [Array.prototype.findIndex]. *)
Fixpoint findIndexFrom {A : Type} (p : A -> bool) (l : list A) (i : Z) : Z :=
  match l with
  | [] => -1
  | x :: l' => if p x then i else findIndexFrom p l' (i + 1)
  end.

Definition findIndex {A : Type} (p : A -> bool) (l : list A) : Z :=
  findIndexFrom p l 0.

(** [Array.prototype.join] with a separator. *)
Fixpoint joinBy (sep : jsstring) (pieces : list jsstring) : jsstring :=
  match pieces with
  | [] => []
  | [piece] => piece
  | piece :: pieces' => piece ++ sep ++ joinBy sep pieces'
  end.

(** The time by which the shelf is ordered:
    [lastReadTimestamp || addedAt]. *)
Definition shelfTime (b : LibraryBook) : Z :=
  match lastReadTimestamp (metadata b) with
  | Some t => if t =? 0 then addedAt b else t
  | None => addedAt b
  end.

(** [Array.prototype.sort] with the comparison
    [(a, b) => timeB - timeA]: the comparison is consistent, so the result
    is the one arrangement of the books by decreasing time in which books
    of the same time keep their order.  It is built by insertion. *)
Fixpoint insertBook (b : LibraryBook) (sorted : list LibraryBook)
    : list LibraryBook :=
  match sorted with
  | [] => [b]
  | x :: sorted' =>
      if shelfTime x <=? shelfTime b then b :: x :: sorted'
      else x :: insertBook b sorted'
  end.

Definition sortBooks (books : list LibraryBook) : list LibraryBook :=
  fold_right insertBook [] books.

Section WithHost.

Variable host : Host.
Variable time : nat -> Z.              (* the readings of [Date.now()] *)
Variable ai : Client.

Definition Date_now : Task Z :=
  fun s =>
    (Resolved (time (ticks s)),
     mkSys (state s) (database s) (S (ticks s)) (alerts s) (sent s)).

Definition refreshLibrary : Task void :=
  tryCatch
    (books <- onDatabase getAllBooksMetadata ;;
     set (setLibrary (sortBooks books)))
    (fun _ => ret tt).

(** The id of an imported book: the name and the size of the file. *)
Definition bookIdOf (file : File) : jsstring :=
  name file ++ js "-" ++ numberToString (Z.of_nat (List.length (bytes file))).

Definition importFile (file : File) : Task void :=
  data <- awaitPromise (parseFile host file) ;;
  let bookId := bookIdOf file in
  lastRead <- Date_now ;;
  let newBookMetadata :=
    mkMetadata bookId (resultTitle data) (name file)
               (last (split 46 (name file)) [])
               (Some lastRead) (Z.of_nat (List.length (chapters data))) in
  added <- Date_now ;;
  onDatabase
    (saveBookToDB (mkLibraryBook bookId (bytes file) newBookMetadata added)).

(** The loop of [handleFileUpload] over the files, with the count of the
    files imported and the names of the files that failed. *)
Fixpoint importFiles (fileList : list File) (successCount : Z)
    (failList : list jsstring) : Task (Z * list jsstring) :=
  match fileList with
  | [] => ret (successCount, failList)
  | file :: fileList' =>
      ok <- tryCatch (importFile file ;;; ret true) (fun _ => ret false) ;;
      if ok : bool then importFiles fileList' (successCount + 1) failList
      else importFiles fileList' successCount (failList ++ [name file])
  end.

Definition importReport (successCount : Z) (failList : list jsstring)
    : jsstring :=
  js "导入完成。" ++ [10] ++ js "成功: " ++ numberToString successCount
  ++ js " 本" ++ [10] ++ js "失败: "
  ++ numberToString (Z.of_nat (List.length failList)) ++ js " 本"
  ++ [10; 10] ++ js "失败文件: " ++ joinBy (js ", ") failList ++ [10]
  ++ js "请检查文件格式。".

Definition handleFileUpload (files : list File) : Task void :=
  match files with
  | [] => ret tt
  | _ :: _ =>
      set (setLoading true) ;;;
      counts <- importFiles files 0 [] ;;
      refreshLibrary ;;;
      set (setLoading false) ;;;
      match snd counts with
      | [] => ret tt
      | _ :: _ => alert (importReport (fst counts) (snd counts))
      end
  end.

Definition handleOpenFromLibrary (libraryBook : LibraryBook) : Task void :=
  set (setLoading true) ;;;
  finally
    (tryCatch
       (now <- Date_now ;;
        onDatabase (updateBookLastRead (key libraryBook) now) ;;;
        found <- onDatabase (getBookFromDB (key libraryBook)) ;;
        match found with
        | None =>
            alert (js "找不到文件，可能已被删除。") ;;; refreshLibrary
        | Some record =>
            let file := mkFile (fileName (metadata record)) (blob record) in
            set (setFullText None) ;;;
            data <- awaitPromise (parseFile host file) ;;
            fresh <- Date_now ;;
            let newBook :=
              mkOpenBook (metadata (withLastRead record fresh))
                         (chapters data) in
            set (setBook (Some newBook)) ;;;
            match fullText data with
            | Some (u :: text) => set (setFullText (Some (u :: text)))
            | _ => ret tt
            end ;;;
            st <- read ;;
            match lookup (key record) (progress st) with
            | Some saved =>
                let index :=
                  findIndex (fun c => JS.eqb (id c) (currentChapterId saved))
                            (chapters data) in
                if index >=? 0 then set (setCurrentChapterIndex index)
                else ret tt
            | None => set (setCurrentChapterIndex 0)
            end ;;;
            set (setSidebarOpen false) ;;;
            refreshLibrary
        end)
       (fun _ => alert (js "打开书籍失败")))
    (setLoading false).

(** [handleDeleteBook], with the answer given to the confirmation. *)
Definition handleDeleteBook (id : jsstring) (confirmed : bool) : Task void :=
  if confirmed then
    set (setProgress (remove id)) ;;;
    set (setBookmarks (remove id)) ;;;
    onDatabase (deleteBookFromDB id) ;;;
    refreshLibrary
  else ret tt.

(** The button that goes back to the shelf. *)
Definition closeBook : Task void :=
  set (setBook None) ;;; set (setFullText None) ;;; refreshLibrary.

(** [handleUpdateProgress]: nothing without a book; reading the id of a
    chapter that is not there throws (the TypeError is the error of the
    rejection). *)
Definition handleUpdateProgress (percentage : float64) : Task void :=
  st <- read ;;
  match book st with
  | None => ret tt
  | Some b =>
      if currentChapterIndex st <? 0 then awaitPromise (Rejected HostError)
      else
        match nth_error (bookChapters b)
                        (Z.to_nat (currentChapterIndex st)) with
        | None => awaitPromise (Rejected HostError)
        | Some currentChapter =>
            set (setProgress
                   (assign (bookId (bookMetadata b))
                      (mkProgress (bookId (bookMetadata b))
                                  (id currentChapter)
                                  (title currentChapter)
                                  (currentChapterIndex st)
                                  (Z.of_nat (List.length (bookChapters b)))
                                  percentage)))
        end
  end.

(** [handleAddBookmark], for the bookmark that the reader hands over
    without [id] and [timestamp]. *)
Definition handleAddBookmark (chapter textSnippet : jsstring)
    (percentage : float64) : Task void :=
  st <- read ;;
  match book st with
  | None => ret tt
  | Some b =>
      idNow <- Date_now ;;
      stamp <- Date_now ;;
      let newBookmark :=
        mkBookmark (numberToString idNow) chapter textSnippet percentage
                   stamp in
      set (setBookmarks (fun prev =>
             assign (bookId (bookMetadata b))
                    (match lookup (bookId (bookMetadata b)) prev with
                     | Some list => list
                     | None => []
                     end ++ [newBookmark])
                    prev))
  end.

Definition handleDeleteBookmark (bookmark : jsstring) : Task void :=
  st <- read ;;
  match book st with
  | None => ret tt
  | Some b =>
      set (setBookmarks (fun prev =>
             let list :=
               match lookup (bookId (bookMetadata b)) prev with
               | Some list => list
               | None => []
               end in
             assign (bookId (bookMetadata b))
                    (filter (fun bm => negb (JS.eqb (bookmarkId bm) bookmark))
                            list)
                    prev))
  end.

(** The click on a bookmark of the side bar. *)
Definition openBookmark (bm : Bookmark) : Task void :=
  st <- read ;;
  match book st with
  | None => ret tt
  | Some b =>
      let chIdx :=
        findIndex (fun c => JS.eqb (id c) (chapterId bm)) (bookChapters b) in
      if chIdx >=? 0 then set (setCurrentChapterIndex chIdx) else ret tt
  end.

Definition handleAiSummarize (text : jsstring) : Task void :=
  set (setAiLoading true) ;;;
  set (setAiSummary None) ;;;
  summary <- (fun s =>
                let (p, requests) := summarizeChapter ai text in
                (p, mkSys (state s) (database s) (ticks s) (alerts s)
                          (sent s ++ requests))) ;;
  set (setAiSummary (Some summary)) ;;;
  set (setAiLoading false).

(** The buttons for the chapter before and the chapter after; each is
    rendered only while the book has such a chapter, and a button that is
    not rendered is not clicked. *)
Definition onPrevChapter : Task void :=
  st <- read ;;
  match book st with
  | None => ret tt
  | Some b =>
      if currentChapterIndex st >? 0
      then set (setCurrentChapterIndex (currentChapterIndex st - 1))
      else ret tt
  end.

Definition onNextChapter : Task void :=
  st <- read ;;
  match book st with
  | None => ret tt
  | Some b =>
      if currentChapterIndex st <? Z.of_nat (List.length (bookChapters b)) - 1
      then set (setCurrentChapterIndex (currentChapterIndex st + 1))
      else ret tt
  end.

(** The click on the entry [idx] of the table of contents, which has
    one entry per chapter; [narrow] tells whether the window is less than
    1024 wide. *)
Definition selectChapter (idx : nat) (narrow : bool) : Task void :=
  st <- read ;;
  match book st with
  | None => ret tt
  | Some b =>
      if (idx <? List.length (bookChapters b))%nat
      then
        set (setCurrentChapterIndex (Z.of_nat idx)) ;;;
        (if narrow then set (setSidebarOpen false) else ret tt)
      else ret tt
  end.

(** The scroll position that the reader starts a chapter at. *)
Definition initialScrollPercentage (st : AppState) (b : Book)
    (activeChapterData : Chapter) : float64 :=
  match lookup (bookId (bookMetadata b)) (progress st) with
  | Some saved =>
      if JS.eqb (currentChapterId saved) (id activeChapterData)
      then scrollPercentage saved
      else 0
  | None => 0
  end.

(** What the reader shows: [activeChapterData] on the state. *)
Definition shown (st : AppState) : View :=
  activeChapterData (option_map bookChapters (book st))
                    (currentChapterIndex st) (loadedText st).

End WithHost.

End Handlers.

Import Handlers.

(** * The vocabulary of the properties *)

(** ** Matches of a regular expression *)

(** [Matches input r x y]: the expression [r] can take the state [x] to
    the state [y].  It says what a match is, without the order in which
    the backtracking matcher tries the alternatives. *)
Fixpoint Matches (input : jsstring) (r : regex) (x y : MatchState) : Prop :=
  match r with
  | Empty => y = x
  | Char cs =>
      exists ch tl, rest x = ch :: tl /\ cs ch = true /\ y = advance x tl
  | Seq r1 r2 => exists m, Matches input r1 x m /\ Matches input r2 m y
  | Alt r1 r2 => Matches input r1 x y \/ Matches input r2 x y
  | Quant cs min max =>
      exists consumed,
        rest x = consumed ++ rest y
        /\ forallb cs consumed = true
        /\ (min <= List.length consumed)%nat
        /\ (forall m, max = Some m -> (List.length consumed <= m)%nat)
        /\ endIndex y = (endIndex x + List.length consumed)%nat
        /\ capture y = capture x
  | BOL => atLineStart input (endIndex x) = true /\ y = x
  | EOL => atLineEnd (rest x) = true /\ y = x
  | Group r1 =>
      exists m, Matches input r1 x m
                /\ y = mkState (endIndex m) (rest m)
                               (Some (endIndex x, endIndex m))
  end.

(** An expression without a capturing group. *)
Fixpoint noGroup (r : regex) : bool :=
  match r with
  | Seq r1 r2 | Alt r1 r2 => noGroup r1 && noGroup r2
  | Group _ => false
  | _ => true
  end.

(** A quantifier [{min,max}] is well formed when [min <= max]. *)
Fixpoint wellFormed (r : regex) : bool :=
  match r with
  | Seq r1 r2 | Alt r1 r2 => wellFormed r1 && wellFormed r2
  | Quant _ min (Some max) => (min <=? max)%nat
  | Group r1 => wellFormed r1
  | _ => true
  end.

(** A unit that starts a heading marker: a letter or digit of ASCII, or a
    CJK ideograph. *)
Definition headUnit (a : Z) : bool :=
  ((48 <=? a) && (a <=? 57)) || ((65 <=? a) && (a <=? 90))
  || ((97 <=? a) && (a <=? 122)) || ((19968 <=? a) && (a <=? 40959)).

(** Every match of [r] consumes at least one unit, and the first one is
    not white space. *)
Definition StartsNonSpace (input : jsstring) (r : regex) : Prop :=
  forall x y,
    Matches input r x y ->
    exists c g,
      rest x = (c :: g) ++ rest y
      /\ isWhiteSpace c = false
      /\ endIndex y = (endIndex x + S (List.length g))%nat.

(** ** The matches and the points of PASS 1 *)

(** The start of the title of a match, as PASS 1 computes it. *)
Definition titleStart (m : MatchResult) : Z :=
  match m1 m with
  | Some group1 => index m + indexOf (m0 m) group1
  | None => index m - 1
  end.

(** What [exec] returns for a match found at [j]. *)
Definition resultAt (text : jsstring) (j : nat) (y : MatchState)
    : MatchResult :=
  mkMatch (Z.of_nat j)
          (slice text j (endIndex y))
          (option_map (fun ab => slice text (fst ab) (snd ab)) (capture y))
          (endIndex y).

(** The shape of a result of [exec] searching from [i]: found at [j], it
    is white space [pre], then group 1, which starts with a unit [c] that
    is not white space, then [post]; the next search starts after it. *)
Definition Shape (text : jsstring) (i : nat) (m : MatchResult) : Prop :=
  exists j pre c g post tail,
    (i <= j)%nat
    /\ skipn j text = (pre ++ (c :: g) ++ post) ++ tail
    /\ index m = Z.of_nat j
    /\ m0 m = pre ++ (c :: g) ++ post
    /\ m1 m = Some (c :: g)
    /\ forallb isWhiteSpace pre = true
    /\ isWhiteSpace c = false
    /\ lastIndex m
       = (j + List.length pre + S (List.length g) + List.length post)%nat
    /\ (lastIndex m <= List.length text)%nat.

(** The matches that the loop of PASS 1 goes through, from [lastIndex]
    on: each search starts where the previous match ended, and the loop
    ends at the first search that finds nothing. *)
Inductive MatchSeq (text : jsstring) : nat -> list MatchResult -> Prop :=
| MatchSeq_done li :
    exec chapterRegex text li = None -> MatchSeq text li []
| MatchSeq_next li m ms :
    exec chapterRegex text li = Some m ->
    MatchSeq text (lastIndex m) ms ->
    MatchSeq text li (m :: ms).

(** The strict filter of PASS 1 on a trimmed title. *)
Definition rejectedTitle (titleLine : jsstring) : bool :=
  test invalidTitleChars titleLine
  || (len titleLine >? 50) || (len titleLine =? 0).

(** The point a match is promoted to, when its title passes the filter. *)
Definition pointOf (m : MatchResult) : option ChapterPoint :=
  match m1 m with
  | Some group1 =>
      if rejectedTitle (trim group1) then None
      else Some (mkPoint (trim group1) (titleStart m))
  | None => None
  end.

(** The points of a sequence of matches, in order. *)
Fixpoint promoted (ms : list MatchResult) : list ChapterPoint :=
  match ms with
  | [] => []
  | m :: ms' =>
      match pointOf m with
      | Some p => p :: promoted ms'
      | None => promoted ms'
      end
  end.

(** Points whose starts grow strictly from [lo] on and stay below [hi]. *)
Fixpoint chain (lo hi : Z) (points : list ChapterPoint) : Prop :=
  match points with
  | [] => lo <= hi
  | p :: points' => lo <= startIndex p /\ chain (startIndex p + 1) hi points'
  end.

(** The text at a point's offset is the point's title. *)
Definition titleAt (text : jsstring) (p : ChapterPoint) : Prop :=
  substring text (startIndex p) (startIndex p + len (pointTitle p))
  = pointTitle p.

(** ** Ranges of chapters *)

Definition firstStart (chs : list Chapter) : option Z :=
  match chs with
  | ch :: _ => startStringIndex ch
  | [] => None
  end.

Definition lastEnd (chs : list Chapter) : option Z :=
  last (List.map endStringIndex chs) None.

(** Each chapter ends where the next one starts. *)
Fixpoint contiguous (chs : list Chapter) : Prop :=
  match chs with
  | a :: chs' =>
      match chs' with
      | b :: _ => endStringIndex a = startStringIndex b
      | [] => True
      end /\ contiguous chs'
  | [] => True
  end.

(** A chapter with both offsets, [lo <= start <= end <= hi], and
    [start < end] when [strict] holds. *)
Definition ranged (lo hi : Z) (strict : Prop) (ch : Chapter) : Prop :=
  exists s e,
    startStringIndex ch = Some s /\ endStringIndex ch = Some e
    /\ lo <= s <= e /\ e <= hi /\ (strict -> s < e).

(** Exact coverage as the specification words it: contiguous ranges, the
    first from 0, the last to the length of the text, none empty. *)
Definition coversExactly (text : jsstring) (chs : list Chapter) : Prop :=
  firstStart chs = Some 0
  /\ lastEnd chs = Some (len text)
  /\ contiguous chs
  /\ Forall (ranged 0 (len text) True) chs.

(** ** The two kinds of chapter *)

(** A chapter of a structured format: content and no offsets. *)
Definition structured (ch : Chapter) : Prop :=
  content ch <> None
  /\ startStringIndex ch = None /\ endStringIndex ch = None.

(** A chapter of the plain-text path: offsets and no content. *)
Definition lazy (ch : Chapter) : Prop :=
  content ch = None
  /\ startStringIndex ch <> None /\ endStringIndex ch <> None.

Definition exclusive (ch : Chapter) : Prop := structured ch \/ lazy ch.

(** A spine item whose load gives a document. *)
Definition loaded (item : SpineItem) : bool :=
  match load item with Some _ => true | None => false end.

(** ** The lazy view *)

(** The slice of the full text that a chapter's offsets select. *)
Definition sliceOf (chapter : Chapter) (fullText : jsstring) (start : Z)
    : jsstring :=
  substring fullText start
            (match endStringIndex chapter with
             | Some e => e
             | None => len fullText
             end).

(** The display form of a raw text: one paragraph per line. *)
Definition display (raw : jsstring) : jsstring :=
  join (List.map paragraph (split 10 raw)).

(** The first newline-delimited line of a text. *)
Definition firstLineOf (s : jsstring) : jsstring := hd [] (split 10 s).

(** Pieces put together with the separator between them. *)
Fixpoint joinWith (sep : Z) (pieces : list jsstring) : jsstring :=
  match pieces with
  | [] => []
  | piece :: pieces' =>
      match pieces' with
      | [] => piece
      | _ :: _ => piece ++ sep :: joinWith sep pieces'
      end
  end.

(** A chapter that is shown from the full text: no content of its own, a
    start offset, and a full text that is loaded and not empty. *)
Definition shownLazily (chapter : Chapter) (fullText : jsstring) (start : Z)
    : Prop :=
  (content chapter = None \/ content chapter = Some [])
  /\ startStringIndex chapter = Some start
  /\ fullText <> [].

(** The first line and the title contain one another once trimmed. *)
Definition repeatsTitle (chapter : Chapter) (line : jsstring) : bool :=
  includes (trim line) (trim (title chapter))
  || includes (trim (title chapter)) (trim line).

(** ** Sample inputs *)

Definition nl : jsstring := [10].

(** Scenario A of the specification: two headings, no leading prose. *)
Definition scenarioText : jsstring :=
  js "第一章 开端" ++ nl ++ js "内容A" ++ nl ++ js "第二章 发展" ++ nl ++ js "内容B".

Definition scenarioFirst : Chapter :=
  mkChapter (js "chap-0") (js "第一章 开端") None 0 (Some 0) (Some 11).

Definition scenarioSecond : Chapter :=
  mkChapter (js "chap-1") (js "第二章 发展") None 1 (Some 11) (Some 21).

(** A book whose first heading comes after a title line of two units. *)
Definition bookWithTitleLine : jsstring :=
  js "书名" ++ nl ++ js "第一章 开端" ++ nl ++ js "内容".

(** The line of scenario C of the specification. *)
Definition questionLine : jsstring := js "第1章，真的吗？".

(** A book that ends with a heading line. *)
Definition afterwordBook : jsstring :=
  js "第一章" ++ nl ++ js "内容" ++ nl ++ js "后记".

Definition afterword : Chapter :=
  mkChapter (js "chap-1") (js "后记") None 1 (Some 7) (Some 9).

(** A chapter with an empty line in it. *)
Definition blankLineText : jsstring :=
  js "Chapter 1" ++ nl ++ js "line one" ++ nl ++ nl ++ js "line two".

Definition blankLineChapter : Chapter :=
  mkChapter (js "chap-0") (js "Chapter 1") None 0 (Some 0) (Some 28).

(** A text that starts with an empty line and has sixty units of prose
    before its first heading. *)
Definition blankStartText : jsstring :=
  nl ++ List.repeat 97 60 ++ nl ++ js "Chapter 1" ++ nl ++ js "x".

(** A text whose first heading stands after sixty spaces on the first
    line. *)
Definition indentedHeadingText : jsstring :=
  List.repeat 32 60 ++ js "Chapter 1" ++ nl ++ js "x".

(** A host whose reads load the bytes they are given and whose e-book
    reader opens [book]; nothing else is installed. *)
Definition epubHost (book : EpubBook) : Host :=
  mkHost (fun blob => OnLoad (Some blob)) None (fun _ => None) None
         (Some (fun _ => Some book)).

(** An e-book whose only spine item fails to load. *)
Definition brokenBook : EpubBook :=
  mkBook [mkItem (js "ch1.xhtml") None] [] None.

(** An e-book whose first item fails to load and whose second loads. *)
Definition twoItemBook : EpubBook :=
  mkBook [ mkItem (js "a.xhtml") None;
           mkItem (js "b.xhtml") (Some (DocWithBody (js "<h1>B</h1>"))) ]
         [ mkToc (js "b.xhtml#top") (js "Part B") ]
         (Some (js "My Book")).

(** A host for plain text: reads load their bytes, the classifier is
    missing, and the decoder turns each byte into one unit. *)
Definition txtHost : Host :=
  mkHost (fun blob => OnLoad (Some blob)) None
         (fun _ => Some (List.map fromCharCode)) None None.

Definition twoChapterFile : File :=
  mkFile (js "novel.txt")
         (js "Chapter 1" ++ nl ++ js "one" ++ nl ++ js "Chapter 2" ++ nl ++ js "two").

Definition twoChapterResult : ParseResult :=
  mkResult (js "novel")
           [ mkChapter (js "chap-0") (js "Chapter 1") None 0 (Some 0) (Some 14);
             mkChapter (js "chap-1") (js "Chapter 2") None 1 (Some 14) (Some 27) ]
           (Some (bytes twoChapterFile)).

(** ** Chapters without content and without offsets *)

(** What the e-book loop takes as the content of a document that
    loaded: the markup of its body, the document itself when it is a
    string, and the empty string otherwise. *)
Definition docContent (doc : Doc) : jsstring :=
  match doc with
  | DocWithBody innerHTML => innerHTML
  | DocString s => s
  | DocOther => []
  end.

(** The documents of the spine items that load, in spine order. *)
Definition loadedDocs (items : list SpineItem) : list Doc :=
  flat_map (fun item => match load item with
                        | Some doc => [doc]
                        | None => []
                        end) items.

(** A chapter that has neither strategy: its content is the empty
    string, which the view takes as no content, and it has no offsets. *)
Definition neither (ch : Chapter) : Prop :=
  content ch = Some []
  /\ startStringIndex ch = None /\ endStringIndex ch = None.

(** An e-book whose first document has no body and is no string. *)
Definition bodilessBook : EpubBook :=
  mkBook [ mkItem (js "cover.xhtml") (Some DocOther);
           mkItem (js "ch1.xhtml") (Some (DocWithBody (js "<p>one</p>"))) ]
         [] None.

(** A host for rich text whose converter gives the empty string. *)
Definition emptyDocxHost : Host :=
  mkHost (fun blob => OnLoad (Some blob)) None (fun _ => None)
         (Some (fun _ => Some [])) None.

(** ** The text of the summary *)

(** The scanner that the expression of the summary button amounts to:
    outside a tag a [<] opens one and every other unit is kept; inside a
    tag every unit is dropped and a [>] closes it. *)
Fixpoint stripScan (inTag : bool) (s : jsstring) : jsstring :=
  match s with
  | [] => []
  | c :: s' =>
      if inTag then stripScan (negb (isGt c)) s'
      else if isLt c then stripScan true s'
      else c :: stripScan false s'
  end.

(** What is left of [s] after its longest prefix of units in [cs]. *)
Fixpoint skipRun (cs : Z -> bool) (s : jsstring) : jsstring :=
  match s with
  | c :: s' => if cs c then skipRun cs s' else s
  | [] => []
  end.

(** What is left after a tag whose [<] has been read. *)
Definition afterTag (s : jsstring) : jsstring :=
  match skipRun (fun c => negb (isGt c)) s with
  | _ :: s' => s'
  | [] => []
  end.

(** ** Chapters that start with their heading *)

(** A point whose title is the trimmed form of a group that stands in
    the text at the point's offset, starts with a unit that is not white
    space, and ends at or before [bound]. *)
Definition Headed (text : jsstring) (bound : Z) (p : ChapterPoint) : Prop :=
  exists c g tail,
    skipn (Z.to_nat (startIndex p)) text = (c :: g) ++ tail
    /\ isWhiteSpace c = false
    /\ pointTitle p = trim (c :: g)
    /\ 0 <= startIndex p
    /\ startIndex p + len (c :: g) <= bound.

(** Every point is headed, up to the start of the next one or to [hi]. *)
Fixpoint headedChain (text : jsstring) (hi : Z) (points : list ChapterPoint)
    : Prop :=
  match points with
  | [] => True
  | p :: points' =>
      Headed text (match points' with
                   | q :: _ => startIndex q
                   | [] => hi
                   end) p
      /\ headedChain text hi points'
  end.

(** A chapter of the plain-text path that starts with the group its
    title was trimmed from. *)
Definition HeadedChapter (text : jsstring) (ch : Chapter) : Prop :=
  exists s e c g tail,
    startStringIndex ch = Some s /\ endStringIndex ch = Some e
    /\ content ch = None
    /\ skipn (Z.to_nat s) text = (c :: g) ++ tail
    /\ isWhiteSpace c = false
    /\ title ch = trim (c :: g)
    /\ 0 <= s /\ s + len (c :: g) <= e /\ e <= len text.

(** ** Numerals and chapter ids *)

(** The units of a decimal numeral: the digits and the minus sign. *)
Definition numeralUnit (c : Z) : bool := (c =? 45) || ((48 <=? c) && (c <=? 57)).

(** The bytes of a literal. *)
Definition codes (s : string) : list Z :=
  List.map (fun a => Z.of_N (N_of_ascii a)) (list_ascii_of_string s).

(** The id of the chapter that is [i] places after the chapter numbered
    [k]. *)
Definition chapId (k : Z) (i : nat) : jsstring :=
  js "chap-" ++ numberToString (k + Z.of_nat i).

(** ** The library store and the state of the application *)

(** A database that opens and whose requests all succeed. *)
Definition healthy (db : Database) : Prop :=
  opens db = true /\ forall r, fails db r = false.

(** The bookmarks kept for a book. *)
Definition bookmarksOf (id : jsstring) (st : AppState) : list Bookmark :=
  match lookup id (bookmarks st) with
  | Some list => list
  | None => []
  end.

(** The index that opening a book leaves, from the progress saved for
    it, its chapters and the index before. *)
Definition restoredIndex (saved : option ReadingProgress)
    (chs : list Chapter) (previous : Z) : Z :=
  match saved with
  | Some p =>
      let index := findIndex (fun c => JS.eqb (id c) (currentChapterId p)) chs in
      if index >=? 0 then index else previous
  | None => 0
  end.

(** The records of a store are in the strict order of their keys. *)
Definition keyOrdered (rs : list LibraryBook) : Prop :=
  StronglySorted (fun a b => keyLt (key a) (key b) = true) rs.

(** A file that the parser accepts. *)
Definition parses (host : Host) (file : File) : bool :=
  match parseFile host file with
  | Resolved _ => true
  | _ => false
  end.

(** The record that an import keeps of a file: under the id made of
    the file's name and size, with the file's bytes and what the parser
    found. *)
Definition recordOf (file : File) (data : ParseResult) (r : LibraryBook)
    : Prop :=
  key r = bookIdOf file
  /\ blob r = bytes file
  /\ bookId (metadata r) = bookIdOf file
  /\ bookTitle (metadata r) = resultTitle data
  /\ fileName (metadata r) = name file
  /\ totalChapters (metadata r) = Z.of_nat (List.length (chapters data))
  /\ lastReadTimestamp (metadata r) <> None.

(** The store holds its records in the order of their keys, and the
    shelf shows no key twice. *)
Definition shelfInvariant (s : Sys) : Prop :=
  keyOrdered (records (database s))
  /\ NoDup (List.map key (library (state s))).

(** A handler that keeps the invariant of the shelf, however it ends. *)
Definition keepsShelf {A : Type} (m : Task A) : Prop :=
  forall s, shelfInvariant s -> shelfInvariant (snd (m s)).

(** ** Sample states of the application *)

(** A clock that reads 2000 first and gains one at each reading. *)
Definition sampleClock (n : nat) : Z := 2000 + Z.of_nat n.

(** The record that an import of [twoChapterFile] at time 1000 keeps. *)
Definition novelRecord : LibraryBook :=
  mkLibraryBook (js "novel.txt-27") (bytes twoChapterFile)
    (mkMetadata (js "novel.txt-27") (js "novel") (js "novel.txt") (js "txt")
                (Some 1000) 2)
    1001.

(** A record that was read later than [novelRecord]. *)
Definition essayRecord : LibraryBook :=
  mkLibraryBook (js "essay.txt-3") [104; 105; 10]
    (mkMetadata (js "essay.txt-3") (js "essay") (js "essay.txt") (js "txt")
                (Some 1500) 1)
    1200.

Definition sampleDatabase : Database :=
  mkDatabase true (fun _ => false) [essayRecord; novelRecord].

Definition novelBook : Book :=
  mkOpenBook (metadata novelRecord) (chapters twoChapterResult).

(** The shelf, with no book open. *)
Definition shelfState : AppState :=
  mkApp None None 0 [] [] [essayRecord; novelRecord] false true None false.

(** The second chapter of the novel on the screen. *)
Definition readingState : AppState :=
  mkApp (Some novelBook) (fullText twoChapterResult) 1 [] []
          [essayRecord; novelRecord] false false None false.

Definition readingSys : Sys := mkSys readingState sampleDatabase 0 [] [].

(** The shelf after an essay of one chapter was read to its fifth
    chapter under the id of the novel. *)
Definition staleSys : Sys :=
  mkSys (mkApp None None 5
           [(js "novel.txt-27",
             mkProgress (js "novel.txt-27") (js "chap-9") (js "Chapter 10")
                        9 12 0)]
           [] [essayRecord; novelRecord] false true None false)
        sampleDatabase 0 [] [].

(** A host whose reads of a file end in an error, with the library for
    documents loaded. *)
Definition unreadableHost : Host :=
  mkHost (fun _ => OnError) None (fun _ => None)
         (Some (fun _ => Some (js "<p>text</p>"))) None.

Definition reportRecord : LibraryBook :=
  mkLibraryBook (js "report.docx-2") [80; 75]
    (mkMetadata (js "report.docx-2") (js "report") (js "report.docx")
                (js "docx") (Some 1000) 1)
    1000.

Definition reportSys : Sys :=
  mkSys shelfState (mkDatabase true (fun _ => false) [reportRecord]) 0 [] [].

(** The index of the state is the index of a chapter of the open
    book. *)
Definition chapterInRange (st : AppState) : Prop :=
  match book st with
  | Some b =>
      0 <= currentChapterIndex st < Z.of_nat (List.length (bookChapters b))
  | None => True
  end.

(** * Properties *)

(** ** Examples of the string primitives *)

Example js_ascii : js "chap-0" = [99; 104; 97; 112; 45; 48].
Proof. reflexivity. Qed.

Example js_cjk : js "第1章，“" = [31532; 49; 31456; 65292; 8220].
Proof. reflexivity. Qed.

Example numberToString_12 : numberToString 12 = js "12".
Proof. reflexivity. Qed.

Example numberToString_0 : numberToString 0 = js "0".
Proof. reflexivity. Qed.

(** The units of the numerals and of the unit words of the pattern. *)
Example js_numerals :
  js "零一二三四五六七八九十百千两"
  = [38646; 19968; 20108; 19977; 22235; 20116; 20845; 19971; 20843; 20061;
     21313; 30334; 21315; 20004].
Proof. reflexivity. Qed.

Example js_unit_words :
  js "章回节卷集部篇" = [31456; 22238; 33410; 21367; 38598; 37096; 31687].
Proof. reflexivity. Qed.

Example split_keeps_empty :
  split 10 (js "a" ++ [10; 10] ++ js "b") = [js "a"; []; js "b"].
Proof. reflexivity. Qed.

(** Scenario A of the specification. *)
Example scenario_A :
  parseTxtContentOptimized scenarioText = Some [scenarioFirst; scenarioSecond].
Proof. vm_compute. reflexivity. Qed.

Example blankLineChapter_parsed :
  parseTxtContentOptimized blankLineText = Some [blankLineChapter].
Proof. vm_compute. reflexivity. Qed.

(** Scenario B of the specification: eighty units of prose and a line
    feed before the first of two headings give three chapters, the first
    a leading chapter up to the first heading. *)
Example scenario_B :
  parseTxtContentOptimized
    (List.repeat 97 80 ++ nl ++ js "Chapter 1" ++ nl ++ js "one" ++ nl
     ++ js "Chapter 2" ++ nl ++ js "two")
  = Some [ prologue 81;
           mkChapter (js "chap-1") (js "Chapter 1") None 1 (Some 81) (Some 95);
           mkChapter (js "chap-2") (js "Chapter 2") None 2 (Some 95) (Some 108) ].
Proof. vm_compute. reflexivity. Qed.

(** ** Facts about the string primitives *)

Module JSFacts.

Lemma firstn_length_app (A : Type) (l r : list A) :
  firstn (List.length l) (l ++ r) = l.
Proof. induction l; simpl; congruence. Qed.

Lemma skipn_length_app (A : Type) (l r : list A) :
  skipn (List.length l) (l ++ r) = r.
Proof. induction l; simpl; congruence. Qed.

Lemma skipn_step (A : Type) (l : list A) :
  forall i a s, skipn i l = a :: s -> skipn (S i) l = s.
Proof.
  induction l as [|b l IH]; intros [|i] a s H; simpl in *;
    try discriminate.
  - now injection H as _ ->.
  - destruct l; [destruct i; discriminate|]. eauto.
Qed.

Lemma skipn_cons_length (A : Type) (l : list A) :
  forall i a s, skipn i l = a :: s -> (i < List.length l)%nat.
Proof.
  intros i a s H.
  destruct (Nat.lt_ge_cases i (List.length l)) as [|Hge]; [assumption|].
  rewrite (skipn_all2 l Hge) in H. discriminate.
Qed.

Lemma startsWith_app s r : startsWith (s ++ r) s = true.
Proof.
  induction s as [|c s IH]; simpl; [reflexivity|].
  now rewrite Z.eqb_refl.
Qed.

Lemma len_app s t : len (s ++ t) = len s + len t.
Proof. unfold len. rewrite length_app. lia. Qed.

Lemma len_nonneg s : 0 <= len s.
Proof. unfold len. lia. Qed.

Lemma substring_spec s a b :
  0 <= a <= b -> b <= len s ->
  substring s a b = firstn (Z.to_nat (b - a)) (skipn (Z.to_nat a) s).
Proof.
  intros Hab Hb. unfold substring, clamp. cbv zeta.
  f_equal; [f_equal | do 2 f_equal]; lia.
Qed.

Lemma substring_prefix l r : substring (l ++ r) 0 (len l) = l.
Proof.
  rewrite substring_spec.
  - rewrite Z.sub_0_r. unfold len. rewrite Nat2Z.id. cbn [Z.to_nat skipn].
    apply firstn_length_app.
  - pose proof (len_nonneg l). lia.
  - rewrite len_app. pose proof (len_nonneg r). lia.
Qed.

Lemma substringFrom_suffix l c r :
  substringFrom (l ++ c :: r) (len l + 1) = r.
Proof.
  unfold substringFrom.
  pose proof (len_nonneg l). pose proof (len_nonneg r).
  assert (Hlen : len (l ++ c :: r) = len l + 1 + len r).
  { rewrite len_app. unfold len. cbn [List.length]. lia. }
  rewrite substring_spec by lia.
  replace (Z.to_nat (len l + 1)) with (List.length (l ++ [c]))
    by (rewrite length_app; unfold len; cbn [List.length]; lia).
  replace (l ++ c :: r) with ((l ++ [c]) ++ r)
    by (rewrite <- app_assoc; reflexivity).
  rewrite skipn_length_app.
  replace (Z.to_nat (len ((l ++ [c]) ++ r) - (len l + 1))) with (List.length r).
  - rewrite <- (app_nil_r r) at 2. apply firstn_length_app.
  - rewrite <- app_assoc. cbn [app]. rewrite Hlen. unfold len. lia.
Qed.

Lemma indexOfFrom_unit c s :
  forall k,
    indexOfFrom s [c] k
    = match s with
      | [] => -1
      | d :: s' => if d =? c then k else indexOfFrom s' [c] (k + 1)
      end.
Proof.
  intros k. destruct s as [|d s']; cbn [indexOfFrom startsWith]; [reflexivity|].
  now rewrite andb_true_r.
Qed.

Lemma indexOf_first_break l r :
  ~ In 10 l -> indexOf (l ++ 10 :: r) [10] = len l.
Proof.
  intros Hl. unfold indexOf, len.
  enough (H : forall k, indexOfFrom (l ++ 10 :: r) [10] k
                        = k + Z.of_nat (List.length l))
    by (rewrite H; lia).
  induction l as [|d l IH]; intros k; rewrite indexOfFrom_unit; cbn [app].
  - rewrite Z.eqb_refl. cbn [List.length]. lia.
  - assert (Hd : (d =? 10) = false)
      by (apply Z.eqb_neq; intros ->; apply Hl; now left).
    rewrite Hd, IH by (intros Hin; apply Hl; now right).
    cbn [List.length]. lia.
Qed.

Lemma indexOf_no_break s : ~ In 10 s -> indexOf s [10] = -1.
Proof.
  intros Hs. unfold indexOf. generalize 0.
  induction s as [|d s IH]; intros k; rewrite indexOfFrom_unit; [reflexivity|].
  assert (Hd : (d =? 10) = false)
    by (apply Z.eqb_neq; intros ->; apply Hs; now left).
  rewrite Hd. apply IH. intros Hin. apply Hs. now right.
Qed.

Lemma includes_empty s : includes s [] = true.
Proof. unfold includes, indexOf. destruct s; reflexivity. Qed.

(** [split] gives the newline-delimited lines: none holds the separator,
    put together with the separator they give the text back, and there is
    one more of them than there are separators. *)
Lemma split_joinWith sep s : joinWith sep (split sep s) = s.
Proof.
  induction s as [|c s IH]; [reflexivity|]. cbn [split].
  destruct (Z.eqb_spec c sep) as [->|Hc].
  - cbn [joinWith]. destruct (split sep s) as [|p ps] eqn:E.
    + destruct s as [|d s]; cbn in E; [discriminate|].
      destruct (d =? sep); [discriminate | destruct (split sep s); discriminate].
    + rewrite <- IH. reflexivity.
  - destruct (split sep s) as [|p ps] eqn:E.
    + destruct s as [|d s]; cbn in E; [discriminate|].
      destruct (d =? sep); [discriminate | destruct (split sep s); discriminate].
    + rewrite <- IH. cbn [joinWith]. destruct ps; reflexivity.
Qed.

Lemma split_no_sep sep s : Forall (fun piece => ~ In sep piece) (split sep s).
Proof.
  induction s as [|c s IH]; cbn [split].
  - constructor; [intros []|constructor].
  - destruct (Z.eqb_spec c sep) as [->|Hc].
    + constructor; [intros []|exact IH].
    + destruct (split sep s) as [|p ps].
      * constructor; [|constructor]. intros [H|[]]. congruence.
      * inversion IH as [|? ? Hp Hps]; subst. constructor; [|exact Hps].
        intros [H|H]; [congruence | now apply Hp].
Qed.

Lemma split_length sep s :
  List.length (split sep s) = S (count_occ Z.eq_dec s sep).
Proof.
  induction s as [|c s IH]; [reflexivity|]. cbn [split count_occ].
  destruct (Z.eqb_spec c sep) as [->|Hc].
  - destruct (Z.eq_dec sep sep); [|congruence]. cbn [List.length]. now rewrite IH.
  - destruct (Z.eq_dec c sep); [congruence|].
    destruct (split sep s) as [|p ps]; [cbn in IH; lia | exact IH].
Qed.

Lemma trimStart_suffix s :
  exists pre, s = pre ++ trimStart s /\ forallb isWhiteSpace pre = true.
Proof.
  induction s as [|c s (pre & IH & Hpre)]; [now exists []|].
  cbn [trimStart]. destruct (isWhiteSpace c) eqn:Hc.
  - exists (c :: pre). cbn. now rewrite Hc, Hpre, <- IH.
  - now exists [].
Qed.

(** A string that starts with a unit that is not white space is its
    trimmed form followed by the white space trimmed off its end. *)
Lemma trim_head c g :
  isWhiteSpace c = false -> exists w, c :: g = trim (c :: g) ++ w.
Proof.
  intros Hc. unfold trim. cbn [trimStart]. rewrite Hc. unfold trimEnd.
  destruct (trimStart_suffix (rev (c :: g))) as (pre & Hrev & _).
  exists (rev pre).
  rewrite <- rev_app_distr, <- Hrev. symmetry. apply rev_involutive.
Qed.

End JSFacts.

Import JSFacts.

(** ** What a successful match looks like

    [Matches input r x y]: the expression [r] can take the state [x] to
    the state [y].  Every result of the backtracking matcher is such a
    pair, with the continuation run on [y]. *)

Module RegExpFacts.

Lemma repeatMatcher_sound cs c z :
  forall s min max e cap,
    (forall m, max = Some m -> (min <= m)%nat) ->
    repeatMatcher cs min max s e cap c = Some z ->
    exists consumed tl,
      s = consumed ++ tl
      /\ forallb cs consumed = true
      /\ (min <= List.length consumed)%nat
      /\ (forall m, max = Some m -> (List.length consumed <= m)%nat)
      /\ c (mkState (e + List.length consumed) tl cap) = Some z.
Proof.
  assert (Hstop : forall s e cap (max : option nat),
             c (mkState e s cap) = Some z ->
             exists consumed tl,
               s = consumed ++ tl /\ forallb cs consumed = true
               /\ (0 <= List.length consumed)%nat
               /\ (forall m, max = Some m -> (List.length consumed <= m)%nat)
               /\ c (mkState (e + List.length consumed) tl cap) = Some z).
  { intros s e cap max H. exists [], s. simpl.
    rewrite Nat.add_0_r. repeat split; auto; intros; lia. }
  induction s as [|ch tl IH]; intros min max e cap Hwf H.
  - destruct max as [[|m]|]; simpl in H.
    + assert (min = 0%nat) as -> by (specialize (Hwf _ eq_refl); lia). eauto.
    + destruct min; [eauto | discriminate].
    + destruct min; [eauto | discriminate].
  - assert (Hmore : repeatMatcher cs (Nat.pred min) (option_map Nat.pred max)
                      tl (S e) cap c = Some z ->
                    cs ch = true ->
                    max <> Some 0%nat ->
                    exists consumed tl0,
                      ch :: tl = consumed ++ tl0
                      /\ forallb cs consumed = true
                      /\ (min <= List.length consumed)%nat
                      /\ (forall m, max = Some m ->
                                    (List.length consumed <= m)%nat)
                      /\ c (mkState (e + List.length consumed) tl0 cap)
                         = Some z).
    { intros Hz Hch Hmax. apply IH in Hz.
      - destruct Hz as (consumed & tl0 & -> & Hall & Hmin & Hmx & Hc).
        exists (ch :: consumed), tl0. simpl. rewrite Hch, Hall.
        replace (e + S (List.length consumed))%nat
          with (S e + List.length consumed)%nat by lia.
        repeat split; auto; try lia.
        intros m ->. destruct m; [congruence|].
        specialize (Hmx m eq_refl). lia.
      - intros m Hm. destruct max as [mx|]; [|discriminate].
        simpl in Hm. injection Hm as <-.
        specialize (Hwf _ eq_refl). lia. }
    assert (Hbody :
              (if cs ch
               then match min with
                    | S _ => repeatMatcher cs (Nat.pred min)
                               (option_map Nat.pred max) tl (S e) cap c
                    | O => match repeatMatcher cs (Nat.pred min)
                                   (option_map Nat.pred max) tl (S e) cap c with
                           | Some r => Some r
                           | None => c (mkState e (ch :: tl) cap)
                           end
                    end
               else match min with
                    | O => c (mkState e (ch :: tl) cap)
                    | S _ => None
                    end) = Some z ->
              max <> Some 0%nat ->
              exists consumed tl0,
                ch :: tl = consumed ++ tl0
                /\ forallb cs consumed = true
                /\ (min <= List.length consumed)%nat
                /\ (forall m, max = Some m -> (List.length consumed <= m)%nat)
                /\ c (mkState (e + List.length consumed) tl0 cap) = Some z).
    { intros Hb Hmax. destruct (cs ch) eqn:Hch.
      - destruct min as [|min'].
        + destruct (repeatMatcher cs (Nat.pred 0) (option_map Nat.pred max)
                      tl (S e) cap c) as [r|] eqn:Hr.
          * injection Hb as ->. apply Hmore; auto.
          * eauto.
        + apply Hmore; auto.
      - destruct min; [eauto | discriminate]. }
    destruct max as [[|m]|]; simpl in H.
    + assert (min = 0%nat) as -> by (specialize (Hwf _ eq_refl); lia). eauto.
    + apply Hbody; [exact H | discriminate].
    + apply Hbody; [exact H | discriminate].
Qed.

Lemma matcher_sound input r :
  wellFormed r = true ->
  forall x c z,
    matcher input r x c = Some z ->
    exists y, Matches input r x y /\ c y = Some z.
Proof.
  induction r as [|cs|r1 IH1 r2 IH2|r1 IH1 r2 IH2|cs min max| | |r1 IH1];
    simpl; intros Hwf x c z H.
  - eauto.
  - destruct (rest x) as [|ch tl] eqn:Hrest; [discriminate|].
    destruct (cs ch) eqn:Hch; [|discriminate].
    exists (advance x tl). split; [exists ch, tl|]; auto.
  - apply andb_prop in Hwf as [Hwf1 Hwf2].
    apply (IH1 Hwf1) in H as (m & Hm & H).
    apply (IH2 Hwf2) in H as (y & Hy & H). eauto.
  - apply andb_prop in Hwf as [Hwf1 Hwf2].
    destruct (matcher input r1 x c) as [z1|] eqn:H1.
    + injection H as ->. apply (IH1 Hwf1) in H1 as (y & Hy & H). eauto.
    + apply (IH2 Hwf2) in H as (y & Hy & H). eauto.
  - apply repeatMatcher_sound in H.
    + destruct H as (consumed & tl & Hs & Hall & Hmin & Hmax & H).
      exists (mkState (endIndex x + List.length consumed) tl (capture x)).
      split; [exists consumed; simpl|]; auto 10.
    + intros m ->. apply Nat.leb_le. exact Hwf.
  - destruct (atLineStart input (endIndex x)) eqn:Hb; [eauto | discriminate].
  - destruct (atLineEnd (rest x)) eqn:Hb; [eauto | discriminate].
  - apply (IH1 Hwf) in H as (m & Hm & H). eauto.
Qed.

(** A match consumes a prefix of the remaining input and moves the end
    index by its length. *)
Lemma Matches_span input r :
  forall x y,
    Matches input r x y ->
    exists consumed,
      rest x = consumed ++ rest y
      /\ endIndex y = (endIndex x + List.length consumed)%nat.
Proof.
  induction r as [|cs|r1 IH1 r2 IH2|r1 IH1 r2 IH2|cs min max| | |r1 IH1];
    simpl; intros x y H.
  - subst. exists []. split; [reflexivity | simpl; lia].
  - destruct H as (ch & tl & Hrest & _ & ->). exists [ch].
    simpl. split; [assumption | lia].
  - destruct H as (m & H1 & H2).
    apply IH1 in H1 as (c1 & Hr1 & He1). apply IH2 in H2 as (c2 & Hr2 & He2).
    exists (c1 ++ c2). rewrite <- app_assoc, <- Hr2, length_app.
    split; [assumption | lia].
  - destruct H as [H|H]; auto.
  - destruct H as (consumed & Hr & _ & _ & _ & He & _). eauto.
  - destruct H as [_ ->]. exists []. split; [reflexivity | simpl; lia].
  - destruct H as [_ ->]. exists []. split; [reflexivity | simpl; lia].
  - destruct H as (m & H & ->). simpl. auto.
Qed.

Lemma Matches_capture input r :
  noGroup r = true ->
  forall x y, Matches input r x y -> capture y = capture x.
Proof.
  induction r as [|cs|r1 IH1 r2 IH2|r1 IH1 r2 IH2|cs min max| | |r1 IH1];
    simpl; intros Hng x y H.
  - subst. reflexivity.
  - destruct H as (ch & tl & _ & _ & ->). reflexivity.
  - apply andb_prop in Hng as [Hn1 Hn2]. destruct H as (m & H1 & H2).
    rewrite (IH2 Hn2 _ _ H2). eauto.
  - apply andb_prop in Hng as [Hn1 Hn2]. destruct H as [H|H]; eauto.
  - destruct H as (consumed & _ & _ & _ & _ & _ & Hc). exact Hc.
  - destruct H as [_ ->]. reflexivity.
  - destruct H as [_ ->]. reflexivity.
  - discriminate.
Qed.

End RegExpFacts.

Import RegExpFacts.

(** ** The shape of a match of [chapterRegex] *)

Module ChapterRegexFacts.

Lemma nonspace_range c :
  33 <= c <= 159 \/ 161 <= c <= 5759 \/ 12289 <= c <= 65278 ->
  isWhiteSpace c = false.
Proof.
  intros H. unfold isWhiteSpace, isLineTerminator.
  repeat rewrite orb_false_iff. rewrite andb_false_iff.
  repeat split; try (apply Z.eqb_neq; lia).
  destruct (Z.leb_spec 8192 c); [right; apply Z.leb_gt; lia | now left].
Qed.

Lemma unit_cases a ch :
  unit a ch = true ->
  ch = a \/ (97 <= ch <= 122 /\ ch = a + 32) \/ (97 <= a <= 122 /\ ch = a - 32).
Proof.
  unfold unit, canonicalize. intros H.
  destruct ((97 <=? ch) && (ch <=? 122)) eqn:E1;
    destruct ((97 <=? a) && (a <=? 122)) eqn:E2;
    apply Z.eqb_eq in H;
    try (apply andb_prop in E1 as [E1 E1']; apply Z.leb_le in E1, E1');
    try (apply andb_prop in E2 as [E2 E2']; apply Z.leb_le in E2, E2');
    lia.
Qed.

Lemma unit_newline ch : unit 10 ch = true -> ch = 10.
Proof.
  unfold unit, canonicalize. simpl. intros H.
  destruct ((97 <=? ch) && (ch <=? 122)) eqn:E; apply Z.eqb_eq in H; [|lia].
  apply andb_prop in E as [E1 E2]. apply Z.leb_le in E1. lia.
Qed.

Lemma headUnit_nonspace a ch :
  headUnit a = true -> unit a ch = true -> isWhiteSpace ch = false.
Proof.
  unfold headUnit. intros Ha Hu. apply unit_cases in Hu.
  apply nonspace_range.
  repeat rewrite orb_true_iff in Ha. repeat rewrite andb_true_iff in Ha.
  repeat rewrite Z.leb_le in Ha. lia.
Qed.

Lemma digit_nonspace ch : digit ch = true -> isWhiteSpace ch = false.
Proof.
  unfold digit. intros H. apply andb_prop in H as [H1 H2].
  apply Z.leb_le in H1, H2. apply nonspace_range. lia.
Qed.

Section Heads.

Variable input : jsstring.

Lemma head_Char cs :
  (forall ch, cs ch = true -> isWhiteSpace ch = false) ->
  StartsNonSpace input (Char cs).
Proof.
  intros Hcs x y (ch & tl & Hrest & Hch & ->). exists ch, [].
  simpl. repeat split; auto. lia.
Qed.

Lemma head_Seq r1 r2 :
  StartsNonSpace input r1 -> StartsNonSpace input (Seq r1 r2).
Proof.
  intros H1 x y (m & Hm1 & Hm2).
  apply H1 in Hm1 as (c & g & Hr & Hc & He).
  apply Matches_span in Hm2 as (g2 & Hr2 & He2).
  exists c, (g ++ g2). rewrite Hr, Hr2, length_app. simpl.
  rewrite <- app_assoc. repeat split; auto. lia.
Qed.

Lemma head_Alt r1 r2 :
  StartsNonSpace input r1 -> StartsNonSpace input r2 ->
  StartsNonSpace input (Alt r1 r2).
Proof. intros H1 H2 x y [H|H]; auto. Qed.

Lemma head_lit w :
  match w with a :: _ => headUnit a | [] => false end = true ->
  StartsNonSpace input (lit w).
Proof.
  destruct w as [|a w]; [discriminate|]. intros Ha.
  change (lit (a :: w)) with (Seq (Char (unit a)) (lit w)).
  apply head_Seq, head_Char. intros ch. now apply headUnit_nonspace.
Qed.

Lemma head_plus_digit : StartsNonSpace input (plus digit).
Proof.
  intros x y (consumed & Hr & Hall & Hmin & _ & He & _).
  destruct consumed as [|c g]; [simpl in Hmin; lia|].
  simpl in Hall. apply andb_prop in Hall as [Hc _].
  exists c, g. repeat split; auto using digit_nonspace.
Qed.

Lemma head_marker : StartsNonSpace input marker.
Proof.
  unfold marker. cbn [alts seqs].
  repeat apply head_Alt;
    first [ apply head_lit; vm_compute; reflexivity
          | apply head_Seq;
            first [ apply head_lit; vm_compute; reflexivity
                  | apply head_plus_digit ] ].
Qed.

(** The shape of a whole match: white space, then group 1, which starts
    with a unit that is not white space, then what the final alternative
    consumes. *)
Lemma chapterRegex_shape x y :
  Matches input chapterRegex x y ->
  exists pre c g post,
    rest x = pre ++ (c :: g) ++ post ++ rest y
    /\ forallb isWhiteSpace pre = true
    /\ isWhiteSpace c = false
    /\ capture y = Some ((endIndex x + List.length pre)%nat,
                         (endIndex x + List.length pre + S (List.length g))%nat)
    /\ endIndex y
       = (endIndex x + List.length pre + S (List.length g) + List.length post)%nat.
Proof.
  unfold chapterRegex. cbn [seqs Matches].
  intros (m1 & Hstart & m2 & Hws & m3 & (m4 & (m5 & Hmark & Htail) & ->) & Hend).
  assert (Hpre1 : exists p1, rest x = p1 ++ rest m1
                             /\ forallb isWhiteSpace p1 = true
                             /\ endIndex m1 = (endIndex x + List.length p1)%nat).
  { destruct Hstart as [[_ ->] | (ch & tl & Hr & Hch & ->)].
    - exists []. simpl. repeat split; auto.
    - apply unit_newline in Hch. subst ch. exists [10]. simpl.
      repeat split; auto. lia. }
  destruct Hpre1 as (p1 & Hr1 & Hp1 & He1).
  destruct Hws as (p2 & Hr2 & Hp2 & _ & _ & He2 & _).
  apply head_marker in Hmark as (c & g1 & Hr3 & Hc & He3).
  destruct Htail as (g2 & Hr4 & _ & _ & _ & He4 & _).
  assert (Hpost : exists post, rest m4 = post ++ rest y
                               /\ endIndex y = (endIndex m4 + List.length post)%nat
                               /\ capture y = Some (endIndex m2, endIndex m4)).
  { destruct Hend as [(ch & tl & Hr & _ & ->) | [_ ->]]; simpl in *.
    - exists [ch]. simpl. repeat split; auto. lia.
    - exists []. simpl. repeat split; auto. }
  destruct Hpost as (post & Hr5 & He5 & Hcap).
  exists (p1 ++ p2), c, (g1 ++ g2), post.
  rewrite Hr1, Hr2, Hr3, Hr4, Hr5, forallb_app, Hp1, Hp2, Hcap, He5, He4, He3,
    He2, He1, !length_app.
  repeat split; auto.
  - simpl. rewrite <- !app_assoc. reflexivity.
  - f_equal. f_equal; lia.
  - lia.
Qed.

End Heads.

End ChapterRegexFacts.

(** ** The matches that PASS 1 sees *)

Module ScanFacts.

Import ChapterRegexFacts.

(** The title is found in the raw match right after the leading white
    space. *)
Lemma indexOf_after_space pre c g post :
  forallb isWhiteSpace pre = true ->
  isWhiteSpace c = false ->
  indexOf (pre ++ (c :: g) ++ post) (c :: g) = len pre.
Proof.
  intros Hpre Hc. unfold indexOf, len.
  enough (H : forall k, indexOfFrom (pre ++ (c :: g) ++ post) (c :: g) k
                        = k + Z.of_nat (List.length pre))
    by (rewrite H; lia).
  induction pre as [|w pre IH]; intros k.
  - cbn [app List.length indexOfFrom].
    change (c :: g ++ post) with ((c :: g) ++ post).
    rewrite startsWith_app. simpl. lia.
  - simpl in Hpre. apply andb_prop in Hpre as [Hw Hpre].
    cbn [app indexOfFrom startsWith].
    assert (Hwc : (w =? c) = false)
      by (apply Z.eqb_neq; intros ->; congruence).
    rewrite Hwc. simpl. rewrite (IH Hpre). cbn [List.length]. lia.
Qed.

Section Scan.

Variable text : jsstring.

Lemma match_at_shape i y :
  (i <= List.length text)%nat ->
  matcher text chapterRegex (mkState i (skipn i text) None) Some = Some y ->
  Shape text i (resultAt text i y).
Proof.
  intros Hi Hm.
  apply matcher_sound in Hm; [|reflexivity].
  destruct Hm as (y' & Hy & [= ->]).
  apply chapterRegex_shape in Hy.
  destruct Hy as (pre & c & g & post & Hr & Hpre & Hc & Hcap & He).
  cbn [rest endIndex] in Hr, Hcap, He.
  assert (Hr' : skipn i text = (pre ++ (c :: g) ++ post) ++ rest y)
    by (rewrite Hr, <- !app_assoc; reflexivity).
  exists i, pre, c, g, post, (rest y).
  unfold resultAt. cbn [index m0 m1 lastIndex].
  rewrite Hcap, He. cbn [option_map fst snd]. unfold slice.
  assert (Hlen : (List.length (skipn i text) = List.length text - i)%nat)
    by apply length_skipn.
  rewrite Hr in Hlen. repeat rewrite length_app in Hlen.
  cbn [List.length] in Hlen. repeat rewrite length_app in Hlen.
  split; [lia|]. split; [exact Hr'|]. split; [reflexivity|].
  split.
  { replace (i + List.length pre + S (List.length g) + List.length post - i)%nat
      with (List.length (pre ++ (c :: g) ++ post))
      by (rewrite !length_app; cbn [List.length]; lia).
    rewrite Hr'. apply firstn_length_app. }
  split.
  { f_equal.
    replace (i + List.length pre + S (List.length g) - (i + List.length pre))%nat
      with (List.length (c :: g)) by (cbn [List.length]; lia).
    rewrite (Nat.add_comm i), <- skipn_skipn, Hr, skipn_length_app.
    apply firstn_length_app. }
  repeat split; auto; lia.
Qed.

Lemma searchFrom_shape :
  forall s i m,
    s = skipn i text ->
    (i <= List.length text)%nat ->
    searchFrom chapterRegex text i s = Some m ->
    Shape text i m.
Proof.
  induction s as [|a s IH]; intros i m Hs Hi H; cbn [searchFrom] in H;
    destruct (matcher text chapterRegex (mkState i _ None) Some)
      as [y|] eqn:Hm.
  - injection H as <-. rewrite Hs in Hm. now apply match_at_shape.
  - discriminate.
  - injection H as <-. rewrite Hs in Hm. now apply match_at_shape.
  - apply (IH (S i)) in H.
    + destruct H as (j & pre & c & g & post & tail & Hj & H).
      exists j, pre, c, g, post, tail. split; [lia | exact H].
    + symmetry. eapply skipn_step. symmetry. exact Hs.
    + symmetry in Hs. apply skipn_cons_length in Hs. lia.
Qed.

Lemma exec_shape li m :
  exec chapterRegex text li = Some m -> Shape text li m.
Proof.
  unfold exec. destruct (Nat.leb_spec li (List.length text)); [|discriminate].
  now apply searchFrom_shape.
Qed.

(** The title of a match starts at or after the index the search started
    from, and before the index the next search starts from: every match
    is at least one unit long. *)
Lemma exec_titleStart li m :
  exec chapterRegex text li = Some m ->
  Z.of_nat li <= titleStart m < Z.of_nat (lastIndex m)
  /\ (lastIndex m <= List.length text)%nat
  /\ exists group1, m1 m = Some group1.
Proof.
  intros H. apply exec_shape in H.
  destruct H as (j & pre & c & g & post & tail & Hj & _ & Hi & H0 & H1 & Hpre
                 & Hc & Hl & Hle).
  unfold titleStart. rewrite H1, H0, Hi, indexOf_after_space by assumption.
  unfold len. repeat split; eauto; lia.
Qed.

Lemma scanLoop_spec :
  forall fuel li points res,
    scanLoop fuel text li points = Some res ->
    exists ms, MatchSeq text li ms /\ res = points ++ promoted ms.
Proof.
  induction fuel as [|fuel IH]; intros li points res H; [discriminate|].
  cbn [scanLoop] in H.
  destruct (exec chapterRegex text li) as [m|] eqn:Hexec.
  - destruct (m1 m) as [group1|] eqn:Hg; [|discriminate].
    assert (Hpoint : pointOf m
                     = if rejectedTitle (trim group1) then None
                       else Some (mkPoint (trim group1) (titleStart m)))
      by (unfold pointOf; now rewrite Hg).
    unfold rejectedTitle in Hpoint.
    destruct (test invalidTitleChars (trim group1)).
    + apply IH in H as (ms & Hms & ->). exists (m :: ms).
      split; [econstructor; eassumption|]. cbn [promoted].
      now rewrite Hpoint.
    + cbn [orb] in Hpoint.
      destruct ((len (trim group1) >? 50) || (len (trim group1) =? 0)).
      * apply IH in H as (ms & Hms & ->). exists (m :: ms).
        split; [econstructor; eassumption|]. cbn [promoted].
        now rewrite Hpoint.
      * apply IH in H as (ms & Hms & ->). exists (m :: ms).
        split; [econstructor; eassumption|]. cbn [promoted].
        rewrite Hpoint, <- app_assoc. unfold titleStart. now rewrite Hg.
  - injection H as <-. exists []. split; [now constructor|].
    now rewrite app_nil_r.
Qed.

(** The loop finishes: a match is never empty, so the index the search
    starts from grows with every iteration. *)
Lemma scanLoop_total :
  forall fuel li points,
    (List.length text - li < fuel)%nat ->
    exists res, scanLoop fuel text li points = Some res.
Proof.
  induction fuel as [|fuel IH]; intros li points Hfuel; [lia|].
  cbn [scanLoop].
  destruct (exec chapterRegex text li) as [m|] eqn:Hexec; [|eauto].
  apply exec_titleStart in Hexec as (Hts & Hle & group1 & ->).
  assert (Hdec : (List.length text - lastIndex m < fuel)%nat) by lia.
  destruct (test invalidTitleChars (trim group1)); [now apply IH|].
  destruct ((len (trim group1) >? 50) || (len (trim group1) =? 0));
    now apply IH.
Qed.

(** The bound on the iterations does not shape the result: a loop that
    finishes within a bound gives the same points within any larger one. *)
Lemma scanLoop_more_fuel :
  forall fuel li points res,
    scanLoop fuel text li points = Some res ->
    forall fuel', (fuel <= fuel')%nat ->
    scanLoop fuel' text li points = Some res.
Proof.
  induction fuel as [|fuel IH]; intros li points res H fuel' Hle;
    [discriminate|].
  destruct fuel' as [|fuel']; [lia|]. cbn [scanLoop] in *.
  destruct (exec chapterRegex text li) as [m|]; [|exact H].
  destruct (m1 m) as [group1|]; [|discriminate].
  destruct (test invalidTitleChars (trim group1)).
  - apply (IH _ _ _ H). lia.
  - destruct ((len (trim group1) >? 50) || (len (trim group1) =? 0));
      apply (IH _ _ _ H); lia.
Qed.

Lemma scanPoints_spec :
  exists ms, MatchSeq text 0 ms /\ scanPoints text = Some (promoted ms).
Proof.
  unfold scanPoints.
  destruct (scanLoop_total (S (List.length text)) 0%nat []) as (res & H); [lia|].
  destruct (scanLoop_spec _ _ _ _ H) as (ms & Hms & ->). eauto.
Qed.

Lemma pointOf_start m p : pointOf m = Some p -> startIndex p = titleStart m.
Proof.
  unfold pointOf. destruct (m1 m); [|discriminate].
  destruct (rejectedTitle _); [discriminate|]. now intros [= <-].
Qed.

Lemma pointOf_title m p :
  pointOf m = Some p -> rejectedTitle (pointTitle p) = false.
Proof.
  unfold pointOf. destruct (m1 m); [|discriminate].
  destruct (rejectedTitle _) eqn:E; [discriminate|]. now intros [= <-].
Qed.

(** Title starts grow strictly along the matches and stay inside the
    text. *)
Lemma MatchSeq_starts li ms :
  MatchSeq text li ms ->
  Forall (fun m => Z.of_nat li <= titleStart m < len text) ms.
Proof.
  induction 1 as [li _|li m ms Hexec _ IH]; constructor.
  - apply exec_titleStart in Hexec as (Hts & Hle & _). unfold len. lia.
  - apply exec_titleStart in Hexec as (Hts & Hle & _).
    eapply Forall_impl; [|exact IH]. cbn beta. intros a. lia.
Qed.

Lemma promoted_In ms p :
  In p (promoted ms) -> exists m, In m ms /\ pointOf m = Some p.
Proof.
  induction ms as [|m ms IH]; cbn [promoted]; [contradiction|].
  destruct (pointOf m) as [q|] eqn:Hq.
  - intros [<-|Hin]; [exists m; now split; [left|]|].
    destruct (IH Hin) as (m' & Hm' & Hp). exists m'. split; [now right | exact Hp].
  - intros Hin. destruct (IH Hin) as (m' & Hm' & Hp).
    exists m'. split; [now right | exact Hp].
Qed.

(** A match whose title fails the filter gives no point: no point starts
    where its title starts. *)
Lemma rejected_not_promoted li ms :
  MatchSeq text li ms ->
  forall m, In m ms -> pointOf m = None ->
  forall p, In p (promoted ms) -> startIndex p <> titleStart m.
Proof.
  induction 1 as [li _|li m0 ms Hexec Hms IH]; intros m Hin Hrej p Hp;
    [contradiction|].
  pose proof (MatchSeq_starts _ _ Hms) as Hstarts.
  rewrite Forall_forall in Hstarts.
  apply exec_titleStart in Hexec as (Hts & _ & _).
  cbn [promoted] in Hp. destruct Hin as [->|Hin].
  - rewrite Hrej in Hp. apply promoted_In in Hp as (m' & Hm' & Hp').
    rewrite (pointOf_start _ _ Hp'). specialize (Hstarts _ Hm'). lia.
  - destruct (pointOf m0) as [q|] eqn:Hq.
    + destruct Hp as [<-|Hp]; [|now apply (IH m)].
      rewrite (pointOf_start _ _ Hq). specialize (Hstarts _ Hin). lia.
    + now apply (IH m).
Qed.

Lemma MatchSeq_In li ms :
  MatchSeq text li ms ->
  forall m, In m ms -> exists li', exec chapterRegex text li' = Some m.
Proof.
  induction 1 as [li _|li m0 ms Hexec _ IH]; intros m Hin; [contradiction|].
  destruct Hin as [<-|Hin]; eauto.
Qed.

(** The offset of a point is where its title stands in the text. *)
Lemma exec_title_at li m p :
  exec chapterRegex text li = Some m -> pointOf m = Some p -> titleAt text p.
Proof.
  intros Hexec Hp. apply exec_shape in Hexec.
  destruct Hexec as (j & pre & c & g & post & tail & Hj & Htext & Hi & H0 & H1
                     & Hpre & Hc & Hl & Hle).
  unfold pointOf in Hp. rewrite H1 in Hp.
  destruct (rejectedTitle (trim (c :: g))); [discriminate|].
  injection Hp as <-. unfold titleAt. cbn [startIndex pointTitle].
  unfold titleStart. rewrite H1, H0, Hi, indexOf_after_space by assumption.
  destruct (trim_head c g Hc) as (w & Hw).
  remember (trim (c :: g)) as t eqn:Ht. clear Ht.
  assert (Hlen : List.length (c :: g) = (List.length t + List.length w)%nat)
    by (rewrite Hw; apply length_app).
  cbn [List.length] in Hlen.
  rewrite substring_spec by (unfold len; lia).
  replace (Z.to_nat (Z.of_nat j + len pre + len t - (Z.of_nat j + len pre)))
    with (List.length t) by (unfold len; lia).
  replace (Z.to_nat (Z.of_nat j + len pre)) with (List.length pre + j)%nat
    by (unfold len; lia).
  rewrite <- skipn_skipn, Htext, Hw, <- !app_assoc, skipn_length_app.
  apply firstn_length_app.
Qed.

End Scan.

Lemma chain_weaken hi points :
  forall lo lo', lo' <= lo -> chain lo hi points -> chain lo' hi points.
Proof. destruct points; simpl; intros; [lia | intuition lia]. Qed.

Lemma MatchSeq_chain text li ms :
  MatchSeq text li ms ->
  (li <= List.length text)%nat ->
  chain (Z.of_nat li) (len text) (promoted ms).
Proof.
  induction 1 as [li _|li m ms Hexec _ IH]; intros Hli; cbn [promoted chain].
  - unfold len. lia.
  - apply exec_titleStart in Hexec as (Hts & Hle & _).
    specialize (IH Hle).
    destruct (pointOf m) as [p|] eqn:Hp.
    + cbn [chain]. rewrite (pointOf_start _ _ Hp).
      split; [lia|]. eapply chain_weaken; [|exact IH]. lia.
    + eapply chain_weaken; [|exact IH]. lia.
Qed.

End ScanFacts.

Import ScanFacts.

(** ** Coverage of the text by the chapters of the plain-text parser *)

Module Coverage.

Lemma chain_le hi points : forall lo, chain lo hi points -> lo <= hi.
Proof.
  induction points as [|p points IH]; simpl; intros lo H; [assumption|].
  destruct H as [H1 H2]. apply IH in H2. lia.
Qed.

Lemma ranged_weaken lo lo' hi strict ch :
  lo' <= lo -> ranged lo hi strict ch -> ranged lo' hi strict ch.
Proof.
  intros Hlo (s & e & Hs & He & H1 & H2 & H3).
  exists s, e. repeat split; auto; lia.
Qed.

Lemma processPoints_cover text :
  forall points lo k,
    chain lo (len text) points ->
    forall first points', points = first :: points' ->
    let chs := processPoints text points k in
    firstStart chs = Some (startIndex first)
    /\ lastEnd chs = Some (len text)
    /\ contiguous chs
    /\ Forall (ranged lo (len text) True) chs.
Proof.
  induction points as [|p points IH]; intros lo k Hchain first points' Heq;
    [discriminate|].
  injection Heq as <- <-. destruct Hchain as [Hlo Hchain].
  pose proof (chain_le _ _ _ Hchain) as Hhi.
  destruct points as [|q points].
  - cbn. repeat split; auto. constructor; [|constructor].
    exists (startIndex p), (len text). repeat split; auto; lia.
  - destruct (IH (startIndex p + 1) (k + 1) Hchain q points eq_refl)
      as (Hfirst & Hlast & Hcont & Hall).
    destruct Hchain as [Hq Hchain]. pose proof (chain_le _ _ _ Hchain) as Hq'.
    cbv zeta in *.
    change (processPoints text (p :: q :: points) k)
      with (mkChapter (js "chap-" ++ numberToString k) (pointTitle p) None k
                      (Some (startIndex p)) (Some (startIndex q))
            :: processPoints text (q :: points) (k + 1)).
    destruct (processPoints text (q :: points) (k + 1)) as [|b t];
      [discriminate|].
    cbn [firstStart] in Hfirst. unfold lastEnd in *.
    cbn [List.map last firstStart contiguous endStringIndex startStringIndex]
      in *.
    repeat split; auto; try apply Hcont.
    constructor.
    + exists (startIndex p), (startIndex q). repeat split; auto; lia.
    + eapply Forall_impl; [|exact Hall]. intros ch.
      apply ranged_weaken. lia.
Qed.

End Coverage.

Import Coverage.

(** ** The chapter builder *)

Lemma ranged_strict lo hi (P : Prop) ch :
  ranged lo hi True ch -> ranged lo hi P ch.
Proof.
  intros (s & e & Hs & He & H1 & H2 & H3).
  exists s, e. repeat split; auto; lia.
Qed.

(** C1, as stated, fails: a title line of two units before the first
    heading is within the threshold of 50, so no leading chapter is made
    and the only chapter starts at offset 3, not 0. *)
Lemma coverage_gap_before_first_heading :
  parseTxtContentOptimized bookWithTitleLine
  = Some [mkChapter (js "chap-0") (js "第一章 开端") None 0 (Some 3) (Some 12)]
  /\ ~ coversExactly bookWithTitleLine
         [mkChapter (js "chap-0") (js "第一章 开端") None 0 (Some 3) (Some 12)].
Proof.
  split; [vm_compute; reflexivity|].
  intros (H & _). discriminate H.
Qed.

(** The empty text gives one chapter whose range is empty. *)
Example empty_text_empty_range :
  parseTxtContentOptimized [] = Some [wholeText []]
  /\ startStringIndex (wholeText []) = endStringIndex (wholeText []).
Proof. split; reflexivity. Qed.

(** C1 (amended): for every text the parser returns a chapter sequence
    whose ranges are contiguous, whose last chapter ends at the length of
    the text, and in which every chapter has [0 <= start <= end <=
    len(text)], with [start < end] whenever the text is not empty.  The
    first chapter starts at 0 when there is no candidate or when the first
    candidate starts after offset 50 (a leading chapter is made);
    otherwise it starts at the first candidate's own offset, which is at
    most 50. *)
Theorem txt_chapters_cover (text : jsstring) :
  exists points chs,
    scanPoints text = Some points
    /\ parseTxtContentOptimized text = Some chs
    /\ firstStart chs
       = Some (match points with
               | [] => 0
               | first :: _ =>
                   if startIndex first >? 50 then 0 else startIndex first
               end)
    /\ lastEnd chs = Some (len text)
    /\ contiguous chs
    /\ Forall (ranged 0 (len text) (text <> [])) chs.
Proof.
  destruct (scanPoints_spec text) as (ms & Hms & Hscan).
  pose proof (MatchSeq_chain _ _ _ Hms (Nat.le_0_l _)) as Hchain.
  exists (promoted ms), (buildChapters text (promoted ms)).
  split; [exact Hscan|]. split.
  { unfold parseTxtContentOptimized. now rewrite Hscan. }
  change (Z.of_nat 0) with 0 in Hchain.
  destruct (promoted ms) as [|first points'] eqn:Hpts.
  - cbn. repeat split; auto. constructor; [|constructor].
    exists 0, (len text). unfold len. repeat split; try lia.
    intros Hne. destruct text; [congruence | cbn [List.length]; lia].
  - destruct (processPoints_cover text _ 0 1 Hchain first points' eq_refl)
      as (Hfirst1 & Hlast1 & Hcont1 & Hall1).
    destruct (processPoints_cover text _ 0 0 Hchain first points' eq_refl)
      as (Hfirst0 & Hlast0 & Hcont0 & Hall0).
    cbv zeta in *. cbn [buildChapters].
    destruct (Z.gtb_spec (startIndex first) 50) as [Hgt|Hle].
    + destruct (processPoints text (first :: points') 1) as [|b t] eqn:E;
        [discriminate|].
      unfold lastEnd in *.
      cbn [firstStart prologue List.map last contiguous endStringIndex
           startStringIndex] in *.
      split; [reflexivity|]. split; [exact Hlast1|].
      split; [split; [now symmetry | exact Hcont1]|].
      cbn [chain] in Hchain.
      destruct Hchain as [_ Hchain]. apply chain_le in Hchain.
      constructor.
      * exists 0, (startIndex first). repeat split; auto; lia.
      * eapply Forall_impl; [|exact Hall1]. intros ch. apply ranged_strict.
    + split; [exact Hfirst0|]. split; [exact Hlast0|].
      split; [exact Hcont0|].
      eapply Forall_impl; [|exact Hall0]. intros ch. apply ranged_strict.
Qed.

(** C2, as stated, fails in its second half: with the first candidate at
    offset 3 (at most 50) there is no leading chapter, and the first
    chapter starts at 3, not at 0. *)
Lemma short_preface_first_chapter_not_at_zero :
  scanPoints bookWithTitleLine = Some [mkPoint (js "第一章 开端") 3]
  /\ buildChapters bookWithTitleLine [mkPoint (js "第一章 开端") 3]
     = [mkChapter (js "chap-0") (js "第一章 开端") None 0 (Some 3) (Some 12)]
  /\ ~ (3 <= 50 ->
        firstStart (buildChapters bookWithTitleLine
                                  [mkPoint (js "第一章 开端") 3]) = Some 0).
Proof.
  split; [vm_compute; reflexivity|].
  split; [vm_compute; reflexivity|].
  intros H. specialize (H ltac:(lia)). vm_compute in H. discriminate H.
Qed.

(** C2 (amended): for every non-empty candidate sequence, if the first
    candidate starts after offset 50 the builder puts a leading chapter
    titled with the "beginning" label over [0, first candidate's offset)
    before the candidates' chapters; if it starts at or before 50 there is
    no leading chapter.  In both cases the first candidate's chapter has
    the candidate's title and starts at the candidate's offset. *)
Theorem leading_chapter_threshold
    (text : jsstring) (first : ChapterPoint) (points' : list ChapterPoint) :
  (50 < startIndex first ->
   buildChapters text (first :: points')
   = mkChapter (js "chap-pre") (js "开始") None 0
               (Some 0) (Some (startIndex first))
     :: processPoints text (first :: points') 1)
  /\ (startIndex first <= 50 ->
      buildChapters text (first :: points')
      = processPoints text (first :: points') 0)
  /\ (forall k, exists ch chs,
         processPoints text (first :: points') k = ch :: chs
         /\ title ch = pointTitle first
         /\ chapterIndex ch = k
         /\ startStringIndex ch = Some (startIndex first)).
Proof.
  cbn [buildChapters].
  destruct (Z.gtb_spec (startIndex first) 50) as [Hgt|Hle].
  - split; [reflexivity|]. split; [lia|].
    intros k. cbn [processPoints]. eexists _, _. now repeat split.
  - split; [lia|]. split; [reflexivity|].
    intros k. cbn [processPoints]. eexists _, _. now repeat split.
Qed.

Lemma leading_chapter_threshold_witness :
  (50 < 51 ->
   buildChapters (js "x") [mkPoint (js "a") 51]
   = mkChapter (js "chap-pre") (js "开始") None 0 (Some 0) (Some 51)
     :: processPoints (js "x") [mkPoint (js "a") 51] 1)
  /\ (50 <= 50 ->
      buildChapters (js "x") [mkPoint (js "a") 50]
      = processPoints (js "x") [mkPoint (js "a") 50] 0).
Proof.
  split.
  - exact (proj1 (leading_chapter_threshold (js "x") (mkPoint (js "a") 51) [])).
  - exact (proj1 (proj2 (leading_chapter_threshold (js "x")
                           (mkPoint (js "a") 50) []))).
Defined.

(** C3: when boundary detection gives no candidate, the parser returns
    exactly one chapter, titled with the "full text" label, from offset 0
    to the length of the text. *)
Theorem no_candidates_single_chapter (text : jsstring) :
  scanPoints text = Some [] ->
  parseTxtContentOptimized text
  = Some [mkChapter (js "chap-0") (js "全文") None 0 (Some 0) (Some (len text))].
Proof.
  intros H. unfold parseTxtContentOptimized. rewrite H. reflexivity.
Qed.

Lemma no_candidates_single_chapter_witness :
  scanPoints (js "no heading here") = Some []
  /\ parseTxtContentOptimized (js "no heading here")
     = Some [mkChapter (js "chap-0") (js "全文") None 0 (Some 0) (Some 15)].
Proof.
  split; [vm_compute; reflexivity|].
  apply (no_candidates_single_chapter (js "no heading here")).
  vm_compute. reflexivity.
Defined.

Lemma processPoints_length text points :
  forall k, List.length (processPoints text points k) = List.length points.
Proof.
  induction points as [|p points IH]; intros k; cbn [processPoints List.length];
    [reflexivity | now rewrite IH].
Qed.

(** The chapters of the points are numbered from [k] on, and each is
    named after its number. *)
Lemma processPoints_numbered text points :
  forall k,
    List.map chapterIndex (processPoints text points k)
    = List.map (fun i => k + Z.of_nat i) (seq 0 (List.length points))
    /\ Forall (fun ch => id ch = js "chap-" ++ numberToString (chapterIndex ch))
              (processPoints text points k).
Proof.
  induction points as [|p points IH]; intros k; cbn [processPoints].
  - split; [reflexivity | constructor].
  - destruct (IH (k + 1)) as [Hidx Hid]. split.
    + cbn [List.map List.length seq chapterIndex]. f_equal; [lia|].
      rewrite Hidx, <- seq_shift, List.map_map.
      apply List.map_ext. intros i. lia.
    + constructor; [reflexivity | exact Hid].
Qed.

(** X5: the chapters of the plain-text parser carry their position as
    [index], from 0 on without gaps, and an [id] made of the index, but
    for the leading chapter, whose id is [chap-pre] and whose index is
    0. *)
Theorem txt_chapters_numbered (text : jsstring) :
  exists chs,
    parseTxtContentOptimized text = Some chs
    /\ List.map chapterIndex chs
       = List.map Z.of_nat (seq 0 (List.length chs))
    /\ Forall (fun ch =>
                 id ch = js "chap-" ++ numberToString (chapterIndex ch)
                 \/ (id ch = js "chap-pre" /\ chapterIndex ch = 0)) chs.
Proof.
  destruct (scanPoints_spec text) as (ms & _ & Hscan).
  exists (buildChapters text (promoted ms)). split.
  { unfold parseTxtContentOptimized. now rewrite Hscan. }
  unfold buildChapters. destruct (promoted ms) as [|first points'].
  - split; [reflexivity|]. constructor; [now left | constructor].
  - destruct (startIndex first >? 50).
    + destruct (processPoints_numbered text (first :: points') 1) as [Hidx Hid].
      split.
      * cbn [List.map List.length seq prologue chapterIndex]. f_equal.
        rewrite Hidx, processPoints_length, <- seq_shift, List.map_map.
        apply List.map_ext. intros i. lia.
      * constructor; [right; now split|].
        eapply Forall_impl; [|exact Hid]. intros ch H. now left.
    + destruct (processPoints_numbered text (first :: points') 0) as [Hidx Hid].
      split.
      * rewrite Hidx, processPoints_length. reflexivity.
      * eapply Forall_impl; [|exact Hid]. intros ch H. now left.
Qed.

(** ** The validity filter of PASS 1 *)

Lemma rejectedTitle_false t :
  rejectedTitle t = false ->
  test invalidTitleChars t = false /\ 0 < len t <= 50.
Proof.
  unfold rejectedTitle. intros H.
  apply orb_false_iff in H as [H H0]. apply orb_false_iff in H as [H H50].
  split; [exact H|]. apply Z.eqb_neq in H0.
  rewrite Z.gtb_ltb in H50. apply Z.ltb_ge in H50. unfold len in *. lia.
Qed.

Lemma rejectedTitle_true t :
  test invalidTitleChars t = true \/ len t = 0 \/ 50 < len t ->
  rejectedTitle t = true.
Proof.
  unfold rejectedTitle. intros [H|[H|H]].
  - now rewrite H.
  - rewrite H. cbn. now rewrite orb_true_r.
  - assert (H50 : (len t >? 50) = true)
      by (rewrite Z.gtb_ltb; now apply Z.ltb_lt).
    rewrite H50. now rewrite orb_true_r.
Qed.

(** C4, as stated, fails for the full stop: the ASCII full stop is not in
    the rejection set (the numbered-list marker needs it), so a heading
    line that contains full stops is promoted. *)
Lemma full_stop_title_promoted :
  scanPoints (js "Chapter 1. A Beginning.")
  = Some [mkPoint (js "Chapter 1. A Beginning.") 0]
  /\ existsb (Z.eqb 46) (js "Chapter 1. A Beginning.") = true
  /\ invalidTitleChars 46 = false.
Proof. repeat split; vm_compute; reflexivity. Qed.

(** C4 (amended): the boundaries of a text are exactly the matches of the
    heading pattern whose trimmed title passes the filter, in scan order.
    A match is rejected, and no boundary starts at its title, if the
    trimmed title contains a unit of the rejection set (comma, exclamation
    mark, question mark, ASCII or full-width; ideographic full stop; curly
    or straight double quotation mark; apostrophe; semicolon; the ASCII
    full stop is not in the set) or if its length is 0 or more than 50.
    The line [questionLine] is never a boundary, and a text where it is the
    only match of the pattern gets the single chapter over the whole
    text. *)
Theorem title_filter (text : jsstring) :
  exists ms points,
    MatchSeq text 0 ms
    /\ scanPoints text = Some points
    /\ points = promoted ms
    /\ Forall (fun p => test invalidTitleChars (pointTitle p) = false
                        /\ 0 < len (pointTitle p) <= 50) points
    /\ (forall m group1,
           In m ms -> m1 m = Some group1 ->
           test invalidTitleChars (trim group1) = true
           \/ len (trim group1) = 0 \/ 50 < len (trim group1) ->
           forall p, In p points -> startIndex p <> titleStart m)
    /\ parseTxtContentOptimized questionLine = Some [wholeText questionLine]
    /\ parseTxtContentOptimized
         (js "一些文字" ++ nl ++ questionLine ++ nl ++ js "更多文字")
       = Some [wholeText
                 (js "一些文字" ++ nl ++ questionLine ++ nl ++ js "更多文字")].
Proof.
  destruct (scanPoints_spec text) as (ms & Hms & Hscan).
  exists ms, (promoted ms).
  split; [exact Hms|]. split; [exact Hscan|]. split; [reflexivity|].
  split.
  { apply Forall_forall. intros p Hp.
    apply promoted_In in Hp as (m & _ & Hp).
    apply rejectedTitle_false. eapply pointOf_title. exact Hp. }
  split.
  { intros m group1 Hin Hg Hrej p Hp.
    eapply rejected_not_promoted; eauto.
    unfold pointOf. rewrite Hg. now rewrite rejectedTitle_true. }
  split; vm_compute; reflexivity.
Qed.

(** X1: the boundaries of a text come in scan order and do not
    overlap: their offsets grow strictly and lie inside the text, and the
    text at each offset is the boundary's title. *)
Theorem boundaries_in_scan_order (text : jsstring) :
  exists points,
    scanPoints text = Some points
    /\ chain 0 (len text) points
    /\ Forall (titleAt text) points.
Proof.
  destruct (scanPoints_spec text) as (ms & Hms & Hscan).
  exists (promoted ms). split; [exact Hscan|]. split.
  - exact (MatchSeq_chain _ _ _ Hms (Nat.le_0_l _)).
  - apply Forall_forall. intros p Hp.
    apply promoted_In in Hp as (m & Hin & Hp).
    destruct (MatchSeq_In _ _ _ Hms m Hin) as (li & Hexec).
    exact (exec_title_at _ _ _ _ Hexec Hp).
Qed.

(** ** Encoding sniffing *)

(** [resolve] is called on every path of [detectEncoding]. *)
Lemma detectEncoding_resolves (host : Host) (file : File) :
  exists label, detectEncoding host file = Resolved label.
Proof.
  unfold detectEncoding.
  destruct (readAsArrayBuffer host (firstn 4096 (bytes file)))
    as [[buffer|]|]; eauto.
  destruct (jschardet host) as [detect|]; eauto.
  destruct (detect (List.map fromCharCode buffer)); eauto.
Qed.

(** C9: encoding sniffing never fails.  Whatever the file and the
    collaborators, the promise of [detectEncoding] is resolved with a
    non-empty label; the label is the classifier's when the read loads a
    buffer, the classifier is there and gives a non-empty label, and it is
    the default [utf-8] in every other case: the read fails or loads
    nothing, the classifier is missing, or it gives no label (as it may
    for an empty or unclassifiable prefix). *)
Theorem detectEncoding_never_fails (host : Host) (file : File) :
  exists label,
    detectEncoding host file = Resolved label
    /\ truthy label = true
    /\ (label = utf_8
        \/ exists detect buffer,
             jschardet host = Some detect
             /\ readAsArrayBuffer host (firstn 4096 (bytes file))
                = OnLoad (Some buffer)
             /\ detect (List.map fromCharCode buffer) = Some label)
    /\ (jschardet host = None -> label = utf_8)
    /\ (readAsArrayBuffer host (firstn 4096 (bytes file)) = OnError ->
        label = utf_8)
    /\ (readAsArrayBuffer host (firstn 4096 (bytes file)) = OnLoad None ->
        label = utf_8)
    /\ (forall detect buffer,
           jschardet host = Some detect ->
           readAsArrayBuffer host (firstn 4096 (bytes file))
           = OnLoad (Some buffer) ->
           detect (List.map fromCharCode buffer) = None
           \/ detect (List.map fromCharCode buffer) = Some [] ->
           label = utf_8).
Proof.
  unfold detectEncoding.
  destruct (readAsArrayBuffer host (firstn 4096 (bytes file)))
    as [[buffer|]|] eqn:Hread.
  - destruct (jschardet host) as [detect|] eqn:Hdet.
    + destruct (detect (List.map fromCharCode buffer)) as [[|u enc]|] eqn:Henc.
      * exists utf_8. repeat split; auto; try discriminate.
      * exists (u :: enc). split; [reflexivity|]. split; [reflexivity|].
        split; [right; exists detect, buffer; auto|].
        split; [discriminate|]. split; [discriminate|].
        split; [discriminate|].
        intros d b [= <-] [= <-] [H|H]; rewrite Henc in H; discriminate.
      * exists utf_8. repeat split; auto; try discriminate.
    + exists utf_8. repeat split; auto; try discriminate.
  - exists utf_8. repeat split; auto; try discriminate.
  - exists utf_8. repeat split; auto; try discriminate.
Qed.

(** ** The e-book path of the dispatcher *)

Lemma loadSpine_spec toc items :
  forall index,
    let (chs, warned) := loadSpine toc items index in
    warned = List.filter (fun item => negb (loaded item)) items
    /\ List.map chapterIndex chs
       = List.map (fun i => index + Z.of_nat i)
                  (seq 0 (List.length (List.filter loaded items)))
    /\ Forall structured chs.
Proof.
  induction items as [|item items IH]; intros index; cbn [loadSpine].
  - cbn. auto.
  - cbn [List.filter].
    destruct (load item) as [doc|] eqn:Hload;
      [assert (Hl : loaded item = true) by (unfold loaded; now rewrite Hload)
      |assert (Hl : loaded item = false) by (unfold loaded; now rewrite Hload)];
      rewrite Hl; cbn [negb].
    + specialize (IH (index + 1)).
      destruct (loadSpine toc items (index + 1)) as [chs warned].
      destruct IH as (Hw & Hidx & Hall).
      split; [exact Hw|]. split.
      * cbn [List.map List.length seq chapterIndex]. f_equal; [lia|].
        rewrite Hidx, <- seq_shift, List.map_map.
        apply List.map_ext. intros i. lia.
      * constructor; [|exact Hall]. now repeat split.
    + specialize (IH index).
      destruct (loadSpine toc items index) as [chs warned].
      destruct IH as (Hw & Hidx & Hall). now rewrite Hw.
Qed.

(** C5 (defect of the code): the claim asks for a fallback chapter when
    no content block is usable.  On the e-book path there is none: when
    the only spine item fails to load, the item is reported and skipped,
    ingestion resolves with an empty chapter sequence, and the view of
    such a book throws on reading its first chapter.  The plain-text and
    rich-text paths never give an empty sequence. *)
Theorem epub_all_items_fail_no_chapter :
  parseFile (epubHost brokenBook) (mkFile (js "book.epub") [80; 75])
  = Resolved (mkResult (js "book.epub") [] None)
  /\ loadSpine (toc brokenBook) (spineItems brokenBook) 0
     = ([], spineItems brokenBook)
  /\ activeChapterData (Some []) 0 None = TypeError.
Proof. repeat split; vm_compute; reflexivity. Qed.

(** X2: on the e-book path, when the reader opens the book,
    ingestion resolves with one chapter per spine item that loads, in
    spine order, numbered from 0 without gaps and with [content] set; an
    item whose load fails is reported and skipped, and the items after it
    are still processed.  The chapter sequence is empty exactly when no
    spine item loads. *)
Theorem epub_chapters_follow_loaded_items
    (host : Host) (file : File) (open : option (list Z) -> option EpubBook)
    (buffer : option (list Z)) (book : EpubBook) :
  extension file = js "epub" ->
  ePub host = Some open ->
  readAsArrayBuffer host (bytes file) = OnLoad buffer ->
  open buffer = Some book ->
  exists r,
    parseFile host file = Resolved r
    /\ chapters r = fst (loadSpine (toc book) (spineItems book) 0)
    /\ snd (loadSpine (toc book) (spineItems book) 0)
       = List.filter (fun item => negb (loaded item)) (spineItems book)
    /\ List.map chapterIndex (chapters r)
       = List.map Z.of_nat
           (seq 0 (List.length (List.filter loaded (spineItems book))))
    /\ Forall structured (chapters r)
    /\ (chapters r = [] <->
        forall item, In item (spineItems book) -> load item = None).
Proof.
  intros Hext HePub Hread Hopen. unfold parseFile.
  rewrite Hext, HePub, Hread, Hopen.
  change (JS.eqb (js "epub") (js "txt")) with false.
  change (JS.eqb (js "epub") (js "docx")) with false.
  change (JS.eqb (js "epub") (js "epub")) with true.
  cbv iota. eexists. split; [reflexivity|]. cbn [chapters].
  pose proof (loadSpine_spec (toc book) (spineItems book) 0) as Hspec.
  destruct (loadSpine (toc book) (spineItems book) 0) as [chs warned].
  destruct Hspec as (Hw & Hidx & Hall). cbn [fst snd].
  split; [reflexivity|]. split; [exact Hw|]. split; [exact Hidx|].
  split; [exact Hall|].
  assert (Hlen : List.length chs
                 = List.length (List.filter loaded (spineItems book))).
  { rewrite <- (length_map chapterIndex), Hidx, length_map. apply length_seq. }
  split.
  - intros ->. cbn in Hlen. symmetry in Hlen.
    apply length_zero_iff_nil in Hlen.
    intros item Hin. destruct (load item) eqn:Hl; [|reflexivity].
    assert (Hf : In item (List.filter loaded (spineItems book))).
    { apply filter_In. split; [exact Hin|]. unfold loaded. now rewrite Hl. }
    rewrite Hlen in Hf. contradiction.
  - intros Hnone. apply length_zero_iff_nil. rewrite Hlen.
    apply length_zero_iff_nil.
    destruct (List.filter loaded (spineItems book)) as [|item l] eqn:Hf;
      [reflexivity|].
    assert (Hin : In item (List.filter loaded (spineItems book)))
      by (rewrite Hf; now left).
    apply filter_In in Hin as [Hin Hl]. unfold loaded in Hl.
    rewrite (Hnone _ Hin) in Hl. discriminate.
Qed.

Lemma epub_chapters_follow_loaded_items_witness :
  exists r,
    parseFile (epubHost twoItemBook) (mkFile (js "My.Book.EPUB") [80; 75])
    = Resolved r
    /\ chapters r
       = fst (loadSpine (toc twoItemBook) (spineItems twoItemBook) 0)
    /\ snd (loadSpine (toc twoItemBook) (spineItems twoItemBook) 0)
       = List.filter (fun item => negb (loaded item)) (spineItems twoItemBook)
    /\ List.map chapterIndex (chapters r)
       = List.map Z.of_nat
           (seq 0 (List.length (List.filter loaded (spineItems twoItemBook))))
    /\ Forall structured (chapters r)
    /\ (chapters r = [] <->
        forall item, In item (spineItems twoItemBook) -> load item = None).
Proof.
  apply (epub_chapters_follow_loaded_items
           (epubHost twoItemBook) (mkFile (js "My.Book.EPUB") [80; 75])
           (fun _ => Some twoItemBook) (Some [80; 75]) twoItemBook);
    reflexivity.
Defined.

Example twoItemBook_chapters :
  parseFile (epubHost twoItemBook) (mkFile (js "My.Book.EPUB") [80; 75])
  = Resolved
      (mkResult (js "My Book")
                [mkChapter (js "chap-0") (js "Part B") (Some (js "<h1>B</h1>"))
                           0 None None]
                None).
Proof. vm_compute. reflexivity. Qed.

(** X3: a file whose extension is none of [txt], [docx] and [epub]
    is refused with an error that names the accepted formats. *)
Theorem unsupported_extension_rejected (host : Host) (file : File) :
  extension file <> js "txt" ->
  extension file <> js "docx" ->
  extension file <> js "epub" ->
  parseFile host file
  = Rejected (ErrorMessage
                (js "不支持的文件格式。请使用 .txt, .docx, 或 .epub")).
Proof.
  intros Htxt Hdocx Hepub. unfold parseFile, JS.eqb.
  destruct (list_eq_dec Z.eq_dec (extension file) (js "txt")); [contradiction|].
  destruct (list_eq_dec Z.eq_dec (extension file) (js "docx")); [contradiction|].
  destruct (list_eq_dec Z.eq_dec (extension file) (js "epub")); [contradiction|].
  reflexivity.
Qed.

Lemma unsupported_extension_rejected_witness :
  extension (mkFile (js "notes.PDF") [37; 80]) = js "pdf"
  /\ parseFile txtHost (mkFile (js "notes.PDF") [37; 80])
     = Rejected (ErrorMessage
                   (js "不支持的文件格式。请使用 .txt, .docx, 或 .epub")).
Proof.
  split; [reflexivity|].
  apply (unsupported_extension_rejected txtHost (mkFile (js "notes.PDF") [37; 80]));
    discriminate.
Defined.

(** ** Content or offsets *)

Lemma processPoints_lazy text points :
  forall k, Forall lazy (processPoints text points k).
Proof.
  induction points as [|p points IH]; intros k; cbn [processPoints];
    constructor; auto.
  repeat split; discriminate.
Qed.

Lemma buildChapters_lazy text points : Forall lazy (buildChapters text points).
Proof.
  unfold buildChapters. destruct points as [|first points'].
  - constructor; [|constructor]. repeat split; discriminate.
  - destruct (startIndex first >? 50); [constructor|];
      try apply processPoints_lazy.
    repeat split; discriminate.
Qed.

(** The content of each chapter of the e-book loop is the content of
    the document it was made from, in spine order. *)
Lemma loadSpine_contents toc items :
  forall index,
    List.map content (fst (loadSpine toc items index))
    = List.map (fun doc => Some (docContent doc)) (loadedDocs items).
Proof.
  induction items as [|item items IH]; intros index; [reflexivity|].
  cbn [loadSpine loadedDocs flat_map]. fold (loadedDocs items).
  destruct (load item) as [doc|].
  - specialize (IH (index + 1)).
    destruct (loadSpine toc items (index + 1)) as [chs warned].
    cbn [fst List.map content app] in *. rewrite IH.
    now destruct doc.
  - specialize (IH index).
    destruct (loadSpine toc items index) as [chs warned]. exact IH.
Qed.

(** A chapter whose content is the empty string and that has no start
    offset is shown with the loading placeholder, whatever the full
    text. *)
Lemma neither_shown_loading ch :
  neither ch ->
  forall fullText, materialize ch fullText = withContent ch loadingContent.
Proof.
  intros (Hc & Hs & _) fullText. unfold materialize. rewrite Hc, Hs.
  destruct fullText as [[|u t]|]; reflexivity.
Qed.

(** C7 (defect): at the level of the fields a chapter of a resolved
    ingestion has either the [content] field or both offsets, never both.
    But the field may hold the empty string, which the view takes as no
    content.  On the e-book path the content of each chapter is the
    content of its document, so a document that loads without a body
    gives a chapter with neither content nor offsets; on the rich-text
    path an empty conversion gives one.  Such a chapter is shown with the
    loading placeholder whatever the full text is. *)
Theorem empty_content_chapter_has_neither (host : Host) (file : File) :
  (forall r, parseFile host file = Resolved r ->
             Forall exclusive (chapters r))
  /\ (forall open buffer book,
        extension file = js "epub" ->
        ePub host = Some open ->
        readAsArrayBuffer host (bytes file) = OnLoad buffer ->
        open buffer = Some book ->
        exists r,
          parseFile host file = Resolved r
          /\ List.map content (chapters r)
             = List.map (fun doc => Some (docContent doc))
                        (loadedDocs (spineItems book))
          /\ (forall doc,
                In doc (loadedDocs (spineItems book)) ->
                docContent doc = [] ->
                exists ch,
                  In ch (chapters r)
                  /\ neither ch
                  /\ forall fullText,
                       materialize ch fullText
                       = withContent ch loadingContent))
  /\ (forall convertToHtml buffer,
        extension file = js "docx" ->
        mammoth host = Some convertToHtml ->
        readAsArrayBuffer host (bytes file) = OnLoad buffer ->
        convertToHtml buffer = Some [] ->
        exists r ch,
          parseFile host file = Resolved r
          /\ chapters r = [ch]
          /\ neither ch
          /\ forall fullText,
               materialize ch fullText = withContent ch loadingContent).
Proof.
  split; [|split].
  - intros r. unfold parseFile.
    destruct (JS.eqb (extension file) (js "txt")).
    { destruct (detectEncoding_resolves host file) as (label & ->).
      cbn [await].
      destruct (readAsArrayBuffer host (bytes file)) as [[buffer|]|];
        try discriminate.
      destruct (TextDecoder host label) as [decode|]; [|discriminate].
      unfold parseTxtContentOptimized.
      destruct (scanPoints (decode buffer)) as [points|]; [|discriminate].
      cbn [option_map]. intros [= <-]. cbn [chapters].
      eapply Forall_impl; [|apply buildChapters_lazy]. intros ch. now right. }
    destruct (JS.eqb (extension file) (js "docx")).
    { destruct (mammoth host) as [convertToHtml|]; [|discriminate].
      destruct (readAsArrayBuffer host (bytes file)) as [arrayBuffer|];
        [|discriminate].
      destruct (convertToHtml arrayBuffer) as [html|]; [|discriminate].
      intros [= <-]. cbn [chapters]. constructor; [|constructor].
      left. repeat split. discriminate. }
    destruct (JS.eqb (extension file) (js "epub")); [|discriminate].
    destruct (ePub host) as [open|]; [|discriminate].
    destruct (readAsArrayBuffer host (bytes file)) as [arrayBuffer|];
      [|discriminate].
    destruct (open arrayBuffer) as [book|]; [|discriminate].
    intros [= <-]. cbn [chapters].
    pose proof (loadSpine_spec (toc book) (spineItems book) 0) as Hspec.
    destruct (loadSpine (toc book) (spineItems book) 0) as [chs warned].
    destruct Hspec as (_ & _ & Hall). cbn [fst].
    eapply Forall_impl; [|exact Hall]. intros ch. now left.
  - intros open buffer book Hext HePub Hread Hopen. unfold parseFile.
    rewrite Hext, HePub, Hread, Hopen.
    change (JS.eqb (js "epub") (js "txt")) with false.
    change (JS.eqb (js "epub") (js "docx")) with false.
    change (JS.eqb (js "epub") (js "epub")) with true.
    cbv iota. eexists. split; [reflexivity|]. cbn [chapters].
    pose proof (loadSpine_contents (toc book) (spineItems book) 0) as Hc.
    pose proof (loadSpine_spec (toc book) (spineItems book) 0) as Hspec.
    destruct (loadSpine (toc book) (spineItems book) 0) as [chs warned].
    destruct Hspec as (_ & _ & Hall). cbn [fst] in *.
    split; [exact Hc|]. intros doc Hdoc Hempty.
    assert (Hin : In (Some []) (List.map content chs)).
    { rewrite Hc. apply in_map_iff. exists doc. now rewrite Hempty. }
    apply in_map_iff in Hin as (ch & Hcontent & Hch).
    pose proof (proj1 (Forall_forall _ _) Hall ch Hch) as (_ & Hs & He).
    assert (Hn : neither ch) by (repeat split; assumption).
    exists ch. split; [exact Hch|]. split; [exact Hn|].
    now apply neither_shown_loading.
  - intros convertToHtml buffer Hext Hlib Hread Hconv. unfold parseFile.
    rewrite Hext, Hlib, Hread, Hconv.
    change (JS.eqb (js "docx") (js "txt")) with false.
    change (JS.eqb (js "docx") (js "docx")) with true.
    cbv iota. eexists. eexists. split; [reflexivity|].
    split; [reflexivity|].
    assert (Hn : neither (mkChapter (js "chap-0") (name file) (Some []) 0
                                    None None))
      by (repeat split).
    split; [exact Hn|]. now apply neither_shown_loading.
Qed.

Lemma empty_content_chapter_has_neither_witness :
  (exists r ch,
      parseFile (epubHost bodilessBook) (mkFile (js "book.epub") [80; 75])
      = Resolved r
      /\ In ch (chapters r)
      /\ neither ch
      /\ materialize ch None = withContent ch loadingContent)
  /\ (exists r ch,
        parseFile emptyDocxHost (mkFile (js "empty.docx") [80; 75])
        = Resolved r
        /\ chapters r = [ch]
        /\ neither ch
        /\ materialize ch None = withContent ch loadingContent).
Proof.
  split.
  - destruct (empty_content_chapter_has_neither
                (epubHost bodilessBook) (mkFile (js "book.epub") [80; 75]))
      as (_ & Hepub & _).
    destruct (Hepub (fun _ => Some bodilessBook) (Some [80; 75]) bodilessBook)
      as (r & Hr & _ & Hbad); try reflexivity.
    destruct (Hbad DocOther) as (ch & Hch & Hn & Hshown);
      [now left | reflexivity |].
    exists r, ch. repeat split; try assumption; try apply Hn. apply Hshown.
  - destruct (empty_content_chapter_has_neither
                emptyDocxHost (mkFile (js "empty.docx") [80; 75]))
      as (_ & _ & Hdocx).
    destruct (Hdocx (fun _ => Some []) (Some [80; 75]))
      as (r & ch & Hr & Hchs & Hn & Hshown); try reflexivity.
    exists r, ch. repeat split; try assumption; try apply Hn. apply Hshown.
Defined.

(** X6: a resolved ingestion of a plain-text file keeps the decoded
    text: the text is the file's bytes decoded with the label that
    sniffing gave, the chapters are those of the plain-text parser on that
    text, and the title is the file name without its first [.txt]; a
    resolved ingestion of any other file keeps no full text. *)
Theorem full_text_kept_for_plain_text
    (host : Host) (file : File) (r : ParseResult) :
  parseFile host file = Resolved r ->
  (extension file = js "txt" ->
   exists label decode buffer,
     detectEncoding host file = Resolved label
     /\ TextDecoder host label = Some decode
     /\ readAsArrayBuffer host (bytes file) = OnLoad (Some buffer)
     /\ fullText r = Some (decode buffer)
     /\ parseTxtContentOptimized (decode buffer) = Some (chapters r)
     /\ resultTitle r = replace (name file) (js ".txt") [])
  /\ (extension file <> js "txt" -> fullText r = None).
Proof.
  unfold parseFile, JS.eqb.
  destruct (list_eq_dec Z.eq_dec (extension file) (js "txt")) as [Htxt|Htxt].
  - destruct (detectEncoding_resolves host file) as (label & Hlabel).
    rewrite Hlabel. cbn [await].
    destruct (readAsArrayBuffer host (bytes file)) as [[buffer|]|];
      try discriminate.
    destruct (TextDecoder host label) as [decode|] eqn:Hdec; [|discriminate].
    destruct (parseTxtContentOptimized (decode buffer)) as [chs|] eqn:Hchs;
      [|discriminate].
    intros [= <-]. split; [|contradiction].
    intros _. exists label, decode, buffer. cbn. now repeat split.
  - intros H. split; [contradiction|]. intros _.
    destruct (list_eq_dec Z.eq_dec (extension file) (js "docx")).
    + destruct (mammoth host) as [convertToHtml|]; [|discriminate].
      destruct (readAsArrayBuffer host (bytes file)) as [arrayBuffer|];
        [|discriminate].
      destruct (convertToHtml arrayBuffer); [|discriminate].
      now injection H as <-.
    + destruct (list_eq_dec Z.eq_dec (extension file) (js "epub"));
        [|discriminate].
      destruct (ePub host) as [open|]; [|discriminate].
      destruct (readAsArrayBuffer host (bytes file)) as [arrayBuffer|];
        [|discriminate].
      destruct (open arrayBuffer); [|discriminate].
      now injection H as <-.
Qed.

Lemma full_text_kept_for_plain_text_witness :
  parseFile txtHost twoChapterFile = Resolved twoChapterResult
  /\ (extension twoChapterFile = js "txt" ->
      exists label decode buffer,
        detectEncoding txtHost twoChapterFile = Resolved label
        /\ TextDecoder txtHost label = Some decode
        /\ readAsArrayBuffer txtHost (bytes twoChapterFile)
           = OnLoad (Some buffer)
        /\ fullText twoChapterResult = Some (decode buffer)
        /\ parseTxtContentOptimized (decode buffer)
           = Some (chapters twoChapterResult)
        /\ resultTitle twoChapterResult
           = replace (name twoChapterFile) (js ".txt") []).
Proof.
  assert (H : parseFile txtHost twoChapterFile = Resolved twoChapterResult)
    by (vm_compute; reflexivity).
  split; [exact H|].
  exact (proj1 (full_text_kept_for_plain_text txtHost twoChapterFile
                  twoChapterResult H)).
Defined.

(** ** The lazy chapter view *)

Module ViewFacts.

Lemma materialize_lazy chapter fullText start :
  shownLazily chapter fullText start ->
  materialize chapter (Some fullText)
  = withContent chapter (display (rawContent chapter fullText start)).
Proof.
  intros (Hc & Hs & Hne). unfold materialize. rewrite Hs.
  destruct fullText as [|u text]; [congruence|].
  destruct Hc as [-> | ->]; reflexivity.
Qed.

(** What the view keeps of a slice that has a line break: everything
    after the first line when that line and the title contain one another
    once trimmed, the whole slice otherwise. *)
Lemma rawContent_with_break chapter fullText start l r :
  sliceOf chapter fullText start = l ++ 10 :: r ->
  ~ In 10 l ->
  rawContent chapter fullText start
  = if includes (trim l) (trim (title chapter))
       || includes (trim (title chapter)) (trim l)
    then r else l ++ 10 :: r.
Proof.
  unfold sliceOf, rawContent. intros -> Hl.
  rewrite (indexOf_first_break l r Hl).
  assert (Hneq : (len l =? -1) = false)
    by (apply Z.eqb_neq; pose proof (len_nonneg l); lia).
  rewrite Hneq. cbn [negb].
  now rewrite substring_prefix, substringFrom_suffix.
Qed.

(** A slice without a line break is kept whole, whatever the title. *)
Lemma rawContent_no_break chapter fullText start :
  ~ In 10 (sliceOf chapter fullText start) ->
  rawContent chapter fullText start = sliceOf chapter fullText start.
Proof.
  unfold sliceOf, rawContent. intros Hs.
  now rewrite (indexOf_no_break _ Hs).
Qed.

Lemma display_truthy raw : truthy (display raw) = true.
Proof.
  unfold display. destruct (split 10 raw) as [|piece pieces] eqn:E.
  - destruct raw as [|c raw]; cbn in E; [discriminate|].
    destruct (c =? 10); [discriminate|].
    destruct (split 10 raw); discriminate.
  - reflexivity.
Qed.

Lemma materialize_of_truthy chapter fullText u c :
  content chapter = Some (u :: c) -> materialize chapter fullText = chapter.
Proof. intros H. unfold materialize. now rewrite H. Qed.

(** The view always has content that is not empty. *)
Lemma materialize_content chapter fullText :
  exists u c, content (materialize chapter fullText) = Some (u :: c).
Proof.
  assert (Hload : exists u c,
             content (withContent chapter loadingContent) = Some (u :: c))
    by (exists 60, (tl loadingContent); vm_compute; reflexivity).
  assert (Hshow : forall raw, exists u c,
             content (withContent chapter (display raw)) = Some (u :: c)).
  { intros raw. pose proof (display_truthy raw) as Ht. cbn [withContent content].
    destruct (display raw) as [|u c]; [discriminate | eauto]. }
  unfold materialize.
  destruct (content chapter) as [[|u c]|] eqn:Hc.
  2: { rewrite Hc. eauto. }
  all: destruct fullText as [[|v text]|];
    destruct (startStringIndex chapter) as [start|];
    try exact Hload; apply Hshow.
Qed.

(** Showing what has been shown changes nothing. *)
Lemma materialize_idempotent chapter fullText :
  materialize (materialize chapter fullText) fullText
  = materialize chapter fullText.
Proof.
  destruct (materialize_content chapter fullText) as (u & c & H).
  exact (materialize_of_truthy _ fullText u c H).
Qed.

End ViewFacts.

Import ViewFacts.

(** C6, as stated, fails when the slice has no line break: the last
    chapter of a text that ends with its heading has the heading as its
    only line, the line is the title, and it is shown, not stripped. *)
Lemma last_heading_line_kept :
  parseTxtContentOptimized afterwordBook
  = Some [mkChapter (js "chap-0") (js "第一章") None 0 (Some 0) (Some 7);
          afterword]
  /\ sliceOf afterword afterwordBook 7 = title afterword
  /\ firstLineOf (sliceOf afterword afterwordBook 7) = title afterword
  /\ content (materialize afterword (Some afterwordBook))
     = Some (js "<p>后记</p>")
  /\ content (materialize afterword (Some afterwordBook))
     <> Some (display []).
Proof.
  split; [vm_compute; reflexivity|]. split; [vm_compute; reflexivity|].
  split; [vm_compute; reflexivity|]. split; [vm_compute; reflexivity|].
  vm_compute. discriminate.
Qed.

(** C6 (amended): for a chapter shown from the full text whose slice has
    a line break, when the text before the first line break and the title
    contain one another once trimmed, the view shows exactly what follows
    that first line break: one line is stripped, never more.  When they
    do not contain one another, and when the slice has no line break, the
    slice is shown whole.  The view is a function of the
    chapter and the full text that changes neither (it differs from the
    chapter in [content] only), and showing the result again gives the
    same result. *)
Theorem title_line_dropped_once
    (chapter : Chapter) (fullText : jsstring) (start : Z) :
  shownLazily chapter fullText start ->
  (forall firstLine remaining,
      sliceOf chapter fullText start = firstLine ++ 10 :: remaining ->
      ~ In 10 firstLine ->
      repeatsTitle chapter firstLine = true ->
      materialize chapter (Some fullText)
      = withContent chapter (display remaining))
  /\ (forall firstLine remaining,
         sliceOf chapter fullText start = firstLine ++ 10 :: remaining ->
         ~ In 10 firstLine ->
         repeatsTitle chapter firstLine = false ->
         materialize chapter (Some fullText)
         = withContent chapter (display (sliceOf chapter fullText start)))
  /\ (~ In 10 (sliceOf chapter fullText start) ->
      materialize chapter (Some fullText)
      = withContent chapter (display (sliceOf chapter fullText start)))
  /\ materialize (materialize chapter (Some fullText)) (Some fullText)
     = materialize chapter (Some fullText).
Proof.
  intros Hlazy. rewrite (materialize_lazy _ _ _ Hlazy).
  split; [|split; [|split]].
  - intros firstLine remaining Hslice Hline Hrep.
    rewrite (rawContent_with_break _ _ _ _ _ Hslice Hline).
    unfold repeatsTitle in Hrep. now rewrite Hrep.
  - intros firstLine remaining Hslice Hline Hrep.
    rewrite (rawContent_with_break _ _ _ _ _ Hslice Hline).
    unfold repeatsTitle in Hrep. now rewrite Hrep, Hslice.
  - intros Hnone. now rewrite rawContent_no_break.
  - rewrite <- (materialize_lazy _ _ _ Hlazy). apply materialize_idempotent.
Qed.

Lemma title_line_dropped_once_witness :
  shownLazily scenarioFirst scenarioText 0
  /\ materialize scenarioFirst (Some scenarioText)
     = withContent scenarioFirst (js "<p>内容A</p><p></p>").
Proof.
  assert (H : shownLazily scenarioFirst scenarioText 0)
    by (repeat split; [now left | discriminate]).
  split; [exact H|].
  destruct (title_line_dropped_once scenarioFirst scenarioText 0 H)
    as (Hdrop & _).
  rewrite (Hdrop (js "第一章 开端") (js "内容A" ++ nl)).
  - reflexivity.
  - reflexivity.
  - vm_compute. intuition discriminate.
  - reflexivity.
Defined.

(** C8: for a chapter shown from the full text, the text that remains
    after the title line is dealt with becomes one paragraph per
    newline-delimited line: the lines are the pieces between the line
    feeds (none holds a line feed, and joined by line feeds they are the
    remaining text), there is one more of them than line feeds, each is
    wrapped as one paragraph in order, and an empty line gives an empty
    paragraph. *)
Theorem one_paragraph_per_line
    (chapter : Chapter) (fullText : jsstring) (start : Z) :
  shownLazily chapter fullText start ->
  let remaining := rawContent chapter fullText start in
  let lines := split 10 remaining in
  content (materialize chapter (Some fullText))
  = Some (join (List.map paragraph lines))
  /\ List.length (List.map paragraph lines)
     = S (count_occ Z.eq_dec remaining 10)
  /\ joinWith 10 lines = remaining
  /\ Forall (fun line => ~ In 10 line) lines
  /\ (forall i line,
         nth_error lines i = Some line ->
         nth_error (List.map paragraph lines) i
         = Some (js "<p>" ++ line ++ js "</p>"))
  /\ paragraph [] = js "<p></p>".
Proof.
  intros Hlazy remaining lines. rewrite (materialize_lazy _ _ _ Hlazy).
  split; [reflexivity|]. split.
  { rewrite length_map. apply split_length. }
  split; [apply split_joinWith|]. split; [apply split_no_sep|].
  split; [|reflexivity].
  intros i line Hi. rewrite nth_error_map, Hi. reflexivity.
Qed.

Lemma one_paragraph_per_line_witness :
  shownLazily blankLineChapter blankLineText 0
  /\ content (materialize blankLineChapter (Some blankLineText))
     = Some (js "<p>line one</p><p></p><p>line two</p>")
  /\ List.length (List.map paragraph
                    (split 10 (rawContent blankLineChapter blankLineText 0)))
     = 3%nat.
Proof.
  assert (H : shownLazily blankLineChapter blankLineText 0)
    by (repeat split; [now left | discriminate]).
  split; [exact H|].
  destruct (one_paragraph_per_line blankLineChapter blankLineText 0 H)
    as (Hcontent & Hlen & _).
  split; [rewrite Hcontent | rewrite Hlen]; reflexivity.
Defined.

(** C10, as stated, fails when the slice has no line break: in a text
    that starts with sixty spaces followed by a heading on the same line,
    the leading chapter is those sixty spaces; its only line trims to the
    empty string, and the line is shown, not dropped. *)
Lemma blank_single_line_kept :
  parseTxtContentOptimized indentedHeadingText
  = Some [prologue 60;
          mkChapter (js "chap-1") (js "Chapter 1") None 1 (Some 60) (Some 71)]
  /\ sliceOf (prologue 60) indentedHeadingText 0 = List.repeat 32 60
  /\ trim (firstLineOf (sliceOf (prologue 60) indentedHeadingText 0)) = []
  /\ content (materialize (prologue 60) (Some indentedHeadingText))
     = Some (js "<p>" ++ List.repeat 32 60 ++ js "</p>")
  /\ content (materialize (prologue 60) (Some indentedHeadingText))
     <> Some (display []).
Proof.
  split; [vm_compute; reflexivity|]. split; [vm_compute; reflexivity|].
  split; [vm_compute; reflexivity|]. split; [vm_compute; reflexivity|].
  vm_compute. discriminate.
Qed.

(** The same for a text of three spaces, which is one chapter. *)
Example three_spaces_kept :
  parseTxtContentOptimized (js "   ") = Some [wholeText (js "   ")]
  /\ content (materialize (wholeText (js "   ")) (Some (js "   ")))
     = Some (js "<p>   </p>").
Proof. split; vm_compute; reflexivity. Qed.

(** C10 (amended): for a chapter shown from the full text whose slice
    has a line break, when the text before the first line break trims to
    the empty string, that first line is dropped whatever the title is:
    the empty string is a substring of every title. *)
Theorem blank_first_line_dropped
    (chapter : Chapter) (fullText : jsstring) (start : Z)
    (firstLine remaining : jsstring) :
  shownLazily chapter fullText start ->
  sliceOf chapter fullText start = firstLine ++ 10 :: remaining ->
  ~ In 10 firstLine ->
  trim firstLine = [] ->
  materialize chapter (Some fullText)
  = withContent chapter (display remaining).
Proof.
  intros Hlazy Hslice Hline Hblank. rewrite (materialize_lazy _ _ _ Hlazy).
  rewrite (rawContent_with_break _ _ _ _ _ Hslice Hline), Hblank.
  now rewrite includes_empty, orb_true_r.
Qed.

Lemma blank_first_line_dropped_witness :
  parseTxtContentOptimized blankStartText
  = Some [prologue 62;
          mkChapter (js "chap-1") (js "Chapter 1") None 1 (Some 62) (Some 73)]
  /\ materialize (prologue 62) (Some blankStartText)
     = withContent (prologue 62) (display (List.repeat 97 60 ++ nl)).
Proof.
  split; [vm_compute; reflexivity|].
  apply (blank_first_line_dropped (prologue 62) blankStartText 0 []
           (List.repeat 97 60 ++ nl)).
  - repeat split; [now left | discriminate].
  - reflexivity.
  - intros [].
  - reflexivity.
Defined.

(** X4: a chapter that has content is shown as it is, and a chapter
    without content is shown with the loading placeholder while the full
    text is missing or empty, or when the chapter has no start offset. *)
Theorem view_of_other_chapters (chapter : Chapter) (fullText : option jsstring) :
  (forall u c, content chapter = Some (u :: c) ->
               materialize chapter fullText = chapter)
  /\ (content chapter = None ->
      fullText = None \/ fullText = Some [] \/ startStringIndex chapter = None ->
      materialize chapter fullText = withContent chapter loadingContent).
Proof.
  split.
  - intros u c. apply materialize_of_truthy.
  - intros Hc H. unfold materialize. rewrite Hc.
    destruct H as [-> | [-> | ->]]; try reflexivity.
    destruct fullText as [[|u t]|]; reflexivity.
Qed.

(** ** The text handed to the summary ([Reader.tsx]) *)

Module StripFacts.

Lemma skipRun_suffix cs s :
  exists run, s = run ++ skipRun cs s /\ forallb cs run = true.
Proof.
  induction s as [|c s (run & IH & Hrun)]; [now exists []|].
  cbn [skipRun]. destruct (cs c) eqn:Hc.
  - exists (c :: run). cbn. now rewrite Hc, Hrun, <- IH.
  - now exists [].
Qed.

Lemma afterTag_suffix s : exists tag, s = tag ++ afterTag s.
Proof.
  unfold afterTag. destruct (skipRun_suffix (fun c => negb (isGt c)) s)
    as (run & Hs & _).
  destruct (skipRun _ s) as [|g s'].
  - exists run. exact Hs.
  - exists (run ++ [g]). now rewrite <- app_assoc.
Qed.

Lemma stripScan_afterTag s : stripScan true s = stripScan false (afterTag s).
Proof.
  unfold afterTag. induction s as [|c s IH]; [reflexivity|].
  cbn [stripScan skipRun]. destruct (isGt c); cbn [negb]; [reflexivity|exact IH].
Qed.

Lemma stripScan_keeps pre s :
  ~ In 60 pre -> stripScan false (pre ++ s) = pre ++ stripScan false s.
Proof.
  induction pre as [|c pre IH]; intros Hpre; [reflexivity|].
  cbn [app stripScan]. unfold isLt.
  destruct (Z.eqb_spec c 60) as [->|_]; [exfalso; apply Hpre; now left|].
  rewrite IH; [reflexivity|]. intros H. apply Hpre. now right.
Qed.

(** Greedy repetition before a continuation that never fails stops at
    the end of the run. *)
Lemma repeatMatcher_run cs (c : Continuation) :
  (forall x, c x <> None) ->
  forall s e cap,
    repeatMatcher cs 0 None s e cap c
    = c (mkState (e + (List.length s - List.length (skipRun cs s)))
                 (skipRun cs s) cap).
Proof.
  intros Hc. induction s as [|ch tl IH]; intros e cap; cbn [repeatMatcher skipRun].
  - cbn. now rewrite Nat.add_0_r.
  - destruct (cs ch) eqn:Hch.
    + cbn [Nat.pred option_map]. rewrite IH.
      destruct (skipRun_suffix cs tl) as (run & Htl & _).
      assert (Hlen : (List.length (skipRun cs tl) <= List.length tl)%nat)
        by (rewrite Htl at 2; rewrite length_app; lia).
      replace (S e + (List.length tl - List.length (skipRun cs tl)))%nat
        with (e + (List.length (ch :: tl) - List.length (skipRun cs tl)))%nat
        by (cbn [List.length]; lia).
      destruct (c _) eqn:E; [reflexivity | now apply Hc in E].
    + do 2 f_equal. lia.
Qed.

Lemma optional_gt s e cap :
  repeatMatcher isGt 0 (Some 1%nat) s e cap Some
  = Some (match s with
          | g :: s' => if isGt g then mkState (S e) s' cap else mkState e s cap
          | [] => mkState e [] cap
          end).
Proof.
  destruct s as [|g [|h s']]; cbn; [reflexivity| |]; now destruct (isGt g).
Qed.

(** The match of the expression at a position: there is one exactly when
    the unit there is [<], and it ends where the tag ends. *)
Lemma matcher_tag input i s :
  matcher input tagRegex (mkState i s None) Some
  = match s with
    | c :: tl =>
        if isLt c
        then Some (mkState (i + (List.length s - List.length (afterTag tl)))
                           (afterTag tl) None)
        else None
    | [] => None
    end.
Proof.
  destruct s as [|c tl]; [reflexivity|].
  cbn [tagRegex matcher rest]. destruct (isLt c); [|reflexivity].
  cbn [advance endIndex capture rest].
  rewrite repeatMatcher_run.
  2: { intros x. rewrite optional_gt. discriminate. }
  cbn [rest endIndex capture]. rewrite optional_gt. unfold afterTag.
  destruct (skipRun_suffix (fun c => negb (isGt c)) tl) as (run & Htl & Hrun).
  assert (Hlen : (List.length tl
                  = List.length run
                    + List.length (skipRun (fun c => negb (isGt c)) tl))%nat)
    by (rewrite Htl at 1; apply length_app).
  destruct (skipRun (fun c => negb (isGt c)) tl) as [|g s'] eqn:Hskip.
  - do 2 f_equal. cbn [List.length] in *. lia.
  - assert (Hg : isGt g = true).
    { destruct (isGt g) eqn:E; [reflexivity|]. exfalso.
      clear - Hskip E. induction tl as [|d tl IH]; [discriminate|].
      cbn [skipRun] in Hskip. destruct (negb (isGt d)) eqn:Hd.
      - auto.
      - injection Hskip as -> _. rewrite E in Hd. discriminate. }
    rewrite Hg. do 2 f_equal. cbn [List.length] in *. lia.
Qed.

Lemma searchFrom_tag input :
  forall pre i tl,
    ~ In 60 pre ->
    searchFrom tagRegex input i (pre ++ 60 :: tl)
    = Some (mkMatch (Z.of_nat (i + List.length pre))
              (slice input (i + List.length pre)
                 (i + List.length pre
                  + (S (List.length tl) - List.length (afterTag tl))))
              None
              (i + List.length pre
               + (S (List.length tl) - List.length (afterTag tl)))).
Proof.
  induction pre as [|c pre IH]; intros i tl Hpre; cbn [app searchFrom].
  - rewrite matcher_tag. cbn [isLt]. change (isLt 60) with true. cbv iota.
    cbn [endIndex capture option_map List.length]. now rewrite Nat.add_0_r.
  - rewrite matcher_tag. unfold isLt.
    destruct (Z.eqb_spec c 60) as [->|_]; [exfalso; apply Hpre; now left|].
    rewrite IH by (intros H; apply Hpre; now right).
    cbn [List.length]. now rewrite <- Nat.add_succ_comm.
Qed.

Lemma searchFrom_no_tag input :
  forall s i, ~ In 60 s -> searchFrom tagRegex input i s = None.
Proof.
  induction s as [|c s IH]; intros i Hs; cbn [searchFrom];
    rewrite matcher_tag; [reflexivity|]. unfold isLt.
  destruct (Z.eqb_spec c 60) as [->|_]; [exfalso; apply Hs; now left|].
  apply IH. intros H. apply Hs. now right.
Qed.

(** A text is its part before the first [<], that [<] and the rest, or
    has no [<]. *)
Lemma first_lt s :
  ~ In 60 s \/ exists pre tl, s = pre ++ 60 :: tl /\ ~ In 60 pre.
Proof.
  induction s as [|c s [IH|(pre & tl & -> & Hpre)]].
  - left. intros [].
  - destruct (Z.eq_dec c 60) as [->|Hc].
    + right. exists [], s. split; [reflexivity | intros []].
    + left. intros [H|H]; [congruence | contradiction].
  - destruct (Z.eq_dec c 60) as [->|Hc].
    + right. exists [], (pre ++ 60 :: tl). split; [reflexivity | intros []].
    + right. exists (c :: pre), tl. split; [reflexivity|].
      intros [H|H]; [congruence | contradiction].
Qed.

Lemma stripScan_no_tag s : ~ In 60 s -> stripScan false s = s.
Proof.
  intros Hs. rewrite <- (app_nil_r s) at 1.
  rewrite (stripScan_keeps s [] Hs). apply app_nil_r.
Qed.

Lemma replaceLoop_tag s :
  forall fuel i acc,
    (i <= List.length s)%nat ->
    (List.length s - i < fuel)%nat ->
    replaceLoop fuel tagRegex s [] i i acc
    = Some (acc ++ stripScan false (skipn i s)).
Proof.
  induction fuel as [|fuel IH]; intros i acc Hi Hfuel; [lia|].
  cbn [replaceLoop]. unfold exec.
  destruct (Nat.leb_spec i (List.length s)) as [_|]; [|lia].
  assert (Hlen : List.length (skipn i s) = (List.length s - i)%nat)
    by apply length_skipn.
  destruct (first_lt (skipn i s)) as [Hnone|(pre & tl & Ht & Hpre)].
  - rewrite (searchFrom_no_tag s _ i Hnone).
    now rewrite (stripScan_no_tag _ Hnone).
  - rewrite Ht, (searchFrom_tag s pre i tl Hpre).
    cbn [index m0 lastIndex]. rewrite Nat2Z.id.
    destruct (afterTag_suffix tl) as (tag & Htl).
    assert (Htag : (List.length tl
                    = List.length tag + List.length (afterTag tl))%nat)
      by (rewrite Htl at 1; apply length_app).
    rewrite Ht in Hlen. rewrite length_app in Hlen. cbn [List.length] in Hlen.
    assert (Hat : skipn (i + List.length pre) s = 60 :: tl).
    { rewrite Nat.add_comm, <- skipn_skipn, Ht. apply skipn_length_app. }
    set (n := (S (List.length tl) - List.length (afterTag tl))%nat).
    assert (Hn : n = S (List.length tag)) by (unfold n; lia).
    assert (Hm0 : List.length (slice s (i + List.length pre)
                                 (i + List.length pre + n)) = n).
    { unfold slice. rewrite Hat, length_firstn. cbn [List.length]. lia. }
    rewrite Hm0.
    destruct (Nat.eqb_spec n 0) as [|_]; [lia|].
    destruct (Nat.leb_spec i (i + List.length pre)) as [_|]; [|lia].
    assert (Hgap : slice s i (i + List.length pre) = pre).
    { unfold slice. rewrite Ht.
      replace (i + List.length pre - i)%nat with (List.length pre) by lia.
      apply firstn_length_app. }
    rewrite Hgap, app_nil_r.
    destruct (Nat.eq_dec (i + List.length pre + n) (i + List.length pre + n))
      as [_|]; [|congruence].
    rewrite IH by lia.
    assert (Hrest : skipn (i + List.length pre + n) s = afterTag tl).
    { replace (i + List.length pre + n)%nat
        with (n + (i + List.length pre))%nat by lia.
      rewrite <- skipn_skipn, Hat, Hn. cbn [skipn].
      rewrite Htl at 1. apply skipn_length_app. }
    rewrite Hrest, (stripScan_keeps pre (60 :: tl) Hpre).
    cbn [stripScan]. change (isLt 60) with true. cbv iota.
    now rewrite stripScan_afterTag, <- app_assoc.
Qed.

(** The text handed to the summary is what the scanner keeps. *)
Lemma stripTags_scan (content : jsstring) :
  stripTags content = Some (stripScan false content).
Proof.
  unfold stripTags, replaceRegex.
  rewrite replaceLoop_tag by lia. reflexivity.
Qed.

(** A unit that a text does not hold, by a test of its units. *)
Lemma absent_unit (c : Z) (s : jsstring) :
  forallb (fun x => negb (x =? c)) s = true -> ~ In c s.
Proof.
  intros H Hin. rewrite forallb_forall in H. specialize (H c Hin).
  now rewrite Z.eqb_refl in H.
Qed.

Lemma stripScan_no_lt s : forall b, ~ In 60 (stripScan b s).
Proof.
  induction s as [|c s IH]; intros b; cbn [stripScan]; [intros []|].
  destruct b; [apply IH|]. unfold isLt.
  destruct (Z.eqb_spec c 60) as [_|Hc]; [apply IH|].
  intros [H|H]; [congruence | exact (IH _ H)].
Qed.

(** A tag that is closed is dropped with its two ends; a tag that is not
    closed goes to the end of the text. *)
Lemma stripScan_tag body : ~ In 62 body ->
  (forall rest, stripScan true (body ++ 62 :: rest) = stripScan false rest)
  /\ stripScan true body = [].
Proof.
  induction body as [|c body IH]; intros Hb; [now split|].
  assert (Hc : isGt c = false).
  { unfold isGt. destruct (Z.eqb_spec c 62) as [->|]; [|reflexivity].
    exfalso. apply Hb. now left. }
  destruct IH as [IH1 IH2]; [intros H; apply Hb; now right|].
  split; [intros rest|]; cbn [app stripScan]; rewrite Hc; cbn [negb]; auto.
Qed.

(** Every paragraph is stripped by itself: whatever the line holds, the
    scanner is outside a tag after the closing tag of the paragraph. *)
Lemma stripScan_line line rest :
  forall b,
    stripScan b (line ++ js "</p>" ++ rest)
    = stripScan b line ++ stripScan false rest.
Proof.
  replace (js "</p>") with [60; 47; 112; 62] by (vm_compute; reflexivity).
  induction line as [|c line IH]; intros b.
  - destruct b; reflexivity.
  - cbn [app stripScan]. destruct b; [apply IH|].
    destruct (isLt c); [apply IH|]. cbn [app]. f_equal. apply IH.
Qed.

Lemma stripScan_paragraph line rest :
  stripScan false (paragraph line ++ rest)
  = stripScan false line ++ stripScan false rest.
Proof.
  unfold paragraph.
  replace (js "<p>") with [60; 112; 62] by (vm_compute; reflexivity).
  rewrite <- !app_assoc. cbn [app stripScan]. cbn.
  apply stripScan_line.
Qed.

Lemma stripScan_paragraphs lines :
  stripScan false (join (List.map paragraph lines))
  = List.concat (List.map (stripScan false) lines).
Proof.
  unfold join. induction lines as [|line lines IH]; [reflexivity|].
  cbn [List.map List.concat]. now rewrite stripScan_paragraph, IH.
Qed.

Lemma concat_split sep s :
  List.concat (split sep s) = filter (fun c => negb (c =? sep)) s.
Proof.
  induction s as [|c s IH]; [reflexivity|]. cbn [split filter].
  destruct (c =? sep); cbn [negb List.concat app]; [exact IH|].
  rewrite <- IH. destruct (split sep s) as [|piece pieces]; reflexivity.
Qed.

Lemma split_units sep s line c :
  In line (split sep s) -> In c line -> In c s.
Proof.
  intros Hline Hc.
  assert (H : In c (List.concat (split sep s)))
    by (apply in_concat; eauto).
  rewrite concat_split in H. now apply filter_In in H.
Qed.

Lemma stripScan_plain_lines raw :
  ~ In 60 raw ->
  List.concat (List.map (stripScan false) (split 10 raw))
  = filter (fun c => negb (c =? 10)) raw.
Proof.
  intros Hraw. rewrite <- concat_split. f_equal.
  rewrite <- (map_id (split 10 raw)) at 2. apply map_ext_in.
  intros line Hline. apply stripScan_no_tag. intros H.
  exact (Hraw (split_units _ _ _ _ Hline H)).
Qed.

End StripFacts.

Import StripFacts.

(** X7: the text handed to the summary has no [<] left, stripping it
    again changes nothing, and a content without [<] is handed over as
    it is. *)
Theorem summary_text_has_no_tag (content : jsstring) :
  exists text,
    stripTags content = Some text
    /\ ~ In 60 text
    /\ stripTags text = Some text
    /\ (~ In 60 content -> text = content).
Proof.
  exists (stripScan false content).
  split; [apply stripTags_scan|]. split; [apply stripScan_no_lt|].
  split.
  - rewrite stripTags_scan. f_equal. apply stripScan_no_tag, stripScan_no_lt.
  - apply stripScan_no_tag.
Qed.

(** X8: in a content whose first [<] comes after [before], a tag that
    is closed is dropped from its [<] to its first [>] and stripping goes
    on after it; a [<] that no [>] follows takes the rest of the content
    with it, so that a text such as [1 < 2] is cut at the sign. *)
Theorem tag_dropped_to_its_end (before body : jsstring) :
  ~ In 60 before ->
  ~ In 62 body ->
  (forall rest,
      stripTags (before ++ 60 :: body ++ 62 :: rest)
      = option_map (app before) (stripTags rest))
  /\ stripTags (before ++ 60 :: body) = Some before.
Proof.
  intros Hpre Hbody. destruct (stripScan_tag body Hbody) as [Hclosed Hopen].
  split; [intros rest|]; rewrite !stripTags_scan, stripScan_keeps by exact Hpre;
    cbn [stripScan option_map]; change (isLt 60) with true; cbv iota.
  - now rewrite Hclosed.
  - now rewrite Hopen, app_nil_r.
Qed.

Lemma tag_dropped_to_its_end_witness :
  stripTags (js "a<b>c") = Some (js "ac")
  /\ stripTags (js "1 < 2") = Some (js "1 ").
Proof.
  destruct (tag_dropped_to_its_end (js "a") (js "b")) as [H _].
  - vm_compute. intuition discriminate.
  - vm_compute. intuition discriminate.
  - split; [|vm_compute; reflexivity].
    exact (H (js "c")).
Defined.

(** X9: the summary of a chapter shown from the full text gets the
    lines of the chapter's text, each stripped by itself and put together
    with nothing between them; when the text has no [<], that is the
    text without its line feeds. *)
Theorem summary_text_of_shown_chapter
    (chapter : Chapter) (fullText : jsstring) (start : Z) :
  shownLazily chapter fullText start ->
  exists html,
    content (materialize chapter (Some fullText)) = Some html
    /\ stripTags html
       = Some (List.concat (List.map (stripScan false)
                         (split 10 (rawContent chapter fullText start))))
    /\ (~ In 60 (rawContent chapter fullText start) ->
        stripTags html
        = Some (filter (fun c => negb (c =? 10))
                  (rawContent chapter fullText start))).
Proof.
  intros Hlazy. rewrite (materialize_lazy _ _ _ Hlazy).
  exists (display (rawContent chapter fullText start)).
  split; [reflexivity|]. rewrite stripTags_scan. unfold display.
  rewrite stripScan_paragraphs. split; [reflexivity|].
  intros Hraw. now rewrite stripScan_plain_lines.
Qed.

Lemma summary_text_of_shown_chapter_witness :
  shownLazily scenarioFirst scenarioText 0
  /\ exists html,
       content (materialize scenarioFirst (Some scenarioText)) = Some html
       /\ stripTags html = Some (js "内容A").
Proof.
  assert (H : shownLazily scenarioFirst scenarioText 0)
    by (repeat split; [now left | discriminate]).
  split; [exact H|].
  destruct (summary_text_of_shown_chapter scenarioFirst scenarioText 0 H)
    as (html & Hc & _ & Hplain).
  exists html. split; [exact Hc|].
  rewrite Hplain; [vm_compute; reflexivity|].
  apply absent_unit. vm_compute. reflexivity.
Defined.

(** ** Chapters of a plain-text book start with their heading *)

Module HeadingFacts.

Lemma exec_headed text li m p :
  exec chapterRegex text li = Some m -> pointOf m = Some p ->
  Headed text (Z.of_nat (lastIndex m)) p.
Proof.
  intros Hexec Hp. apply exec_shape in Hexec.
  destruct Hexec as (j & pre & c & g & post & tail & Hj & Htext & Hi & H0 & H1
                     & Hpre & Hc & Hl & Hle).
  unfold pointOf in Hp. rewrite H1 in Hp.
  destruct (rejectedTitle (trim (c :: g))); [discriminate|].
  injection Hp as <-. exists c, g, (post ++ tail). cbn [startIndex pointTitle].
  unfold titleStart. rewrite H1, H0, Hi, indexOf_after_space by assumption.
  unfold len. cbn [List.length].
  replace (Z.to_nat (Z.of_nat j + Z.of_nat (List.length pre)))
    with (List.length pre + j)%nat by lia.
  rewrite <- skipn_skipn, Htext, <- !app_assoc, skipn_length_app.
  repeat split; auto; try lia.
Qed.

Lemma chain_first lo hi p points :
  chain lo hi (p :: points) -> lo <= startIndex p.
Proof. now intros [H _]. Qed.

Lemma MatchSeq_headed text li ms :
  MatchSeq text li ms ->
  (li <= List.length text)%nat ->
  headedChain text (len text) (promoted ms).
Proof.
  induction 1 as [li _|li m ms Hexec Hms IH]; intros Hli; cbn [promoted];
    [exact I|].
  pose proof Hexec as Hshape. apply exec_titleStart in Hshape as (_ & Hle & _).
  specialize (IH Hle).
  pose proof (MatchSeq_chain _ _ _ Hms Hle) as Hchain.
  destruct (pointOf m) as [p|] eqn:Hp; [|exact IH].
  cbn [headedChain]. split; [|exact IH].
  pose proof (exec_headed _ _ _ _ Hexec Hp) as (c & g & tail & H1 & H2 & H3 & H4 & H5).
  exists c, g, tail. repeat split; auto.
  destruct (promoted ms) as [|q qs].
  - cbn [chain] in Hchain. lia.
  - apply chain_first in Hchain. lia.
Qed.

Lemma processPoints_headed text :
  forall points lo k,
    chain lo (len text) points ->
    headedChain text (len text) points ->
    Forall (HeadedChapter text) (processPoints text points k).
Proof.
  induction points as [|p points IH]; intros lo k Hchain Hhead;
    cbn [processPoints]; constructor.
  - destruct Hhead as [(c & g & tail & H1 & H2 & H3 & H4 & H5) _].
    destruct Hchain as [_ Hchain].
    exists (startIndex p),
      (match points with q :: _ => startIndex q | [] => len text end),
      c, g, tail.
    cbn [startStringIndex endStringIndex content title].
    repeat split; auto.
    destruct points as [|q qs]; [lia|].
    destruct Hchain as [_ Hchain]. apply chain_le in Hchain. lia.
  - destruct Hchain as [_ Hchain]. destruct Hhead as [_ Hhead]. eauto.
Qed.

(** ** Titles and first lines *)

Lemma includes_prefix p q : includes (p ++ q) p = true.
Proof.
  unfold includes, indexOf.
  assert (H : indexOfFrom (p ++ q) p 0 = 0).
  { destruct (p ++ q) as [|z l] eqn:E.
    - destruct p; [reflexivity | discriminate].
    - cbn [indexOfFrom]. now rewrite <- E, startsWith_app. }
  now rewrite H.
Qed.

Lemma trimStart_head s :
  match trimStart s with
  | c :: _ => isWhiteSpace c = false
  | [] => True
  end.
Proof.
  induction s as [|c s IH]; [exact I|]. cbn [trimStart].
  destruct (isWhiteSpace c) eqn:Hc; [exact IH | exact Hc].
Qed.

(** A string is its form trimmed at the end, which does not end with
    white space, followed by white space. *)
Lemma trimEnd_split s :
  exists w,
    s = trimEnd s ++ w /\ forallb isWhiteSpace w = true
    /\ (forall t c, trimEnd s = t ++ [c] -> isWhiteSpace c = false).
Proof.
  unfold trimEnd. destruct (trimStart_suffix (rev s)) as (pre & Hrev & Hpre).
  exists (rev pre). split; [|split].
  - rewrite <- rev_app_distr, <- Hrev. symmetry. apply rev_involutive.
  - rewrite forallb_forall in *. intros x Hx. apply Hpre. now apply in_rev.
  - intros t c Ht. pose proof (trimStart_head (rev s)) as Hhead.
    apply (f_equal (@rev Z)) in Ht. rewrite rev_involutive, rev_app_distr in Ht.
    cbn in Ht. now rewrite Ht in Hhead.
Qed.

Lemma trim_nonspace_head c g :
  isWhiteSpace c = false -> trim (c :: g) = trimEnd (c :: g).
Proof. intros Hc. unfold trim. cbn [trimStart]. now rewrite Hc. Qed.

Lemma trimStart_idem s : trimStart (trimStart s) = trimStart s.
Proof.
  pose proof (trimStart_head s) as H. destruct (trimStart s) as [|c t];
    [reflexivity|]. cbn [trimStart]. now rewrite H.
Qed.

Lemma trimEnd_idem s : trimEnd (trimEnd s) = trimEnd s.
Proof. unfold trimEnd. now rewrite rev_involutive, trimStart_idem. Qed.

(** Trimming at the end keeps the head of a string that starts with a
    unit that is not white space. *)
Lemma trimEnd_head c g :
  isWhiteSpace c = false -> exists t, trimEnd (c :: g) = c :: t.
Proof.
  intros Hc. destruct (trimEnd_split (c :: g)) as (w & Hs & Hw & _).
  destruct (trimEnd (c :: g)) as [|d t].
  - cbn in Hs. rewrite <- Hs in Hw. cbn in Hw. now rewrite Hc in Hw.
  - injection Hs as <- _. now exists t.
Qed.

Lemma trim_trim_head c g :
  isWhiteSpace c = false -> trim (trim (c :: g)) = trim (c :: g).
Proof.
  intros Hc. rewrite (trim_nonspace_head c g Hc).
  destruct (trimEnd_head c g Hc) as (t & Ht).
  rewrite Ht, (trim_nonspace_head c t Hc), <- Ht. apply trimEnd_idem.
Qed.

(** Of two prefixes of one string, the one that does not end with white
    space is a prefix of the one that white space follows. *)
Lemma nonspace_end_prefix (A a' B w : jsstring) :
  A ++ a' = B ++ w ->
  forallb isWhiteSpace w = true ->
  (forall t c, A = t ++ [c] -> isWhiteSpace c = false) ->
  exists z, B = A ++ z.
Proof.
  intros Heq Hw Hend. apply app_eq_app in Heq.
  destruct Heq as (y & [[HA Hy] | [HB _]]); [|now exists y].
  destruct y as [|d y] using rev_ind.
  - exists []. rewrite HA, !app_nil_r. reflexivity.
  - exfalso. clear IHy. rewrite app_assoc in HA.
    specialize (Hend _ _ HA). rewrite Hy, <- app_assoc in Hw.
    rewrite !forallb_app in Hw. cbn in Hw. rewrite Hend in Hw.
    rewrite andb_false_r in Hw. cbn in Hw. discriminate.
Qed.

(** The first line of a headed chapter and its title contain one
    another. *)
Lemma headed_first_line text ch :
  HeadedChapter text ch ->
  forall s l r,
    startStringIndex ch = Some s ->
    sliceOf ch text s = l ++ 10 :: r ->
    ~ In 10 l ->
    repeatsTitle ch l = true.
Proof.
  intros (s0 & e & c & g & tail & Hs & He & _ & Htext & Hc & Htitle & H0 & Hge
          & Hle) s l r Hs' Hslice Hl.
  rewrite Hs in Hs'. injection Hs' as <-.
  unfold sliceOf in Hslice. rewrite He in Hslice.
  rewrite substring_spec in Hslice by (pose proof (len_nonneg (c :: g)); lia).
  rewrite Htext in Hslice.
  assert (Hcut : exists tail',
             firstn (Z.to_nat (e - s0)) ((c :: g) ++ tail) = (c :: g) ++ tail').
  { exists (firstn (Z.to_nat (e - s0) - List.length (c :: g)) tail).
    rewrite firstn_app. f_equal. apply firstn_all2. unfold len in Hge. lia. }
  destruct Hcut as (tail' & Hcut). rewrite Hcut in Hslice. clear Hcut.
  unfold repeatsTitle. rewrite Htitle, (trim_trim_head c g Hc).
  rewrite (trim_nonspace_head c g Hc).
  destruct (trimEnd_split (c :: g)) as (w & HG & Hw & HGend).
  (* the first line starts with [c] *)
  assert (Hlhead : exists l', l = c :: l').
  { destruct l as [|d l']; cbn in Hslice.
    - injection Hslice as E _. rewrite E in Hc. cbn in Hc. discriminate.
    - injection Hslice as E _. exists l'. now rewrite E. }
  destruct Hlhead as (l' & ->).
  rewrite (trim_nonspace_head c l' Hc).
  destruct (trimEnd_split (c :: l')) as (wl & HL & Hwl & HLend).
  apply app_eq_app in Hslice.
  destruct Hslice as (x & [[HGx Hx] | [HLx _]]).
  - destruct x as [|d x'].
    + (* the group is the first line *)
      rewrite app_nil_r in HGx. rewrite <- HGx.
      now rewrite <- (app_nil_r (trimEnd (c :: g))) at 1; rewrite includes_prefix.
    + (* the line feed is inside the group *)
      injection Hx as <- _.
      assert (Hpre : exists z, trimEnd (c :: g) = trimEnd (c :: l') ++ z).
      { apply (nonspace_end_prefix (trimEnd (c :: l')) (wl ++ 10 :: x')
                 (trimEnd (c :: g)) w); auto.
        rewrite app_assoc, <- HL, <- HGx. exact HG. }
      destruct Hpre as (z & ->). now rewrite includes_prefix, orb_true_r.
  - (* the first line goes on after the group *)
    assert (Hpre : exists z, trimEnd (c :: l') = trimEnd (c :: g) ++ z).
    { apply (nonspace_end_prefix (trimEnd (c :: g)) (w ++ x)
               (trimEnd (c :: l')) wl); auto.
      rewrite app_assoc, <- HG, <- HLx. exact HL. }
    destruct Hpre as (z & ->). now rewrite includes_prefix.
Qed.

Lemma scanPoints_headed text points :
  scanPoints text = Some points ->
  forall k, Forall (HeadedChapter text) (processPoints text points k).
Proof.
  intros Hscan k. destruct (scanPoints_spec text) as (ms & Hms & Hscan').
  rewrite Hscan in Hscan'. injection Hscan' as ->.
  apply (processPoints_headed text (promoted ms) 0 k).
  - exact (MatchSeq_chain _ _ _ Hms (Nat.le_0_l _)).
  - exact (MatchSeq_headed _ _ _ Hms (Nat.le_0_l _)).
Qed.

Lemma headed_shown text ch :
  HeadedChapter text ch ->
  forall s l r,
    startStringIndex ch = Some s ->
    sliceOf ch text s = l ++ 10 :: r ->
    ~ In 10 l ->
    materialize ch (Some text) = withContent ch (display r).
Proof.
  intros Hh s l r Hs Hslice Hl.
  pose proof (headed_first_line text ch Hh s l r Hs Hslice Hl) as Hrep.
  assert (Hlazy : shownLazily ch text s).
  { destruct Hh as (s0 & e & c & g & tail & Hs0 & _ & Hc & _ & _ & _ & H0 & Hge
                    & Hle).
    repeat split; [now left | exact Hs |].
    intros ->. cbn in Hle. pose proof (len_nonneg g).
    unfold len in Hge, H; cbn [List.length] in Hge. lia. }
  rewrite (materialize_lazy _ _ _ Hlazy).
  rewrite (rawContent_with_break _ _ _ _ _ Hslice Hl).
  unfold repeatsTitle in Hrep. now rewrite Hrep.
Qed.

End HeadingFacts.

Import HeadingFacts.

(** X10: in a book read from plain text in which the scan accepts a
    heading, every chapter but the prologue starts with its own heading,
    so when its range has a line feed the view shows what follows the
    first line feed and never the heading line. *)
Theorem heading_line_not_shown
    (text : jsstring) (first : ChapterPoint) (points : list ChapterPoint)
    (chapters : list Chapter) (ch : Chapter) (start : Z)
    (firstLine remaining : jsstring) :
  scanPoints text = Some (first :: points) ->
  parseTxtContentOptimized text = Some chapters ->
  In ch chapters ->
  ch <> prologue (startIndex first) ->
  startStringIndex ch = Some start ->
  sliceOf ch text start = firstLine ++ 10 :: remaining ->
  ~ In 10 firstLine ->
  materialize ch (Some text) = withContent ch (display remaining).
Proof.
  intros Hscan Hparse Hin Hpre Hs Hslice Hl.
  unfold parseTxtContentOptimized in Hparse. rewrite Hscan in Hparse.
  injection Hparse as <-. cbn [buildChapters] in Hin.
  assert (Hh : HeadedChapter text ch).
  { destruct (startIndex first >? 50).
    - destruct Hin as [<- | Hin]; [congruence|].
      exact (proj1 (Forall_forall _ _) (scanPoints_headed _ _ Hscan 1) _ Hin).
    - exact (proj1 (Forall_forall _ _) (scanPoints_headed _ _ Hscan 0) _ Hin). }
  exact (headed_shown text ch Hh start firstLine remaining Hs Hslice Hl).
Qed.

Lemma heading_line_not_shown_witness :
  parseTxtContentOptimized scenarioText = Some [scenarioFirst; scenarioSecond]
  /\ materialize scenarioFirst (Some scenarioText)
     = withContent scenarioFirst (display (js "内容A" ++ nl)).
Proof.
  split; [vm_compute; reflexivity|].
  apply (heading_line_not_shown scenarioText
           (mkPoint (js "第一章 开端") 0)
           [mkPoint (js "第二章 发展") 11]
           [scenarioFirst; scenarioSecond] scenarioFirst 0
           (js "第一章 开端") (js "内容A" ++ nl)).
  - vm_compute; reflexivity.
  - vm_compute; reflexivity.
  - now left.
  - discriminate.
  - reflexivity.
  - vm_compute; reflexivity.
  - vm_compute. intuition discriminate.
Defined.

(** ** Numerals and the ids of chapters *)

Module NumeralFacts.

Lemma utf8_ascii bs :
  Forall (fun b => b < 128) bs -> utf8 bs = bs.
Proof.
  induction 1 as [|b bs Hb _ IH]; [reflexivity|]. cbn [utf8].
  destruct (Z.ltb_spec b 128); [now rewrite IH | lia].
Qed.


Lemma codes_inj s t : codes s = codes t -> s = t.
Proof.
  unfold codes. intros H.
  rewrite <- (string_of_list_ascii_of_string s),
          <- (string_of_list_ascii_of_string t). f_equal.
  revert H. generalize (list_ascii_of_string t).
  induction (list_ascii_of_string s) as [|a l IH]; intros [|b m] H;
    try discriminate; [reflexivity|].
  cbn [List.map] in H. injection H as Hab Hlm. f_equal; [|now apply IH].
  apply N2Z.inj in Hab.
  rewrite <- (ascii_N_embedding a), <- (ascii_N_embedding b). now f_equal.
Qed.

Lemma uint_units d :
  Forall (fun c => numeralUnit c = true) (codes (NilEmpty.string_of_uint d)).
Proof.
  induction d; cbn; constructor; try reflexivity; assumption.
Qed.

Lemma int_units d :
  Forall (fun c => numeralUnit c = true) (codes (NilZero.string_of_int d)).
Proof.
  assert (H : forall u, Forall (fun c => numeralUnit c = true)
                          (codes (NilZero.string_of_uint u))).
  { intros u. pose proof (uint_units u) as H. destruct u; try exact H.
    constructor; [reflexivity | constructor]. }
  destruct d as [u|u]; cbn [NilZero.string_of_int]; [apply H|].
  constructor; [reflexivity | apply H].
Qed.

Lemma numberToString_codes n :
  numberToString n = codes (NilZero.string_of_int (Z.to_int n)).
Proof.
  unfold numberToString, js. apply utf8_ascii.
  eapply Forall_impl; [|apply int_units]. intros c. unfold numeralUnit.
  intros H. apply orb_true_iff in H. destruct H as [H|H]; [|apply andb_true_iff in H]; lia.
Qed.

Lemma numberToString_units n :
  Forall (fun c => numeralUnit c = true) (numberToString n).
Proof. rewrite numberToString_codes. apply int_units. Qed.

Lemma numberToString_inj a b : numberToString a = numberToString b -> a = b.
Proof.
  rewrite !numberToString_codes. intros H. apply codes_inj in H.
  apply (f_equal NilZero.int_of_string) in H.
  rewrite !NilZero.isi in H.
  - injection H as H. now apply to_int_inj.
  - destruct b; cbn; try discriminate. intros [= E]. exact (Unsigned.to_uint_nonnil _ E).
  - destruct b; cbn; try discriminate. intros [= E]. exact (Unsigned.to_uint_nonnil _ E).
  - destruct a; cbn; try discriminate. intros [= E]. exact (Unsigned.to_uint_nonnil _ E).
  - destruct a; cbn; try discriminate. intros [= E]. exact (Unsigned.to_uint_nonnil _ E).
Qed.

(** The ids [chap-k], [chap-(k+1)], ... are pairwise distinct, and none
    is [chap-pre]. *)
Lemma chapIds_NoDup k n : NoDup (List.map (chapId k) (seq 0 n)).
Proof.
  apply Injective_map_NoDup; [|apply seq_NoDup].
  intros i j H. unfold chapId in H. apply app_inv_head in H.
  apply numberToString_inj in H. lia.
Qed.

Lemma chapId_not_pre k i : chapId k i <> js "chap-pre".
Proof.
  unfold chapId. change (js "chap-pre") with (js "chap-" ++ [112; 114; 101]).
  intros H. apply app_inv_head in H.
  pose proof (numberToString_units (k + Z.of_nat i)) as Hu.
  rewrite H in Hu. inversion Hu as [|c l Hc _]. discriminate.
Qed.

Lemma processPoints_ids text points :
  forall k,
    List.map id (processPoints text points k)
    = List.map (chapId k) (seq 0 (List.length points)).
Proof.
  induction points as [|p points IH]; intros k; [reflexivity|].
  cbn [processPoints List.map List.length seq id]. f_equal.
  - unfold chapId. now rewrite Z.add_0_r.
  - rewrite IH, <- seq_shift, List.map_map. apply List.map_ext.
    intros i. unfold chapId. do 2 f_equal. lia.
Qed.

Lemma loadSpine_ids toc items :
  forall index,
    List.map id (fst (loadSpine toc items index))
    = List.map (chapId index)
        (seq 0 (List.length (List.filter loaded items))).
Proof.
  induction items as [|item items IH]; intros index; [reflexivity|].
  cbn [loadSpine List.filter]. unfold loaded at 1.
  destruct (load item) as [doc|].
  - specialize (IH (index + 1)).
    destruct (loadSpine toc items (index + 1)) as [chs warned].
    cbn [fst List.map List.length seq id] in *. f_equal.
    + unfold chapId. now rewrite Z.add_0_r.
    + rewrite IH, <- seq_shift, List.map_map. apply List.map_ext.
      intros i. unfold chapId. do 2 f_equal. lia.
  - specialize (IH index).
    destruct (loadSpine toc items index) as [chs warned]. exact IH.
Qed.

Lemma buildChapters_ids text points :
  NoDup (List.map id (buildChapters text points)).
Proof.
  unfold buildChapters. destruct points as [|first points].
  - repeat constructor. intros [].
  - destruct (startIndex first >? 50).
    + cbn [List.map]. constructor.
      * rewrite processPoints_ids. intros H. apply in_map_iff in H.
        destruct H as (i & H & _). exact (chapId_not_pre _ _ H).
      * rewrite processPoints_ids. apply chapIds_NoDup.
    + rewrite processPoints_ids. apply chapIds_NoDup.
Qed.

(** The chapters of a book that was parsed have ids of their own. *)
Lemma parseFile_ids host file r :
  parseFile host file = Resolved r -> NoDup (List.map id (chapters r)).
Proof.
  unfold parseFile.
  destruct (JS.eqb (extension file) (js "txt")).
  - destruct (detectEncoding host file) as [encoding| |]; cbn [await];
      try discriminate.
    destruct (readAsArrayBuffer host (bytes file)) as [[buffer|]|];
      try discriminate.
    destruct (TextDecoder host encoding) as [decode|]; try discriminate.
    unfold parseTxtContentOptimized.
    destruct (scanPoints (decode buffer)) as [points|]; cbn [option_map];
      try discriminate.
    intros [= <-]. cbn [chapters]. apply buildChapters_ids.
  - destruct (JS.eqb (extension file) (js "docx")).
    + destruct (mammoth host) as [convertToHtml|]; try discriminate.
      destruct (readAsArrayBuffer host (bytes file)) as [arrayBuffer|];
        try discriminate.
      destruct (convertToHtml arrayBuffer) as [html|]; try discriminate.
      intros [= <-]. cbn. repeat constructor. intros [].
    + destruct (JS.eqb (extension file) (js "epub")); try discriminate.
      destruct (ePub host) as [open|]; try discriminate.
      destruct (readAsArrayBuffer host (bytes file)) as [arrayBuffer|];
        try discriminate.
      destruct (open arrayBuffer) as [book|]; try discriminate.
      intros [= <-]. cbn [chapters]. rewrite loadSpine_ids.
      apply chapIds_NoDup.
Qed.

End NumeralFacts.

Import NumeralFacts.

(** X11: the chapters of a file that is parsed have ids that are
    pairwise distinct, whatever the format of the file. *)
Theorem chapter_ids_distinct (host : Host) (file : File) (r : ParseResult) :
  parseFile host file = Resolved r ->
  NoDup (List.map id (chapters r)).
Proof. apply parseFile_ids. Qed.

Lemma chapter_ids_distinct_witness :
  NoDup (List.map id (chapters twoChapterResult)).
Proof.
  apply (chapter_ids_distinct txtHost twoChapterFile twoChapterResult).
  vm_compute. reflexivity.
Defined.

(** ** The library store, the shelf and the handlers *)

Module DictFacts.

Lemma eqb_eq a b : JS.eqb a b = true <-> a = b.
Proof. unfold JS.eqb. destruct (list_eq_dec Z.eq_dec a b); split; congruence. Qed.

Lemma eqb_refl a : JS.eqb a a = true.
Proof. now apply eqb_eq. Qed.

Lemma eqb_neq a b : a <> b -> JS.eqb a b = false.
Proof.
  intros H. destruct (JS.eqb a b) eqn:E; [|reflexivity].
  apply eqb_eq in E. contradiction.
Qed.

Lemma lookup_assign_same {V : Type} k (v : V) d :
  lookup k (assign k v d) = Some v.
Proof.
  induction d as [|[k' v'] d IH]; cbn [assign lookup].
  - now rewrite eqb_refl.
  - destruct (JS.eqb k' k) eqn:E; cbn [lookup].
    + now rewrite eqb_refl.
    + now rewrite E.
Qed.

Lemma lookup_assign_other {V : Type} k k0 (v : V) d :
  k0 <> k -> lookup k0 (assign k v d) = lookup k0 d.
Proof.
  intros Hk. induction d as [|[k' v'] d IH]; cbn [assign lookup].
  - now rewrite (eqb_neq k k0) by congruence.
  - destruct (JS.eqb k' k) eqn:E; cbn [lookup].
    + apply eqb_eq in E. subst k'. now rewrite (eqb_neq k k0) by congruence.
    + now rewrite IH.
Qed.

Lemma lookup_remove_same {V : Type} k (d : Dict V) :
  lookup k (remove k d) = None.
Proof.
  unfold remove. induction d as [|[k' v'] d IH]; [reflexivity|].
  cbn [filter fst]. destruct (JS.eqb k' k) eqn:E; cbn [negb lookup];
    [exact IH | now rewrite E].
Qed.

Lemma lookup_remove_other {V : Type} k k0 (d : Dict V) :
  k0 <> k -> lookup k0 (remove k d) = lookup k0 d.
Proof.
  intros Hk. unfold remove. induction d as [|[k' v'] d IH]; [reflexivity|].
  cbn [filter fst lookup]. destruct (JS.eqb k' k) eqn:E; cbn [negb lookup].
  - apply eqb_eq in E. subst k'. now rewrite (eqb_neq k k0) by congruence.
  - now rewrite IH.
Qed.

End DictFacts.

Import DictFacts.


Module StoreFacts.

Lemma keyLt_irrefl a : keyLt a a = false.
Proof.
  induction a as [|x a IH]; [reflexivity|]. cbn [keyLt].
  now rewrite Z.ltb_irrefl.
Qed.

Lemma keyLt_trans a : forall b c,
  keyLt a b = true -> keyLt b c = true -> keyLt a c = true.
Proof.
  induction a as [|x a IH]; intros [|y b] [|z c]; cbn [keyLt]; try congruence.
  destruct (Z.ltb_spec x y), (Z.ltb_spec y x), (Z.ltb_spec y z),
    (Z.ltb_spec z y), (Z.ltb_spec x z), (Z.ltb_spec z x);
    try congruence; try lia.
  apply IH.
Qed.

Lemma keyLt_total a : forall b,
  keyLt a b = false -> JS.eqb b a = false -> keyLt b a = true.
Proof.
  induction a as [|x a IH]; intros [|y b]; cbn [keyLt]; try congruence.
  - intros _ H. now rewrite eqb_refl in H.
  - destruct (Z.ltb_spec x y), (Z.ltb_spec y x); try congruence; try lia.
    assert (x = y) by lia. subst y. intros Hlt Hne. apply IH; [exact Hlt|].
    apply eqb_neq. intros ->. now rewrite eqb_refl in Hne.
Qed.

Lemma get_put_same b rs : get (key b) (put b rs) = Some b.
Proof.
  unfold get. induction rs as [|r rs IH]; cbn [put find].
  - now rewrite eqb_refl.
  - destruct (JS.eqb (key r) (key b)) eqn:E; cbn [find].
    + now rewrite eqb_refl.
    + destruct (keyLt (key b) (key r)); cbn [find].
      * now rewrite eqb_refl.
      * now rewrite E.
Qed.

Lemma get_put_other b k rs :
  k <> key b -> get k (put b rs) = get k rs.
Proof.
  intros Hk. unfold get. induction rs as [|r rs IH]; cbn [put find].
  - now rewrite (eqb_neq (key b) k) by congruence.
  - destruct (JS.eqb (key r) (key b)) eqn:E; cbn [find].
    + apply eqb_eq in E. rewrite E.
      now rewrite (eqb_neq (key b) k) by congruence.
    + destruct (keyLt (key b) (key r)); cbn [find].
      * now rewrite (eqb_neq (key b) k) by congruence.
      * now rewrite IH.
Qed.

Lemma get_key k rs r : get k rs = Some r -> key r = k /\ In r rs.
Proof.
  unfold get. intros H. apply find_some in H as [Hin H].
  now apply eqb_eq in H.
Qed.

Lemma get_delete_same k rs : get k (delete k rs) = None.
Proof.
  unfold get, delete. induction rs as [|r rs IH]; [reflexivity|].
  cbn [filter]. destruct (JS.eqb (key r) k) eqn:E; cbn [negb find];
    [exact IH | now rewrite E].
Qed.

Lemma get_delete_other k k0 rs :
  k0 <> k -> get k0 (delete k rs) = get k0 rs.
Proof.
  intros Hk. unfold get, delete. induction rs as [|r rs IH]; [reflexivity|].
  cbn [filter find]. destruct (JS.eqb (key r) k) eqn:E; cbn [negb find].
  - apply eqb_eq in E. now rewrite (eqb_neq (key r) k0) by congruence.
  - now rewrite IH.
Qed.

Lemma put_In b rs x : In x (put b rs) -> x = b \/ In x rs.
Proof.
  induction rs as [|r rs IH]; cbn [put].
  - intros [<-|[]]. now left.
  - destruct (JS.eqb (key r) (key b)).
    + intros [<-|H]; [now left | right; now right].
    + destruct (keyLt (key b) (key r)).
      * intros [<-|H]; [now left | now right].
      * intros [<-|H]; [right; now left|].
        destruct (IH H); [now left | right; now right].
Qed.

Lemma put_keyOrdered b rs : keyOrdered rs -> keyOrdered (put b rs).
Proof.
  unfold keyOrdered. induction 1 as [|r rs Hrs IH Hr]; cbn [put].
  - repeat constructor.
  - destruct (JS.eqb (key r) (key b)) eqn:E.
    + apply eqb_eq in E. constructor; [exact Hrs|]. now rewrite <- E.
    + destruct (keyLt (key b) (key r)) eqn:L.
      * constructor; [now constructor|]. constructor; [exact L|].
        eapply Forall_impl; [|exact Hr]. intros x Hx. cbv beta in *.
        exact (keyLt_trans _ _ _ L Hx).
      * constructor; [exact IH|]. apply Forall_forall. intros x Hx.
        apply put_In in Hx as [->|Hx].
        -- now apply keyLt_total.
        -- exact (proj1 (Forall_forall _ _) Hr x Hx).
Qed.

Lemma delete_keyOrdered k rs : keyOrdered rs -> keyOrdered (delete k rs).
Proof.
  unfold keyOrdered, delete. induction 1 as [|r rs Hrs IH Hr]; cbn [filter].
  - constructor.
  - destruct (negb (JS.eqb (key r) k)); [|exact IH].
    constructor; [exact IH|]. apply Forall_forall. intros x Hx.
    apply filter_In in Hx as [Hx _].
    exact (proj1 (Forall_forall _ _) Hr x Hx).
Qed.

Lemma keyOrdered_NoDup rs : keyOrdered rs -> NoDup (List.map key rs).
Proof.
  induction 1 as [|r rs Hrs IH Hr]; cbn [List.map]; constructor; [|exact IH].
  intros Hin. apply in_map_iff in Hin as (x & Hk & Hx).
  pose proof (proj1 (Forall_forall _ _) Hr x Hx) as Hlt. cbv beta in Hlt.
  rewrite Hk, keyLt_irrefl in Hlt. discriminate.
Qed.

End StoreFacts.

Import StoreFacts.

Module ShelfFacts.

Lemma insertBook_perm b l : Permutation (b :: l) (insertBook b l).
Proof.
  induction l as [|x l IH]; cbn [insertBook]; [reflexivity|].
  destruct (shelfTime x <=? shelfTime b); [reflexivity|].
  rewrite perm_swap. now constructor.
Qed.

Lemma sortBooks_perm l : Permutation l (sortBooks l).
Proof.
  induction l as [|b l IH]; cbn [sortBooks fold_right]; [constructor|].
  rewrite <- insertBook_perm. now constructor.
Qed.

Lemma insertBook_sorted b l :
  StronglySorted (fun x y => shelfTime y <= shelfTime x) l ->
  StronglySorted (fun x y => shelfTime y <= shelfTime x) (insertBook b l).
Proof.
  induction 1 as [|x l Hl IH Hx]; cbn [insertBook].
  - repeat constructor.
  - destruct (Z.leb_spec (shelfTime x) (shelfTime b)) as [Hle|Hgt].
    + constructor; [now constructor|]. constructor; [exact Hle|].
      eapply Forall_impl; [|exact Hx]. cbv beta. intros y Hy. lia.
    + constructor; [exact IH|]. apply Forall_forall. intros y Hy.
      apply (Permutation_in _ (Permutation_sym (insertBook_perm b l))) in Hy.
      destruct Hy as [<-|Hy]; [lia|].
      exact (proj1 (Forall_forall _ _) Hx y Hy).
Qed.

Lemma sortBooks_sorted l :
  StronglySorted (fun x y => shelfTime y <= shelfTime x) (sortBooks l).
Proof.
  induction l as [|b l IH]; cbn [sortBooks fold_right]; [constructor|].
  now apply insertBook_sorted.
Qed.

Lemma insertBook_stable t b l :
  filter (fun x => shelfTime x =? t) (insertBook b l)
  = filter (fun x => shelfTime x =? t) (b :: l).
Proof.
  induction l as [|x l IH]; cbn [insertBook]; [reflexivity|].
  destruct (Z.leb_spec (shelfTime x) (shelfTime b)) as [Hle|Hgt];
    [reflexivity|].
  cbn [filter] in *. rewrite IH.
  destruct (Z.eqb_spec (shelfTime x) t), (Z.eqb_spec (shelfTime b) t);
    try reflexivity. lia.
Qed.

Lemma sortBooks_stable t l :
  filter (fun x => shelfTime x =? t) (sortBooks l)
  = filter (fun x => shelfTime x =? t) l.
Proof.
  induction l as [|b l IH]; cbn [sortBooks fold_right]; [reflexivity|].
  fold (sortBooks l). rewrite insertBook_stable. cbn [filter].
  now rewrite IH.
Qed.

(** What [refreshLibrary] does. *)
Lemma refreshLibrary_run s :
  refreshLibrary s
  = (Resolved tt,
     if opens (database s) && negb (fails (database s) GetAll)
     then mkSys (setLibrary (sortBooks (records (database s))) (state s))
                (database s) (ticks s) (alerts s) (sent s)
     else s).
Proof.
  unfold refreshLibrary, tryCatch, bind, onDatabase, getAllBooksMetadata,
    initDB, set, ret.
  destruct s as [st db n al sn]. cbn [database state ticks alerts sent].
  destruct (opens db); [|reflexivity].
  destruct (fails db GetAll); reflexivity.
Qed.

End ShelfFacts.

Import ShelfFacts.

(** X17: [refreshLibrary] always resolves.  When the store can be
    read, the shelf is a rearrangement of the records of the store by
    decreasing time (the time last read, or the time added when the book
    was never read), in which books of the same time keep the order of
    the store; when the store cannot be read, the shelf stays as it
    was. *)
Theorem shelf_order (s : Sys) :
  exists shelf,
    refreshLibrary s
    = (Resolved tt,
       mkSys (setLibrary shelf (state s)) (database s) (ticks s) (alerts s)
             (sent s))
    /\ (opens (database s) = true ->
        fails (database s) GetAll = false ->
        Permutation (records (database s)) shelf
        /\ StronglySorted (fun a b => shelfTime b <= shelfTime a) shelf
        /\ forall t,
             filter (fun b => shelfTime b =? t) shelf
             = filter (fun b => shelfTime b =? t) (records (database s)))
    /\ (opens (database s) = false \/ fails (database s) GetAll = true ->
        shelf = library (state s)).
Proof.
  rewrite refreshLibrary_run.
  destruct (opens (database s)) eqn:Ho; cbn [andb].
  - destruct (fails (database s) GetAll) eqn:Hf; cbn [negb].
    + exists (library (state s)). split; [|split].
      * destruct s as [[] db n al sn]; reflexivity.
      * discriminate.
      * reflexivity.
    + exists (sortBooks (records (database s))). split; [reflexivity|]. split.
      * intros _ _. split; [apply sortBooks_perm|].
        split; [apply sortBooks_sorted | intros t; apply sortBooks_stable].
      * intros [H|H]; discriminate.
  - exists (library (state s)). split; [|split].
    + destruct s as [[] db n al sn]; reflexivity.
    + discriminate.
    + reflexivity.
Qed.

Module HandlerFacts.

Lemma healthy_withRecords db rs : healthy db -> healthy (withRecords db rs).
Proof. intros [Ho Hf]. split; [exact Ho | exact Hf]. Qed.

Lemma updateBookLastRead_healthy id t db :
  healthy db ->
  updateBookLastRead id t db
  = (Resolved tt,
     match get id (records db) with
     | Some data => withRecords db (put (withLastRead data t) (records db))
     | None => db
     end).
Proof.
  intros [Ho Hf]. unfold updateBookLastRead, initDB. rewrite Ho, Hf.
  destruct (get id (records db)); [now rewrite Hf | reflexivity].
Qed.

Lemma getBookFromDB_healthy id db :
  healthy db ->
  getBookFromDB id db = (Resolved (get id (records db)), db).
Proof.
  intros [Ho Hf]. unfold getBookFromDB, initDB. now rewrite Ho, Hf.
Qed.

Lemma saveBookToDB_healthy b db :
  healthy db ->
  saveBookToDB b db = (Resolved tt, withRecords db (put b (records db))).
Proof.
  intros [Ho Hf]. unfold saveBookToDB, initDB. now rewrite Ho, Hf.
Qed.

Lemma deleteBookFromDB_healthy id db :
  healthy db ->
  deleteBookFromDB id db
  = (Resolved tt, withRecords db (delete id (records db))).
Proof.
  intros [Ho Hf]. unfold deleteBookFromDB, initDB. now rewrite Ho, Hf.
Qed.

Lemma refreshLibrary_healthy s :
  healthy (database s) ->
  refreshLibrary s
  = (Resolved tt,
     mkSys (setLibrary (sortBooks (records (database s))) (state s))
           (database s) (ticks s) (alerts s) (sent s)).
Proof.
  intros [Ho Hf]. rewrite refreshLibrary_run, Ho, Hf. reflexivity.
Qed.

Section Open.

Variable host : Host.
Variable time : nat -> Z.

Lemma handleOpenFromLibrary_run lb s record r :
  healthy (database s) ->
  get (key lb) (records (database s)) = Some record ->
  parseFile host (mkFile (fileName (metadata record)) (blob record))
  = Resolved r ->
  let record' := withLastRead record (time (ticks s)) in
  let db' := withRecords (database s) (put record' (records (database s))) in
  handleOpenFromLibrary host time lb s
  = (Resolved tt,
     mkSys
       (mkApp
          (Some (mkOpenBook (metadata (withLastRead record'
                                         (time (S (ticks s)))))
                            (chapters r)))
          (match fullText r with
           | Some (u :: text) => Some (u :: text)
           | _ => None
           end)
          (restoredIndex (lookup (key record) (progress (state s)))
                         (chapters r) (currentChapterIndex (state s)))
          (progress (state s)) (bookmarks (state s))
          (sortBooks (records db')) false false
          (aiSummary (state s)) (aiLoading (state s)))
       db' (S (S (ticks s))) (alerts s) (sent s)).
Proof.
  intros Hh Hget Hparse record' db'.
  pose proof (healthy_withRecords _ (put record' (records (database s))) Hh)
    as Hh'.
  unfold handleOpenFromLibrary, finally, tryCatch, bind, set, Date_now,
    onDatabase, awaitPromise, read.
  destruct s as [st db n al sn]. cbn [state database ticks alerts sent] in *.
  rewrite (updateBookLastRead_healthy _ _ _ Hh), Hget.
  fold record'. fold db'.
  rewrite (getBookFromDB_healthy _ _ Hh').
  destruct (get_key _ _ _ Hget) as [Hkey _].
  assert (Hget' : get (key lb) (records db') = Some record').
  { unfold db'. cbn [records withRecords]. rewrite <- Hkey.
    exact (get_put_same record' _). }
  unfold db' in Hget'. rewrite Hget'. cbn [state database ticks alerts sent].
  change (fileName (metadata record')) with (fileName (metadata record)).
  change (blob record') with (blob record).
  rewrite Hparse. cbn [state database ticks alerts sent].
  change (key record') with (key record).
  unfold restoredIndex.
  destruct (fullText r) as [[|u text]|];
    unfold ret; cbv beta iota;
    cbn [state database ticks alerts sent setFullText setBook setLoading
         progress];
    (destruct (lookup (key record) (progress st)) as [saved|];
     [destruct (findIndex _ (chapters r) >=? 0)|];
     cbv beta iota;
     cbn [state database ticks alerts sent];
     rewrite refreshLibrary_healthy by exact Hh';
     reflexivity).
Qed.

End Open.

Lemma findIndexFrom_nth (l : list Chapter) :
  forall i c k,
    NoDup (List.map id l) ->
    nth_error l i = Some c ->
    findIndexFrom (fun c' => JS.eqb (id c') (id c)) l k = k + Z.of_nat i.
Proof.
  induction l as [|x l IH]; intros [|i] c k Hnd Hnth; cbn in Hnth;
    try discriminate; cbn [findIndexFrom].
  - injection Hnth as ->. rewrite eqb_refl. lia.
  - inversion Hnd as [|? ? Hx Hl]; subst.
    rewrite eqb_neq.
    + rewrite (IH i c (k + 1) Hl Hnth). lia.
    + intros E. apply Hx. rewrite E. apply in_map.
      exact (nth_error_In _ _ Hnth).
Qed.

Lemma findIndexFrom_none {A : Type} (p : A -> bool) (l : list A) :
  forall k, (forall x, In x l -> p x = false) -> findIndexFrom p l k = -1.
Proof.
  induction l as [|x l IH]; intros k H; [reflexivity|].
  cbn [findIndexFrom]. rewrite (H x) by now left.
  apply IH. intros y Hy. apply H. now right.
Qed.

Lemma handleUpdateProgress_run percentage s b c :
  book (state s) = Some b ->
  0 <= currentChapterIndex (state s) ->
  nth_error (bookChapters b) (Z.to_nat (currentChapterIndex (state s)))
  = Some c ->
  handleUpdateProgress percentage s
  = (Resolved tt,
     mkSys (setProgress
              (assign (bookId (bookMetadata b))
                 (mkProgress (bookId (bookMetadata b)) (id c) (title c)
                    (currentChapterIndex (state s))
                    (Z.of_nat (List.length (bookChapters b))) percentage))
              (state s))
           (database s) (ticks s) (alerts s) (sent s)).
Proof.
  intros Hb H0 Hc. unfold handleUpdateProgress, bind, read, set.
  rewrite Hb. destruct (Z.ltb_spec (currentChapterIndex (state s)) 0); [lia|].
  now rewrite Hc.
Qed.

End HandlerFacts.

Import HandlerFacts.

(** X12: the reading position survives closing the book.  When the
    progress saved by [handleUpdateProgress] at a chapter of the open book
    is still the progress kept for that book, and the record of the book
    parses to the same chapters, opening the book from the shelf ends with
    the book open at the index of that chapter. *)
Theorem reading_position_restored
    (host : Host) (time : nat -> Z) (s later : Sys) (b : Book)
    (current : Chapter) (percentage : float64)
    (libraryBook record : LibraryBook) (data : ParseResult) :
  book (state s) = Some b ->
  0 <= currentChapterIndex (state s) ->
  nth_error (bookChapters b) (Z.to_nat (currentChapterIndex (state s)))
  = Some current ->
  lookup (bookId (bookMetadata b)) (progress (state later))
  = lookup (bookId (bookMetadata b))
           (progress (state (snd (handleUpdateProgress percentage s)))) ->
  healthy (database later) ->
  key libraryBook = bookId (bookMetadata b) ->
  get (key libraryBook) (records (database later)) = Some record ->
  parseFile host (mkFile (fileName (metadata record)) (blob record))
  = Resolved data ->
  chapters data = bookChapters b ->
  let after := handleOpenFromLibrary host time libraryBook later in
  fst after = Resolved tt
  /\ option_map bookChapters (book (state (snd after)))
     = Some (bookChapters b)
  /\ currentChapterIndex (state (snd after))
     = currentChapterIndex (state s).
Proof.
  intros Hb H0 Hcur Hsaved Hh Hkey Hget Hparse Hchs.
  rewrite (handleOpenFromLibrary_run host time _ _ _ _ Hh Hget Hparse).
  cbn [fst snd state book currentChapterIndex option_map bookChapters].
  split; [reflexivity|]. split; [now rewrite Hchs|].
  destruct (get_key _ _ _ Hget) as [Hk _]. rewrite Hk, Hkey, Hsaved.
  rewrite (handleUpdateProgress_run _ _ _ _ Hb H0 Hcur).
  cbn [snd state progress setProgress]. rewrite lookup_assign_same.
  unfold restoredIndex, findIndex. cbn [currentChapterId].
  pose proof (parseFile_ids _ _ _ Hparse) as Hnd.
  rewrite Hchs in *.
  rewrite (findIndexFrom_nth _ _ _ 0 Hnd Hcur).
  destruct (Z.geb_spec (0 + Z.of_nat (Z.to_nat (currentChapterIndex (state s)))) 0);
    lia.
Qed.

Lemma reading_position_restored_witness :
  let later := snd (closeBook (snd (handleUpdateProgress 0 readingSys))) in
  book (state later) = None
  /\ currentChapterIndex
       (state (snd (handleOpenFromLibrary txtHost sampleClock novelRecord
                      later)))
     = 1.
Proof.
  split; [vm_compute; reflexivity|].
  apply (reading_position_restored txtHost sampleClock readingSys
           (snd (closeBook (snd (handleUpdateProgress 0 readingSys))))
           novelBook
           (mkChapter (js "chap-1") (js "Chapter 2") None 1 (Some 14)
                      (Some 27))
           0 novelRecord novelRecord twoChapterResult).
  - reflexivity.
  - vm_compute. discriminate.
  - vm_compute. reflexivity.
  - vm_compute. reflexivity.
  - split; [reflexivity | intros r; reflexivity].
  - vm_compute. reflexivity.
  - vm_compute. reflexivity.
  - vm_compute. reflexivity.
  - reflexivity.
Defined.

(** X13: when the progress kept for a book names a chapter id that the
    parsed chapters do not have, opening the book leaves the chapter index
    as it was before the book was opened; when that index is outside the
    chapters of the book, the view is the TypeError of reading a chapter
    that is not there. *)
Theorem missing_chapter_keeps_previous_index
    (host : Host) (time : nat -> Z) (s : Sys)
    (libraryBook record : LibraryBook) (data : ParseResult)
    (saved : ReadingProgress) :
  healthy (database s) ->
  get (key libraryBook) (records (database s)) = Some record ->
  parseFile host (mkFile (fileName (metadata record)) (blob record))
  = Resolved data ->
  lookup (key libraryBook) (progress (state s)) = Some saved ->
  ~ In (currentChapterId saved) (List.map id (chapters data)) ->
  let after := handleOpenFromLibrary host time libraryBook s in
  fst after = Resolved tt
  /\ option_map bookChapters (book (state (snd after)))
     = Some (chapters data)
  /\ currentChapterIndex (state (snd after))
     = currentChapterIndex (state s)
  /\ (Z.of_nat (List.length (chapters data)) <= currentChapterIndex (state s)
      \/ currentChapterIndex (state s) < 0 ->
      shown (state (snd after)) = TypeError).
Proof.
  intros Hh Hget Hparse Hsaved Hmiss.
  rewrite (handleOpenFromLibrary_run host time _ _ _ _ Hh Hget Hparse).
  cbn [fst snd state book currentChapterIndex option_map bookChapters].
  destruct (get_key _ _ _ Hget) as [Hk _]. rewrite Hk, Hsaved.
  assert (Hidx : restoredIndex (Some saved) (chapters data)
                   (currentChapterIndex (state s))
                 = currentChapterIndex (state s)).
  { unfold restoredIndex, findIndex. rewrite findIndexFrom_none; [reflexivity|].
    intros c Hc. apply eqb_neq. intros E. apply Hmiss. rewrite <- E.
    now apply in_map. }
  rewrite Hidx. split; [reflexivity|]. split; [reflexivity|].
  split; [reflexivity|].
  intros Hout. unfold shown, activeChapterData.
  cbn [book option_map bookChapters currentChapterIndex loadedText].
  destruct (Z.ltb_spec (currentChapterIndex (state s)) 0); [reflexivity|].
  destruct Hout as [Hout|Hout]; [|lia].
  destruct (nth_error (chapters data) _) eqn:E; [|reflexivity].
  assert (nth_error (chapters data) (Z.to_nat (currentChapterIndex (state s))) <> None) as Hn by congruence.
  apply nth_error_Some in Hn. lia.
Qed.

Lemma missing_chapter_keeps_previous_index_witness :
  currentChapterIndex
    (state (snd (handleOpenFromLibrary txtHost sampleClock novelRecord
                   staleSys)))
  = 5
  /\ shown (state (snd (handleOpenFromLibrary txtHost sampleClock
                          novelRecord staleSys)))
     = TypeError.
Proof.
  destruct (missing_chapter_keeps_previous_index txtHost sampleClock staleSys
              novelRecord novelRecord twoChapterResult
              (mkProgress (js "novel.txt-27") (js "chap-9") (js "Chapter 10")
                          9 12 0))
    as (_ & _ & Hidx & Hshown).
  - split; [reflexivity | intros r; reflexivity].
  - vm_compute. reflexivity.
  - vm_compute. reflexivity.
  - vm_compute. reflexivity.
  - vm_compute. intuition discriminate.
  - split; [exact Hidx|]. apply Hshown. left. vm_compute. discriminate.
Defined.

(** X21: a bookmark is added at the end of the bookmarks of the open
    book, with the first reading of the clock as its id and the second as
    its time; deleting it again gives back the bookmarks of before
    without those that had the same id (bookmarks made in the same
    millisecond go together).  The bookmarks of the other books are not
    touched. *)
Theorem bookmark_added_then_deleted
    (time : nat -> Z) (s : Sys) (b : Book) (chapter textSnippet : jsstring)
    (percentage : float64) :
  book (state s) = Some b ->
  let this := bookId (bookMetadata b) in
  let newId := numberToString (time (ticks s)) in
  let added := snd (handleAddBookmark time chapter textSnippet percentage s) in
  let deleted := snd (handleDeleteBookmark newId added) in
  bookmarksOf this (state added)
  = bookmarksOf this (state s)
    ++ [mkBookmark newId chapter textSnippet percentage
                   (time (S (ticks s)))]
  /\ bookmarksOf this (state deleted)
     = filter (fun bm => negb (JS.eqb (bookmarkId bm) newId))
              (bookmarksOf this (state s))
  /\ forall other,
       other <> this ->
       bookmarksOf other (state added) = bookmarksOf other (state s)
       /\ bookmarksOf other (state deleted) = bookmarksOf other (state s).
Proof.
  intros Hb this newId. subst this newId.
  unfold handleAddBookmark, handleDeleteBookmark, bind, read, set, Date_now.
  rewrite Hb. cbn [snd state ticks book setBookmarks]. rewrite Hb.
  cbn [snd state bookmarks]. unfold bookmarksOf, setBookmarks.
  cbn [bookmarks]. cbv beta. rewrite !lookup_assign_same.
  split; [reflexivity|]. split.
  - rewrite filter_app. cbn [filter bookmarkId]. rewrite eqb_refl.
    cbn [negb]. now rewrite app_nil_r.
  - intros other Hother. now rewrite !lookup_assign_other by exact Hother.
Qed.

Lemma bookmark_added_then_deleted_witness :
  bookmarksOf (bookId (bookMetadata novelBook))
    (state (snd (handleAddBookmark sampleClock (js "chap-1") (js "two") 0
                   readingSys)))
  = [mkBookmark (js "2000") (js "chap-1") (js "two") 0 2001].
Proof.
  destruct (bookmark_added_then_deleted sampleClock readingSys novelBook
              (js "chap-1") (js "two") 0 eq_refl)
    as (Hadd & _).
  rewrite Hadd. vm_compute. reflexivity.
Defined.

(** X20: deleting a book, once confirmed, forgets its progress and its
    bookmarks and leaves those of the other books; when the store works,
    the record is gone from the store and from the shelf; when the store
    fails, the handler throws with the book still in the store and on the
    shelf, its progress and bookmarks already forgotten.  Without
    confirmation nothing changes. *)
Theorem deleted_book_forgotten (id : jsstring) (s : Sys) :
  let after := handleDeleteBook id true s in
  lookup id (progress (state (snd after))) = None
  /\ lookup id (bookmarks (state (snd after))) = None
  /\ (forall other,
        other <> id ->
        lookup other (progress (state (snd after)))
        = lookup other (progress (state s))
        /\ lookup other (bookmarks (state (snd after)))
           = lookup other (bookmarks (state s)))
  /\ (healthy (database s) ->
      fst after = Resolved tt
      /\ get id (records (database (snd after))) = None
      /\ (forall other,
            other <> id ->
            get other (records (database (snd after)))
            = get other (records (database s)))
      /\ library (state (snd after))
         = sortBooks (delete id (records (database s))))
  /\ (opens (database s) = false \/ fails (database s) (Delete id) = true ->
      fst after = Rejected HostError
      /\ database (snd after) = database s
      /\ library (state (snd after)) = library (state s))
  /\ handleDeleteBook id false s = (Resolved tt, s).
Proof.
  unfold handleDeleteBook, bind, set, onDatabase.
  cbn [state database ticks alerts sent].
  split; [|split; [|split; [|split; [|split]]]].
  - destruct (deleteBookFromDB id (database s)) as [[| |] db'];
      [rewrite refreshLibrary_run; destruct (_ && _)|..];
      cbn [snd state progress setBookmarks setProgress setLibrary];
      apply lookup_remove_same.
  - destruct (deleteBookFromDB id (database s)) as [[| |] db'];
      [rewrite refreshLibrary_run; destruct (_ && _)|..];
      cbn [snd state bookmarks setBookmarks setProgress setLibrary];
      apply lookup_remove_same.
  - intros other Hother.
    destruct (deleteBookFromDB id (database s)) as [[| |] db'];
      [rewrite refreshLibrary_run; destruct (_ && _)|..];
      cbn [snd state progress bookmarks setBookmarks setProgress setLibrary];
      now rewrite !lookup_remove_other by exact Hother.
  - intros Hh. rewrite (deleteBookFromDB_healthy _ _ Hh).
    rewrite refreshLibrary_healthy
      by (cbn [database]; now apply healthy_withRecords).
    cbn [fst snd state database records withRecords library setLibrary].
    split; [reflexivity|]. split; [apply get_delete_same|].
    split; [|reflexivity].
    intros other Hother. now apply get_delete_other.
  - intros Hbad. unfold deleteBookFromDB, initDB.
    destruct (opens (database s)); [|now destruct s as [[]]].
    destruct Hbad as [Hbad|Hbad]; [discriminate|]. rewrite Hbad.
    now destruct s as [[]].
  - reflexivity.
Qed.


Module ImportFacts.

Section Upload.

Variable host : Host.
Variable time : nat -> Z.

Lemma importFile_run file s :
  healthy (database s) ->
  importFile host time file s
  = match parseFile host file with
    | Resolved data =>
        (Resolved tt,
         mkSys (state s)
               (withRecords (database s)
                  (put (mkLibraryBook (bookIdOf file) (bytes file)
                          (mkMetadata (bookIdOf file) (resultTitle data)
                             (name file) (last (split 46 (name file)) [])
                             (Some (time (ticks s)))
                             (Z.of_nat (List.length (chapters data))))
                          (time (S (ticks s))))
                       (records (database s))))
               (S (S (ticks s))) (alerts s) (sent s))
    | Rejected e => (Rejected e, s)
    | Pending => (Pending, s)
    end.
Proof.
  intros Hh. unfold importFile, bind, awaitPromise, Date_now, onDatabase.
  destruct (parseFile host file) as [data|e|]; try reflexivity.
  cbn [state database ticks alerts sent].
  now rewrite (saveBookToDB_healthy _ _ Hh).
Qed.

Lemma importFiles_spec files :
  forall s successCount failList,
    healthy (database s) ->
    (forall f, In f files -> parseFile host f <> Pending) ->
    NoDup (List.map bookIdOf files) ->
    exists s',
      importFiles host time files successCount failList s
      = (Resolved
           (successCount
            + Z.of_nat (List.length (filter (parses host) files)),
            failList
            ++ List.map name
                 (filter (fun f => negb (parses host f)) files)),
         s')
      /\ state s' = state s
      /\ alerts s' = alerts s
      /\ healthy (database s')
      /\ (forall f data,
            In f files -> parseFile host f = Resolved data ->
            exists r, get (bookIdOf f) (records (database s')) = Some r
                      /\ recordOf f data r)
      /\ (forall k,
            (forall f, In f files -> parses host f = true ->
                       bookIdOf f <> k) ->
            get k (records (database s')) = get k (records (database s))).
Proof.
  induction files as [|file files IH]; intros s n fl Hh Hset Hnd.
  - exists s. cbn [importFiles filter List.map List.length].
    rewrite Z.add_0_r, app_nil_r. unfold ret.
    split; [reflexivity|]. split; [reflexivity|]. split; [reflexivity|].
    split; [exact Hh|]. split; [intros f data []|reflexivity].
  - cbn [importFiles]. unfold bind at 1. unfold tryCatch, bind at 1, ret.
    rewrite (importFile_run file s Hh).
    inversion Hnd as [|? ? Hfresh Hnd']; subst.
    assert (Hset' : forall f, In f files -> parseFile host f <> Pending)
      by (intros f Hf; apply Hset; now right).
    cbn [filter].
    destruct (parseFile host file) as [data|e|] eqn:Hp;
      [assert (Hps : parses host file = true)
         by (unfold parses; now rewrite Hp)
      |assert (Hps : parses host file = false)
         by (unfold parses; now rewrite Hp)
      |exfalso; exact (Hset file (or_introl eq_refl) Hp)];
      rewrite Hps.
    + set (rec := mkLibraryBook _ _ _ _).
      set (s1 := mkSys _ _ _ _ _).
      destruct (IH s1 (n + 1) fl) as (s' & Hrun & Hst & Hal & Hh' & Hin & Hout);
        [now apply healthy_withRecords | exact Hset' | exact Hnd' |].
      exists s'. rewrite Hrun. cbn [negb List.length List.map].
      split; [apply f_equal2; [|reflexivity]; apply f_equal;
              apply f_equal2; [lia | reflexivity]|].
      split; [exact Hst|].
      split; [exact Hal|]. split; [exact Hh'|]. split.
      * intros f d [<-|Hf] Hd.
        -- rewrite Hp in Hd. injection Hd as <-.
           exists rec. split; [|now repeat split].
           rewrite Hout.
           ++ exact (get_put_same rec _).
           ++ intros g Hg _ E. apply Hfresh. rewrite <- E. now apply in_map.
        -- exact (Hin f d Hf Hd).
      * intros k Hk. rewrite Hout.
        -- cbn [s1 database records withRecords]. apply get_put_other.
           intros ->. now apply (Hk file); [left| |].
        -- intros f Hf. apply Hk. now right.
    + destruct (IH s n (fl ++ [name file]))
        as (s' & Hrun & Hst & Hal & Hh' & Hin & Hout);
        [exact Hh | exact Hset' | exact Hnd' |].
      exists s'. rewrite Hrun. cbn [negb List.length List.map].
      rewrite <- app_assoc. cbn [app].
      split; [reflexivity|]. split; [exact Hst|].
      split; [exact Hal|]. split; [exact Hh'|]. split.
      * intros f d [<-|Hf] Hd; [congruence|]. exact (Hin f d Hf Hd).
      * intros k Hk. apply Hout. intros f Hf. apply Hk. now right.
Qed.

End Upload.

End ImportFacts.

Import ImportFacts.

(** X19: importing files whose ids differ, into a store that works,
    when every parse settles: the handler returns, every file is counted
    once as imported or as failed, the alert is shown exactly when a file
    failed and names the failed files in order, every file that parses has
    its record under its id, and the records under other ids are as they
    were. *)
Theorem import_accounting
    (host : Host) (time : nat -> Z) (files : list File) (s : Sys) :
  healthy (database s) ->
  (forall f, In f files -> parseFile host f <> Pending) ->
  NoDup (List.map bookIdOf files) ->
  let imported := filter (parses host) files in
  let failed := filter (fun f => negb (parses host f)) files in
  exists s',
    handleFileUpload host time files s = (Resolved tt, s')
    /\ alerts s'
       = alerts s
         ++ match failed with
            | [] => []
            | _ :: _ =>
                [importReport (Z.of_nat (List.length imported))
                              (List.map name failed)]
            end
    /\ (List.length imported + List.length failed = List.length files)%nat
    /\ (files <> [] ->
        loading (state s') = false
        /\ library (state s') = sortBooks (records (database s')))
    /\ (forall f data,
          In f files -> parseFile host f = Resolved data ->
          exists r, get (bookIdOf f) (records (database s')) = Some r
                    /\ recordOf f data r)
    /\ (forall k,
          (forall f, In f files -> parses host f = true -> bookIdOf f <> k) ->
          get k (records (database s')) = get k (records (database s))).
Proof.
  intros Hh Hset Hnd imported failed.
  assert (Hlen : (List.length imported + List.length failed
                  = List.length files)%nat).
  { subst imported failed. clear. induction files as [|f l IH]; [reflexivity|].
    cbn [filter]. destruct (parses host f); cbn [negb List.length]; lia. }
  destruct files as [|file files'].
  - exists s. cbn. rewrite app_nil_r. 
    split; [reflexivity|]. split; [reflexivity|]. split; [reflexivity|].
    split; [congruence|]. split; [intros f data []|reflexivity].
  - unfold handleFileUpload.
    unfold bind at 1. unfold set at 1.
    set (s0 := mkSys (setLoading true (state s)) _ _ _ _).
    destruct (importFiles_spec host time (file :: files') s0 0 []) as
      (s1 & Hrun & Hst & Hal & Hh1 & Hin & Hout); try assumption.
    unfold bind at 1. rewrite Hrun. cbn [fst snd app]. rewrite Z.add_0_l.
    unfold bind at 1. rewrite (refreshLibrary_healthy _ Hh1).
    unfold bind at 1. unfold set at 1. cbn [state database ticks alerts sent].
    fold imported. fold failed.
    destruct failed as [|x failed'] eqn:Hfailed.
    + eexists. split; [reflexivity|]. cbn [alerts state database].
      rewrite Hal, app_nil_r. split; [reflexivity|].
      split; [exact Hlen|]. split; [intros _; split; reflexivity|].
      split; [exact Hin | exact Hout].
    + eexists. split; [reflexivity|]. cbn [alerts state database].
      rewrite Hal. split; [reflexivity|].
      split; [exact Hlen|]. split; [intros _; split; reflexivity|].
      split; [exact Hin | exact Hout].
Qed.

Lemma import_accounting_witness :
  exists s',
    handleFileUpload txtHost sampleClock
      [twoChapterFile; mkFile (js "notes.pdf") [37; 80]]
      (mkSys shelfState (mkDatabase true (fun _ => false) []) 0 [] [])
    = (Resolved tt, s')
    /\ alerts s' = [importReport 1 [js "notes.pdf"]]
    /\ List.map key (records (database s')) = [js "novel.txt-27"].
Proof.
  destruct (import_accounting txtHost sampleClock
              [twoChapterFile; mkFile (js "notes.pdf") [37; 80]]
              (mkSys shelfState (mkDatabase true (fun _ => false) []) 0 [] []))
    as (s' & Hrun & Hal & _).
  - split; [reflexivity | intros r; reflexivity].
  - intros f [<-|[<-|[]]]; vm_compute; discriminate.
  - vm_compute.
    constructor; [intros [H|[]]; discriminate H|].
    constructor; [intros [] | constructor].
  - exists s'. split; [exact Hrun|]. split; [exact Hal|].
    vm_compute in Hrun. injection Hrun as <-. vm_compute. reflexivity.
Defined.

Ltac case_innermost :=
  match goal with
  | |- context [match ?x with _ => _ end] =>
      lazymatch x with
      | context [match _ with _ => _ end] => fail
      | _ => destruct x eqn:?
      end
  end.

(** X14: [handleOpenFromLibrary] never ends in a rejection.  Either it
    returns with the loading flag cleared, or it waits forever with the
    loading flag set, and then it is the parse of the file of the record
    that is never settled. *)
Theorem opening_settles_or_hangs
    (host : Host) (time : nat -> Z) (libraryBook : LibraryBook) (s : Sys) :
  let after := handleOpenFromLibrary host time libraryBook s in
  (fst after = Resolved tt /\ loading (state (snd after)) = false)
  \/ (fst after = Pending
      /\ loading (state (snd after)) = true
      /\ exists record,
           get (key libraryBook) (records (database (snd after)))
           = Some record
           /\ parseFile host (mkFile (fileName (metadata record))
                                     (blob record))
              = Pending).
Proof.
  unfold handleOpenFromLibrary, finally, tryCatch, bind, set, Date_now,
    onDatabase, awaitPromise, read, alert, ret, updateBookLastRead,
    getBookFromDB, initDB.
  destruct s as [st db n al sn].
  repeat (cbn [state database ticks alerts sent opens fails records
               withRecords fst snd];
          rewrite ?refreshLibrary_run;
          try case_innermost).
  all: cbn [state database ticks alerts sent opens fails records
               withRecords fst snd loading setLoading setLibrary].
  all: try (left; split; reflexivity).
  all: try discriminate.
  all: right; split; [reflexivity|]; split; [reflexivity|]; eauto.
Qed.


Module InvariantFacts.

Lemma keeps_ret {A : Type} (a : A) : keepsShelf (ret a).
Proof. intros s H. exact H. Qed.

Lemma keeps_bind {A B : Type} (m : Task A) (k : A -> Task B) :
  keepsShelf m -> (forall a, keepsShelf (k a)) -> keepsShelf (bind m k).
Proof.
  intros Hm Hk s H. unfold bind. specialize (Hm s H).
  destruct (m s) as [[a|e|] s']; cbn [snd] in *; [now apply Hk | exact Hm..].
Qed.

Lemma keeps_tryCatch {A : Type} (m : Task A) (h : Error -> Task A) :
  keepsShelf m -> (forall e, keepsShelf (h e)) -> keepsShelf (tryCatch m h).
Proof.
  intros Hm Hh s H. unfold tryCatch. specialize (Hm s H).
  destruct (m s) as [[a|e|] s']; cbn [snd] in *; [exact Hm | now apply Hh | exact Hm].
Qed.

Lemma keeps_finally {A : Type} (m : Task A) (f : AppState -> AppState) :
  keepsShelf m -> (forall st, library (f st) = library st) ->
  keepsShelf (finally m f).
Proof.
  intros Hm Hf s H. unfold finally. specialize (Hm s H).
  destruct (m s) as [[a|e|] s']; cbn [snd] in *; try exact Hm;
    destruct Hm as [H1 H2]; split; cbn [database state]; auto;
    now rewrite Hf.
Qed.

Lemma keeps_set (f : AppState -> AppState) :
  (forall st, library (f st) = library st) -> keepsShelf (set f).
Proof.
  intros Hf s [H1 H2]. split; cbn; [exact H1 | now rewrite Hf].
Qed.

Lemma keeps_read : keepsShelf read.
Proof. intros s H. exact H. Qed.

Lemma keeps_alert message : keepsShelf (alert message).
Proof. intros s H. exact H. Qed.

Lemma keeps_awaitPromise {A : Type} (p : Promise A) :
  keepsShelf (awaitPromise p).
Proof. intros s H. exact H. Qed.

Lemma keeps_Date_now time : keepsShelf (Date_now time).
Proof. intros s H. exact H. Qed.

Lemma keeps_onDatabase {A : Type} (f : Database -> Promise A * Database) :
  (forall db, keyOrdered (records db) -> keyOrdered (records (snd (f db)))) ->
  keepsShelf (onDatabase f).
Proof.
  intros Hf s [H1 H2]. unfold onDatabase. specialize (Hf _ H1).
  destruct (f (database s)) as [r db']. split; [exact Hf | exact H2].
Qed.

Lemma saveBookToDB_ordered b db :
  keyOrdered (records db) -> keyOrdered (records (snd (saveBookToDB b db))).
Proof.
  intros H. unfold saveBookToDB, initDB.
  destruct (opens db); [|exact H].
  destruct (fails db (Put b)); [exact H|]. now apply put_keyOrdered.
Qed.

Lemma updateBookLastRead_ordered id t db :
  keyOrdered (records db) ->
  keyOrdered (records (snd (updateBookLastRead id t db))).
Proof.
  intros H. unfold updateBookLastRead, initDB.
  destruct (opens db); [|exact H].
  destruct (fails db (Get id)); [exact H|].
  destruct (get id (records db)) as [data|]; [|exact H].
  destruct (fails db (Put _)); [exact H|]. now apply put_keyOrdered.
Qed.

Lemma getBookFromDB_ordered id db :
  keyOrdered (records db) ->
  keyOrdered (records (snd (getBookFromDB id db))).
Proof.
  intros H. unfold getBookFromDB, initDB.
  destruct (opens db); [|exact H]. now destruct (fails db (Get id)).
Qed.

Lemma deleteBookFromDB_ordered id db :
  keyOrdered (records db) ->
  keyOrdered (records (snd (deleteBookFromDB id db))).
Proof.
  intros H. unfold deleteBookFromDB, initDB.
  destruct (opens db); [|exact H].
  destruct (fails db (Delete id)); [exact H|]. now apply delete_keyOrdered.
Qed.

Lemma keeps_refreshLibrary : keepsShelf refreshLibrary.
Proof.
  intros s [H1 H2]. rewrite refreshLibrary_run. cbn [snd].
  destruct (_ && _); [|now split]. split; [exact H1|].
  cbn [state library setLibrary].
  apply (Permutation_NoDup
           (Permutation_map key (sortBooks_perm (records (database s))))).
  now apply keyOrdered_NoDup.
Qed.

Create HintDb shelf.

#[export] Hint Resolve keeps_ret keeps_read keeps_alert keeps_awaitPromise
  keeps_Date_now keeps_refreshLibrary saveBookToDB_ordered
  updateBookLastRead_ordered getBookFromDB_ordered deleteBookFromDB_ordered
  : shelf.

Ltac keeps_step :=
  first
    [ solve [auto with shelf]
    | apply keeps_bind; [|intros ?]
    | apply keeps_tryCatch; [|intros ?]
    | apply keeps_finally; [|intros []; reflexivity]
    | apply keeps_set; intros []; reflexivity
    | apply keeps_onDatabase; intros ? ?; auto with shelf
    | match goal with
      | |- keepsShelf (match ?x with _ => _ end) => destruct x
      | |- keepsShelf (if ?x then _ else _) => destruct x
      end ].

Lemma keeps_importFiles host time files :
  forall n fl, keepsShelf (importFiles host time files n fl).
Proof.
  induction files as [|file files IH]; intros n fl; cbn [importFiles];
    [apply keeps_ret|].
  apply keeps_bind; [|intros []; apply IH].
  unfold importFile. repeat keeps_step.
Qed.

End InvariantFacts.

Import InvariantFacts.

(** X18: every handler keeps the records of the store in the strict
    order of their keys and the shelf free of repeated keys, whether it
    returns, throws or waits forever. *)
Theorem shelf_lists_each_book_once
    (host : Host) (time : nat -> Z) (ai : Client) :
  (forall files, keepsShelf (handleFileUpload host time files))
  /\ (forall libraryBook,
        keepsShelf (handleOpenFromLibrary host time libraryBook))
  /\ (forall id confirmed, keepsShelf (handleDeleteBook id confirmed))
  /\ keepsShelf closeBook
  /\ (forall percentage, keepsShelf (handleUpdateProgress percentage))
  /\ (forall chapter textSnippet percentage,
        keepsShelf (handleAddBookmark time chapter textSnippet percentage))
  /\ (forall bookmark, keepsShelf (handleDeleteBookmark bookmark))
  /\ (forall bm, keepsShelf (openBookmark bm))
  /\ (forall text, keepsShelf (handleAiSummarize ai text)).
Proof.
  repeat match goal with |- _ /\ _ => split end; intros.
  - unfold handleFileUpload. destruct files; [apply keeps_ret|].
    apply keeps_bind; [repeat keeps_step|intros ?].
    apply keeps_bind; [apply keeps_importFiles|intros ?].
    repeat keeps_step.
  - unfold handleOpenFromLibrary. repeat keeps_step.
  - unfold handleDeleteBook. repeat keeps_step.
  - unfold closeBook. repeat keeps_step.
  - unfold handleUpdateProgress. repeat keeps_step.
  - unfold handleAddBookmark. repeat keeps_step.
  - unfold handleDeleteBookmark. repeat keeps_step.
  - unfold openBookmark. repeat keeps_step.
  - unfold handleAiSummarize. repeat keeps_step.
    intros s H. destruct (summarizeChapter ai text). exact H.
Qed.

Module MoreFacts.

Lemma substring_0 s n :
  0 <= n -> substring s 0 n = firstn (Z.to_nat n) s.
Proof.
  intros Hn. unfold substring, clamp. cbv zeta. pose proof (len_nonneg s).
  replace (Z.min (Z.min (Z.max 0 0) (len s)) (Z.min (Z.max n 0) (len s)))
    with 0 by lia.
  cbn [Z.to_nat skipn]. rewrite Z.sub_0_r.
  destruct (Z.le_gt_cases n (len s)).
  - f_equal. lia.
  - replace (Z.max _ _) with (len s) by lia.
    unfold len in *. rewrite Nat2Z.id.
    rewrite !firstn_all2; [reflexivity | lia | lia].
Qed.

Lemma split_nonempty sep s : split sep s <> [].
Proof.
  destruct s as [|c s]; cbn [split]; [discriminate|].
  destruct (c =? sep); [discriminate|].
  destruct (split sep s); discriminate.
Qed.

Lemma split_whole sep s : ~ In sep s -> split sep s = [s].
Proof.
  induction s as [|c s IH]; intros Hs; [reflexivity|]. cbn [split].
  destruct (Z.eqb_spec c sep) as [->|_]; [exfalso; apply Hs; now left|].
  rewrite IH; [reflexivity|]. intros H. apply Hs. now right.
Qed.

Lemma split_last sep s : forall pre,
  exists p ps,
    split sep (pre ++ sep :: s) = p :: ps
    /\ ps <> [] /\ last ps [] = last (split sep s) [].
Proof.
  induction pre as [|c pre (p & ps & IH & Hps & Hlast)].
  - exists [], (split sep s). cbn [app split]. rewrite Z.eqb_refl.
    split; [reflexivity|]. split; [apply split_nonempty | reflexivity].
  - cbn [app split]. rewrite IH. destruct (c =? sep).
    + exists [], (p :: ps). split; [reflexivity|]. split; [discriminate|].
      rewrite <- Hlast. destruct ps; [congruence | reflexivity].
    + exists (c :: p), ps. now repeat split.
Qed.

Lemma last_segment sep pre s :
  ~ In sep s -> last (split sep (pre ++ sep :: s)) [] = s.
Proof.
  intros Hs. destruct (split_last sep s pre) as (p & ps & -> & Hps & Hlast).
  rewrite split_whole in Hlast by exact Hs. cbn [last] in Hlast.
  rewrite <- Hlast. destruct ps; [congruence | reflexivity].
Qed.

Lemma keyOrdered_In rs x y :
  keyOrdered rs -> In x rs -> In y rs -> key x = key y -> x = y.
Proof.
  induction 1 as [|r rs Hrs IH Hr]; intros Hx Hy Hk; [destruct Hx|].
  pose proof (proj1 (Forall_forall _ _) Hr) as Hlt. cbv beta in Hlt.
  destruct Hx as [<-|Hx], Hy as [<-|Hy]; auto.
  - specialize (Hlt _ Hy). rewrite Hk, keyLt_irrefl in Hlt. discriminate.
  - specialize (Hlt _ Hx). rewrite <- Hk, keyLt_irrefl in Hlt. discriminate.
Qed.

Lemma sortBooks_head l b :
  In b l ->
  (forall x, In x l -> x = b \/ shelfTime x < shelfTime b) ->
  hd_error (sortBooks l) = Some b.
Proof.
  intros Hb Hmax.
  pose proof (sortBooks_perm l) as Hperm.
  pose proof (sortBooks_sorted l) as Hsorted.
  destruct (sortBooks l) as [|h t].
  - apply Permutation_sym, Permutation_nil in Hperm. subst l. destruct Hb.
  - cbn [hd_error]. f_equal.
    assert (Hh : In h l)
      by (apply (Permutation_in _ (Permutation_sym Hperm)); now left).
    destruct (Hmax h Hh) as [->|Hlt]; [reflexivity|].
    apply (Permutation_in _ Hperm) in Hb. destruct Hb as [->|Hb]; [reflexivity|].
    inversion Hsorted as [|? ? _ Hall]; subst.
    pose proof (proj1 (Forall_forall _ _) Hall b Hb). cbv beta in *. lia.
Qed.

End MoreFacts.

Import MoreFacts.

(** X16: when a book is opened at a time later than the times of the
    other books of the store, the shelf that the handler leaves starts
    with that book, stamped with the time of opening. *)
Theorem opened_book_comes_first
    (host : Host) (time : nat -> Z) (s : Sys)
    (libraryBook record : LibraryBook) (data : ParseResult) :
  healthy (database s) ->
  keyOrdered (records (database s)) ->
  get (key libraryBook) (records (database s)) = Some record ->
  parseFile host (mkFile (fileName (metadata record)) (blob record))
  = Resolved data ->
  0 < time (ticks s) ->
  (forall other,
      In other (records (database s)) ->
      key other <> key libraryBook ->
      shelfTime other < time (ticks s)) ->
  hd_error (library (state (snd (handleOpenFromLibrary host time
                                   libraryBook s))))
  = Some (withLastRead record (time (ticks s))).
Proof.
  intros Hh Hord Hget Hparse Hpos Hmax.
  rewrite (handleOpenFromLibrary_run host time _ _ _ _ Hh Hget Hparse).
  cbn [snd state library records withRecords].
  destruct (get_key _ _ _ Hget) as [Hkey Hin].
  set (record' := withLastRead record (time (ticks s))).
  assert (Htime : shelfTime record' = time (ticks s)).
  { unfold shelfTime, record'. cbn.
    destruct (Z.eqb_spec (time (ticks s)) 0); [lia | reflexivity]. }
  apply sortBooks_head.
  - apply (get_key (key record')). apply get_put_same.
  - intros x Hx. rewrite Htime.
    assert (Hord' : keyOrdered (put record' (records (database s))))
      by now apply put_keyOrdered.
    assert (Hrec : In record' (put record' (records (database s))))
      by (apply (get_key (key record')); apply get_put_same).
    destruct (list_eq_dec Z.eq_dec (key x) (key record')) as [E|E].
    + left. exact (keyOrdered_In _ _ _ Hord' Hx Hrec E).
    + right. apply put_In in Hx as [->|Hx]; [congruence|].
      apply Hmax; [exact Hx|]. rewrite <- Hkey. exact E.
Qed.

Lemma opened_book_comes_first_witness :
  List.map key (library readingState)
  = [js "essay.txt-3"; js "novel.txt-27"]
  /\ hd_error
       (library
          (state (snd (handleOpenFromLibrary txtHost sampleClock novelRecord
                         readingSys))))
     = Some (withLastRead novelRecord 2000).
Proof.
  split; [vm_compute; reflexivity|].
  apply (opened_book_comes_first txtHost sampleClock readingSys novelRecord
           novelRecord twoChapterResult).
  - split; [reflexivity | intros r; reflexivity].
  - unfold keyOrdered. repeat constructor.
  - vm_compute. reflexivity.
  - vm_compute. reflexivity.
  - vm_compute. reflexivity.
  - intros other [<-|[<-|[]]] Hk.
    + vm_compute. reflexivity.
    + exfalso. now apply Hk.
Defined.

(** X23: the format of a file is read from what follows the last dot
    of its name, in lower case; a name without a dot is its own
    extension. *)
Theorem format_from_last_dot (stem ext : jsstring) (content : list Z) :
  ~ In 46 ext ->
  extension (mkFile (stem ++ 46 :: ext) content) = toLowerCase ext
  /\ extension (mkFile ext content) = toLowerCase ext.
Proof.
  intros Hext. unfold extension. cbn [name]. split.
  - now rewrite last_segment.
  - now rewrite split_whole.
Qed.

Lemma format_from_last_dot_witness :
  extension (mkFile (js "My.Book.EPUB") []) = js "epub"
  /\ extension (mkFile (js "TXT") []) = js "txt".
Proof.
  split.
  - destruct (format_from_last_dot (js "My.Book") (js "EPUB") []) as [H _].
    + vm_compute. intuition discriminate.
    + exact H.
  - vm_compute. reflexivity.
Defined.

(** X24: the snippet of a bookmark has at most 53 units: it is the
    selection when the selection has at most 50 units, and its first 50
    units followed by three dots otherwise. *)
Theorem snippet_bounds (selection : jsstring) :
  len (textSnippet selection) <= 53
  /\ (len selection <= 50 -> textSnippet selection = selection)
  /\ (50 < len selection ->
      textSnippet selection = firstn 50 selection ++ js "...").
Proof.
  unfold textSnippet. rewrite substring_0 by lia.
  change (Z.to_nat 50) with 50%nat.
  pose proof (length_firstn 50 selection) as Hf.
  destruct (Z.gtb_spec (len selection) 50) as [Hlong|Hshort].
  - split; [|split; [lia | reflexivity]].
    rewrite len_app. unfold len in *. rewrite Hf.
    change (List.length (js "...")) with 3%nat. lia.
  - rewrite app_nil_r. split; [|split; [|lia]].
    + unfold len in *. lia.
    + intros _. apply firstn_all2. unfold len in *. lia.
Qed.


(** X15: for a record of a .docx or .epub book whose library is loaded,
    when the read of the file ends in an error the parse is never settled
    (the reader of these formats has no error handler), so opening the
    book from the shelf never ends: the loading flag stays set and no
    alert is shown. *)
Theorem unreadable_document_hangs
    (host : Host) (time : nat -> Z) (s : Sys)
    (libraryBook record : LibraryBook) :
  healthy (database s) ->
  get (key libraryBook) (records (database s)) = Some record ->
  let file := mkFile (fileName (metadata record)) (blob record) in
  (extension file = js "docx" /\ mammoth host <> None)
  \/ (extension file = js "epub" /\ ePub host <> None) ->
  readAsArrayBuffer host (blob record) = OnError ->
  let after := handleOpenFromLibrary host time libraryBook s in
  parseFile host file = Pending
  /\ fst after = Pending
  /\ loading (state (snd after)) = true
  /\ alerts (snd after) = alerts s.
Proof.
  intros Hh Hget file Hkind Hread after.
  assert (Hparse : parseFile host file = Pending).
  { unfold parseFile. cbn [bytes file]. rewrite Hread.
    destruct Hkind as [[-> Hlib]|[-> Hlib]].
    - change (JS.eqb (js "docx") (js "txt")) with false.
      change (JS.eqb (js "docx") (js "docx")) with true. cbv iota.
      now destruct (mammoth host).
    - change (JS.eqb (js "epub") (js "txt")) with false.
      change (JS.eqb (js "epub") (js "docx")) with false.
      change (JS.eqb (js "epub") (js "epub")) with true. cbv iota.
      now destruct (ePub host). }
  split; [exact Hparse|]. subst after.
  pose proof (healthy_withRecords _
                (put (withLastRead record (time (ticks s)))
                     (records (database s))) Hh) as Hh'.
  unfold handleOpenFromLibrary, finally, tryCatch, bind, set, Date_now,
    onDatabase, awaitPromise, read.
  destruct s as [st db n al sn]. cbn [state database ticks alerts sent] in *.
  rewrite (updateBookLastRead_healthy _ _ _ Hh), Hget.
  rewrite (getBookFromDB_healthy _ _ Hh').
  destruct (get_key _ _ _ Hget) as [Hkey _].
  cbn [records withRecords]. rewrite <- Hkey.
  change (key record) with (key (withLastRead record (time n))).
  rewrite get_put_same. cbn [state database ticks alerts sent].
  change (fileName (metadata (withLastRead record (time n))))
    with (fileName (metadata record)).
  change (blob (withLastRead record (time n))) with (blob record).
  fold file. rewrite Hparse. cbn. auto.
Qed.

Lemma unreadable_document_hangs_witness :
  fst (handleOpenFromLibrary unreadableHost sampleClock reportRecord
         reportSys)
  = Pending
  /\ loading (state (snd (handleOpenFromLibrary unreadableHost sampleClock
                            reportRecord reportSys)))
     = true.
Proof.
  destruct (unreadable_document_hangs unreadableHost sampleClock reportSys
              reportRecord reportRecord)
    as (_ & Hp & Hl & _).
  - split; [reflexivity | intros r; reflexivity].
  - vm_compute. reflexivity.
  - left. split; [vm_compute; reflexivity | discriminate].
  - reflexivity.
  - split; [exact Hp | exact Hl].
Defined.

(** ** Moving in a book *)

Module NavigationFacts.

Lemma findIndexFrom_range {A : Type} (p : A -> bool) (l : list A) :
  forall k,
    findIndexFrom p l k = -1
    \/ k <= findIndexFrom p l k < k + Z.of_nat (List.length l).
Proof.
  induction l as [|x l IH]; intros k; cbn [findIndexFrom List.length];
    [now left|].
  destruct (p x); [right; lia|].
  destruct (IH (k + 1)) as [H|H]; [now left | right; lia].
Qed.

Lemma chapterInRange_shown st :
  chapterInRange st -> book st <> None -> exists ch, shown st = Shown ch.
Proof.
  unfold chapterInRange, shown, activeChapterData.
  destruct (book st) as [b|]; [|congruence]. intros [H0 H1] _.
  cbn [option_map].
  destruct (Z.ltb_spec (currentChapterIndex st) 0); [lia|].
  destruct (nth_error (bookChapters b) (Z.to_nat (currentChapterIndex st)))
    as [ch|] eqn:E; [eauto|].
  apply nth_error_None in E. lia.
Qed.

End NavigationFacts.

Import NavigationFacts.

(** X25: while a book is open at one of its chapters, the buttons for
    the chapter before and the chapter after, the entries of the table of
    contents and the bookmarks of the side bar all leave it open at one of
    its chapters, and the view shows a chapter. *)
Theorem navigation_stays_in_range (s : Sys) :
  chapterInRange (state s) ->
  chapterInRange (state (snd (onPrevChapter s)))
  /\ chapterInRange (state (snd (onNextChapter s)))
  /\ (forall idx narrow,
        chapterInRange (state (snd (selectChapter idx narrow s))))
  /\ (forall bm, chapterInRange (state (snd (openBookmark bm s))))
  /\ (book (state s) <> None -> exists ch, shown (state s) = Shown ch).
Proof.
  intros H.
  assert (Hkeep : forall s', book (state s') = book (state s) ->
                    currentChapterIndex (state s')
                    = currentChapterIndex (state s) ->
                    chapterInRange (state s')).
  { intros s' Hb Hi. unfold chapterInRange in *. now rewrite Hb, Hi. }
  split; [|split; [|split; [|split]]].
  - unfold onPrevChapter, bind, read, set, ret.
    destruct (book (state s)) as [b|] eqn:Hb; [|now apply Hkeep].
    destruct (Z.gtb_spec (currentChapterIndex (state s)) 0);
      [|now apply Hkeep].
    unfold chapterInRange in *. cbn [snd state book setCurrentChapterIndex
                                     currentChapterIndex].
    rewrite Hb in *. lia.
  - unfold onNextChapter, bind, read, set, ret.
    destruct (book (state s)) as [b|] eqn:Hb; [|now apply Hkeep].
    destruct (Z.ltb_spec (currentChapterIndex (state s))
                (Z.of_nat (List.length (bookChapters b)) - 1));
      [|now apply Hkeep].
    unfold chapterInRange in *. cbn [snd state book setCurrentChapterIndex
                                     currentChapterIndex].
    rewrite Hb in *. lia.
  - intros idx narrow. unfold selectChapter, bind, read, set, ret.
    destruct (book (state s)) as [b|] eqn:Hb; [|now apply Hkeep].
    destruct (Nat.ltb_spec idx (List.length (bookChapters b)));
      [|now apply Hkeep].
    unfold chapterInRange in *.
    destruct narrow;
      cbn [snd state book setCurrentChapterIndex setSidebarOpen
           currentChapterIndex];
      rewrite Hb in *; lia.
  - intros bm. unfold openBookmark, bind, read, set, ret.
    destruct (book (state s)) as [b|] eqn:Hb; [|now apply Hkeep].
    unfold findIndex.
    destruct (findIndexFrom_range
                (fun c => JS.eqb (id c) (chapterId bm)) (bookChapters b) 0)
      as [E|E].
    + rewrite E. now apply Hkeep.
    + destruct (Z.geb_spec (findIndexFrom
                  (fun c => JS.eqb (id c) (chapterId bm)) (bookChapters b) 0)
                  0); [|now apply Hkeep].
      unfold chapterInRange in *.
      cbn [snd state book setCurrentChapterIndex currentChapterIndex].
      rewrite Hb in *. lia.
  - now apply chapterInRange_shown.
Qed.

Lemma navigation_stays_in_range_witness :
  shown (state (snd (onNextChapter readingSys)))
  = shown readingState
  /\ exists ch, shown readingState = Shown ch.
Proof.
  split; [vm_compute; reflexivity|].
  apply (navigation_stays_in_range readingSys).
  - vm_compute. split; [discriminate | reflexivity].
  - discriminate.
Defined.

(** X26: the scroll position saved by [handleUpdateProgress] at a
    chapter is the position the reader starts that chapter at, whatever
    the full text, and a chapter with another id starts at 0. *)
Theorem scroll_position_restored
    (s : Sys) (b : Book) (current : Chapter) (percentage : float64) :
  book (state s) = Some b ->
  0 <= currentChapterIndex (state s) ->
  nth_error (bookChapters b) (Z.to_nat (currentChapterIndex (state s)))
  = Some current ->
  let saved := state (snd (handleUpdateProgress percentage s)) in
  (forall fullText,
      initialScrollPercentage saved b (materialize current fullText)
      = percentage)
  /\ (forall other fullText,
        id other <> id current ->
        initialScrollPercentage saved b (materialize other fullText) = 0).
Proof.
  intros Hb H0 Hcur saved. subst saved.
  rewrite (handleUpdateProgress_run _ _ _ _ Hb H0 Hcur).
  cbn [snd state]. unfold initialScrollPercentage, setProgress.
  cbn [progress]. rewrite lookup_assign_same.
  cbn [currentChapterId scrollPercentage].
  assert (Hid : forall c ft, id (materialize c ft) = id c).
  { intros c ft. unfold materialize.
    destruct (content c) as [[|u t]|]; try reflexivity;
      destruct ft as [[|v w]|]; try reflexivity;
      destruct (startStringIndex c); reflexivity. }
  split.
  - intros ft. now rewrite Hid, eqb_refl.
  - intros other ft Hne. rewrite Hid.
    now rewrite eqb_neq by congruence.
Qed.

Lemma scroll_position_restored_witness :
  initialScrollPercentage
    (state (snd (handleUpdateProgress 7 readingSys))) novelBook
    (materialize
       (mkChapter (js "chap-1") (js "Chapter 2") None 1 (Some 14) (Some 27))
       (loadedText readingState))
  = 7.
Proof.
  apply (scroll_position_restored readingSys novelBook
           (mkChapter (js "chap-1") (js "Chapter 2") None 1 (Some 14)
                      (Some 27)) 7).
  - reflexivity.
  - vm_compute. discriminate.
  - vm_compute. reflexivity.
Defined.

Module TextBookFacts.

(** A result that keeps a full text comes from the plain-text parser. *)
Lemma parseFile_text host file data text :
  parseFile host file = Resolved data ->
  fullText data = Some text ->
  exists points,
    scanPoints text = Some points
    /\ chapters data = buildChapters text points.
Proof.
  unfold parseFile.
  destruct (JS.eqb (extension file) (js "txt")).
  - destruct (detectEncoding host file) as [encoding| |]; cbn [await];
      try discriminate.
    destruct (readAsArrayBuffer host (bytes file)) as [[buffer|]|];
      try discriminate.
    destruct (TextDecoder host encoding) as [decode|]; try discriminate.
    unfold parseTxtContentOptimized.
    destruct (scanPoints (decode buffer)) as [points|] eqn:Hscan;
      cbn [option_map]; try discriminate.
    intros [= <-]. cbn [fullText chapters]. intros [= <-]. eauto.
  - destruct (JS.eqb (extension file) (js "docx")).
    + destruct (mammoth host) as [convertToHtml|]; try discriminate.
      destruct (readAsArrayBuffer host (bytes file)) as [arrayBuffer|];
        try discriminate.
      destruct (convertToHtml arrayBuffer) as [html|]; try discriminate.
      intros [= <-]. discriminate.
    + destruct (JS.eqb (extension file) (js "epub")); try discriminate.
      destruct (ePub host) as [open|]; try discriminate.
      destruct (readAsArrayBuffer host (bytes file)) as [arrayBuffer|];
        try discriminate.
      destruct (open arrayBuffer) as [book|]; try discriminate.
      intros [= <-]. discriminate.
Qed.

Lemma buildChapters_first text points :
  exists first rest, buildChapters text points = first :: rest.
Proof.
  unfold buildChapters. destruct points as [|p points]; [eauto|].
  destruct (startIndex p >? 50); cbn [processPoints]; eauto.
Qed.

End TextBookFacts.

Import TextBookFacts.

(** X27: a book with a full text that is opened without saved progress
    has a first chapter and is shown at it, from the full text; when the
    text is empty the only chapter is the whole text, the full text is
    not kept, and the view is the loading placeholder. *)
Theorem opened_text_book_view
    (host : Host) (time : nat -> Z) (s : Sys)
    (libraryBook record : LibraryBook) (data : ParseResult)
    (text : jsstring) :
  healthy (database s) ->
  get (key libraryBook) (records (database s)) = Some record ->
  parseFile host (mkFile (fileName (metadata record)) (blob record))
  = Resolved data ->
  fullText data = Some text ->
  lookup (key libraryBook) (progress (state s)) = None ->
  let after := state (snd (handleOpenFromLibrary host time libraryBook s)) in
  exists first rest,
    chapters data = first :: rest
    /\ currentChapterIndex after = 0
    /\ (text <> [] -> shown after = Shown (materialize first (Some text)))
    /\ (text = [] ->
        first = wholeText []
        /\ shown after = Shown (withContent first loadingContent)).
Proof.
  intros Hh Hget Hparse Htext Hnone.
  destruct (parseFile_text _ _ _ _ Hparse Htext) as (points & Hscan & Hchs).
  destruct (buildChapters_first text points) as (first & rest & Hfirst).
  rewrite Hfirst in Hchs. exists first, rest.
  rewrite (handleOpenFromLibrary_run host time _ _ _ _ Hh Hget Hparse).
  cbn [snd state]. destruct (get_key _ _ _ Hget) as [Hk _].
  rewrite Hk, Hnone. cbn [restoredIndex currentChapterIndex].
  split; [exact Hchs|]. split; [reflexivity|].
  unfold shown, activeChapterData.
  cbn [book option_map bookChapters currentChapterIndex loadedText].
  rewrite Hchs, Htext. cbn [Z.ltb Z.compare Z.to_nat nth_error].
  split.
  - intros Hne. destruct text; [congruence | reflexivity].
  - intros ->. assert (Hw : first = wholeText []).
    { assert (Hp : points = []) by (vm_compute in Hscan; congruence).
      subst points. cbn in Hfirst. congruence. }
    split; [exact Hw|]. subst first. reflexivity.
Qed.

Lemma opened_text_book_view_witness :
  exists first rest,
    chapters twoChapterResult = first :: rest
    /\ shown (state (snd (handleOpenFromLibrary txtHost sampleClock
                            novelRecord readingSys)))
       = Shown (materialize first (Some (bytes twoChapterFile))).
Proof.
  destruct (opened_text_book_view txtHost sampleClock readingSys novelRecord
              novelRecord twoChapterResult (bytes twoChapterFile))
    as (first & rest & Hchs & _ & Hshown & _).
  - split; [reflexivity | intros r; reflexivity].
  - vm_compute. reflexivity.
  - vm_compute. reflexivity.
  - reflexivity.
  - reflexivity.
  - exists first, rest. split; [exact Hchs|]. apply Hshown. discriminate.
Defined.

(** X28: the explanation of a selection.  Without an API key no request
    is sent; with one, exactly one request is sent, whose contents quote
    the selection whole and at most the first 1000 units of the context.
    The call never rejects and never resolves with an empty answer; it is
    pending only when the service never answers. *)
Theorem explanation_always_answers
    (ai : Client) (selection context : jsstring) :
  let request :=
    mkRequest gemini_3_flash_preview
              (js "请结合故事情境，用简体中文解释以下选中的文本。"
               ++ [10; 10] ++ js "选文： " ++ [34] ++ selection ++ [34]
               ++ [10; 10] ++ js "选文上下文： " ++ [34]
               ++ firstn (Z.to_nat 1000) context ++ js "..." ++ [34])
              None None in
  snd (explainText ai selection context)
  = (if truthy (apiKey ai) then [request] else [])
  /\ (forall e, fst (explainText ai selection context) <> Rejected e)
  /\ (forall answer,
        fst (explainText ai selection context) = Resolved answer ->
        answer <> [])
  /\ (fst (explainText ai selection context) = Pending ->
      apiKey ai <> [] /\ generateContent ai request = Unanswered).
Proof.
  unfold explainText, explainPrompt. rewrite substring_0 by lia.
  destruct (apiKey ai) as [|u key]; cbn [truthy negb fst snd].
  - split; [reflexivity|]. split; [discriminate|]. split; [|discriminate].
    intros answer [= <-]. vm_compute. discriminate.
  - split; [reflexivity|].
    destruct (generateContent ai _) as [[t|]| |].
    + split; [discriminate|]. split; [|discriminate].
      intros answer [= <-]. destruct t; cbn [truthy]; [vm_compute|];
        discriminate.
    + split; [discriminate|]. split; [|discriminate].
      intros answer [= <-]. vm_compute. discriminate.
    + split; [discriminate|]. split; [|discriminate].
      intros answer [= <-]. vm_compute. discriminate.
    + split; [discriminate|]. split; [discriminate|].
      intros _. split; [discriminate | reflexivity].
Qed.
